(** * The file access plug-in (modules/access/file.c)

    A shallow embedding of [Open], [Close], [Read], [Seek] and [Control]
    of the file access module: a list of files presented as one stream.

    The embedding follows the POSIX build of the file (HAVE_SYS_STAT_H
    defined, neither WIN32 nor UNDER_CE), with assertions enabled.  The
    C library and kernel calls the module makes ([open], [dup], [close],
    [fstat], [read], [poll], [lseek], [msleep], the [b_die] flag) are an
    interface, [Platform]; every call is recorded in a trace. *)

From Stdlib Require Import ZArith Lia Bool Ascii String.
From stdpp Require Import base option list.

Local Open Scope Z_scope.

(** ** Machine integers *)

(** [int64_t]: two's complement wrap-around. *)
Definition wrap_int64 (z : Z) : Z := (z + 2 ^ 63) mod 2 ^ 64 - 2 ^ 63.

(** [unsigned]: 32 bits. *)
Definition wrap_uint (z : Z) : Z := z mod 2 ^ 32.

Definition in_int64 (z : Z) : Prop := - 2 ^ 63 <= z < 2 ^ 63.
Definition in_uint (z : Z) : Prop := 0 <= z < 2 ^ 32.

(** ** Data of the host and of the kernel *)

Inductive errno : Type :=
| EINTR | EAGAIN | EIO | EBADF | EINVAL | EOVERFLOW.

(** The file type bits of [st_mode]. *)
Inductive file_type : Type :=
| S_IFREG | S_IFBLK | S_IFCHR | S_IFDIR | S_IFIFO | S_IFSOCK.

Record stat : Type := { st_mode : file_type; st_size : Z }.

Definition S_ISREG (t : file_type) : bool := match t with S_IFREG => true | _ => false end.
Definition S_ISBLK (t : file_type) : bool := match t with S_IFBLK => true | _ => false end.
Definition S_ISCHR (t : file_type) : bool := match t with S_IFCHR => true | _ => false end.
Definition S_ISDIR (t : file_type) : bool := match t with S_IFDIR => true | _ => false end.

(** What [read] gives: the bytes stored in the buffer, or -1 and [errno]. *)
Inductive read_result : Type :=
| RdBytes (bs : list Byte.byte)
| RdErr (e : errno).

(** The value [read] returns. *)
Definition read_ret (r : read_result) : Z :=
  match r with
  | RdBytes bs => Z.of_nat (length bs)
  | RdErr _ => -1
  end.

Definition read_data (r : read_result) : list Byte.byte :=
  match r with
  | RdBytes bs => bs
  | RdErr _ => []
  end.

(** Return codes of the module. *)
Inductive vlc_status : Type := VLC_SUCCESS | VLC_ENOMEM | VLC_EGENERIC.

(** The messages the module logs. *)
Inductive message : Type :=
| MsgOpening (path : string)
| MsgOpeningAdditional (path : string)
| MsgFstatFailed (fd : Z)
| MsgIsDirectory
| MsgFileIsEmpty
| MsgReadFailed (e : errno)
| MsgSeekingTooFar
| MsgSeekingTooEarly
| MsgUnimplementedQuery
| MsgIncorrectFileName (name : string)
| MsgCannotOpen (name : string).

(** One entry of the trace: a call to the outside and what it answered. *)
Inductive event : Type :=
| EvDbg (m : message)
| EvWarn (m : message)
| EvErr (m : message)
| EvUserFatal (m : message)
| EvMsleep (delay : Z)
| EvOpen (path : string) (fd : Z)
| EvDup (oldfd fd : Z)
| EvClose (fd : Z)
| EvFstat (fd : Z) (r : option stat)
| EvPoll (fd : Z) (r : Z)
| EvRead (fd : Z) (len : Z) (r : Z)
| EvLseek (fd : Z) (off : Z).

(** ** The module's state *)

(** [p_access->info]. *)
Record access_info : Type := {
  i_update : Z;
  i_size : Z;
  i_pos : Z;
  b_eof : bool
}.

(** [struct access_sys_t]. *)
Record access_sys_t : Type := {
  i_nb_reads : Z;
  b_kfir : bool;
  filec : Z;
  filev : list Z;
  sizev : list Z;
  filep : Z;
  b_seekable : bool;
  b_pace_control : bool
}.

(** The part of [access_t] the module uses. *)
Record access_t : Type := {
  psz_access : string;
  psz_path : string;
  psz_homedir : string;
  info : access_info;
  p_sys : access_sys_t
}.

Definition set_info (f : access_info -> access_info) (a : access_t) : access_t :=
  {| psz_access := psz_access a; psz_path := psz_path a;
     psz_homedir := psz_homedir a; info := f (info a); p_sys := p_sys a |}.

Definition set_sys (f : access_sys_t -> access_sys_t) (a : access_t) : access_t :=
  {| psz_access := psz_access a; psz_path := psz_path a;
     psz_homedir := psz_homedir a; info := info a; p_sys := f (p_sys a) |}.

Definition with_i_update (v : Z) (i : access_info) : access_info :=
  {| i_update := v; i_size := i_size i; i_pos := i_pos i; b_eof := b_eof i |}.
Definition with_i_size (v : Z) (i : access_info) : access_info :=
  {| i_update := i_update i; i_size := v; i_pos := i_pos i; b_eof := b_eof i |}.
Definition with_i_pos (v : Z) (i : access_info) : access_info :=
  {| i_update := i_update i; i_size := i_size i; i_pos := v; b_eof := b_eof i |}.
Definition with_b_eof (v : bool) (i : access_info) : access_info :=
  {| i_update := i_update i; i_size := i_size i; i_pos := i_pos i; b_eof := v |}.

Definition with_i_nb_reads (v : Z) (s : access_sys_t) : access_sys_t :=
  {| i_nb_reads := v; b_kfir := b_kfir s; filec := filec s; filev := filev s;
     sizev := sizev s; filep := filep s; b_seekable := b_seekable s;
     b_pace_control := b_pace_control s |}.
Definition with_filec (v : Z) (s : access_sys_t) : access_sys_t :=
  {| i_nb_reads := i_nb_reads s; b_kfir := b_kfir s; filec := v; filev := filev s;
     sizev := sizev s; filep := filep s; b_seekable := b_seekable s;
     b_pace_control := b_pace_control s |}.
Definition with_filev (v : list Z) (s : access_sys_t) : access_sys_t :=
  {| i_nb_reads := i_nb_reads s; b_kfir := b_kfir s; filec := filec s; filev := v;
     sizev := sizev s; filep := filep s; b_seekable := b_seekable s;
     b_pace_control := b_pace_control s |}.
Definition with_sizev (v : list Z) (s : access_sys_t) : access_sys_t :=
  {| i_nb_reads := i_nb_reads s; b_kfir := b_kfir s; filec := filec s; filev := filev s;
     sizev := v; filep := filep s; b_seekable := b_seekable s;
     b_pace_control := b_pace_control s |}.
Definition with_filep (v : Z) (s : access_sys_t) : access_sys_t :=
  {| i_nb_reads := i_nb_reads s; b_kfir := b_kfir s; filec := filec s; filev := filev s;
     sizev := sizev s; filep := v; b_seekable := b_seekable s;
     b_pace_control := b_pace_control s |}.
Definition with_b_seekable (v : bool) (s : access_sys_t) : access_sys_t :=
  {| i_nb_reads := i_nb_reads s; b_kfir := b_kfir s; filec := filec s; filev := filev s;
     sizev := sizev s; filep := filep s; b_seekable := v;
     b_pace_control := b_pace_control s |}.

(** How a call of the module ends. *)
Inductive outcome (A : Type) : Type :=
| Done (a : A)
| AssertFailed          (* an [assert] aborted the process *)
| OutOfBounds           (* an array was indexed outside its allocation *)
| StillWaiting          (* a wait loop had not ended when the fuel ran out *)
| OutOfFuel.            (* the recursion bound of the model was too small *)
Arguments Done {A} a.
Arguments AssertFailed {A}.
Arguments OutOfBounds {A}.
Arguments StillWaiting {A}.
Arguments OutOfFuel {A}.

Definition bind_outcome {A B : Type} (c : outcome A) (k : A -> outcome B) : outcome B :=
  match c with
  | Done a => k a
  | AssertFailed => AssertFailed
  | OutOfBounds => OutOfBounds
  | StillWaiting => StillWaiting
  | OutOfFuel => OutOfFuel
  end.

#[export] Instance outcome_bind : MBind outcome := fun A B k c => bind_outcome c k.
#[export] Instance outcome_ret : MRet outcome := fun A a => Done a.

(** ** Strings of the C library *)

Definition tolower (c : ascii) : ascii :=
  let n := nat_of_ascii c in
  if ((65 <=? n) && (n <=? 90))%nat then ascii_of_nat (n + 32) else c.

(** [strcasecmp (a, b) == 0]. *)
Fixpoint strcasecmp_eq (a b : string) : bool :=
  match a, b with
  | EmptyString, EmptyString => true
  | String x a', String y b' => Ascii.eqb (tolower x) (tolower y) && strcasecmp_eq a' b'
  | _, _ => false
  end.

(** [strchr (s, ',')] followed by [ptr++]: what follows the first comma,
    [None] when there is no comma. *)
Fixpoint after_comma (s : string) : option string :=
  match s with
  | EmptyString => None
  | String c rest => if Ascii.eqb c "," then Some rest else after_comma rest
  end.

(** The string left at [s] once its first comma is overwritten with 0. *)
Fixpoint before_comma (s : string) : string :=
  match s with
  | EmptyString => EmptyString
  | String c rest => if Ascii.eqb c "," then EmptyString else String c (before_comma rest)
  end.

(** [for (ptr = catlist; ptr != NULL; filec++) { ptr = strchr (ptr, ','); if (ptr) ptr++; }]. *)
Fixpoint count_files (fuel : nat) (ptr : option string) (n : Z) : Z :=
  match fuel, ptr with
  | S fuel', Some s => count_files fuel' (after_comma s) (n + 1)
  | _, _ => n
  end.

(** [expand_path], POSIX branch. *)
Definition expand_path (homedir path : string) : string :=
  if String.prefix "~/" path
  then (homedir ++ "/" ++ String.substring 2 (String.length path - 2) path)%string
  else path.

(** ** The outside of the module *)

(** The calls file.c makes to the C library and the kernel, over a world
    [W], and the macros it takes from the headers of the host, which are
    not part of the file. *)
Class Platform (W : Type) : Type := {
  sys_open : string -> W -> Z * W;          (* open (path, O_NONBLOCK): fd or -1 *)
  sys_dup : Z -> W -> Z * W;                (* dup (fd): fd or -1 *)
  sys_close : Z -> W -> W;
  sys_fstat : Z -> W -> option stat;        (* None: fstat returned non-zero *)
  sys_read : Z -> Z -> W -> read_result * W;
  sys_poll : Z -> Z -> W -> Z * W;          (* poll (&ufd, 1, timeout) *)
  sys_lseek : Z -> Z -> W -> W;             (* lseek (fd, off, SEEK_SET), result dropped *)
  sys_msleep : Z -> W -> W;
  sys_die : W -> bool;                      (* p_access->b_die, set by another thread *)
  sys_alloc : W -> bool * W;                (* malloc, calloc; false: NULL *)
  ToLocale : string -> W -> bool;           (* false: ToLocale returned NULL *)
  INPUT_ERROR_SLEEP : Z;
  INPUT_FSTAT_NB_READS : Z;
  INPUT_UPDATE_SIZE : Z
}.

Section FileAccess.

Context {W : Type} `{Platform W}.

(** The access object, the world and the trace of calls, oldest first. *)
Record machine : Type := {
  acc : access_t;
  world : W;
  trace : list event
}.

Definition set_acc (f : access_t -> access_t) (m : machine) : machine :=
  {| acc := f (acc m); world := world m; trace := trace m |}.
Definition set_world (w : W) (m : machine) : machine :=
  {| acc := acc m; world := w; trace := trace m |}.
Definition emit (e : event) (m : machine) : machine :=
  {| acc := acc m; world := world m; trace := trace m ++ [e] |}.

Definition sys (m : machine) : access_sys_t := p_sys (acc m).
Definition inf (m : machine) : access_info := info (acc m).

Definition msg_Dbg (msg : message) (m : machine) : machine := emit (EvDbg msg) m.
Definition msg_Warn (msg : message) (m : machine) : machine := emit (EvWarn msg) m.
Definition msg_Err (msg : message) (m : machine) : machine := emit (EvErr msg) m.
Definition intf_UserFatal (msg : message) (m : machine) : machine := emit (EvUserFatal msg) m.

Definition msleep (d : Z) (m : machine) : machine :=
  emit (EvMsleep d) (set_world (sys_msleep d (world m)) m).

Definition do_close (fd : Z) (m : machine) : machine :=
  emit (EvClose fd) (set_world (sys_close fd (world m)) m).

Definition do_lseek (fd off : Z) (m : machine) : machine :=
  emit (EvLseek fd off) (set_world (sys_lseek fd off (world m)) m).

Definition do_fstat (fd : Z) (m : machine) : option stat * machine :=
  let r := sys_fstat fd (world m) in (r, emit (EvFstat fd r) m).

Definition do_read (fd len : Z) (m : machine) : read_result * machine :=
  let '(r, w) := sys_read fd len (world m) in
  (r, emit (EvRead fd len (read_ret r)) (set_world w m)).

Definition do_poll (fd timeout : Z) (m : machine) : Z * machine :=
  let '(r, w) := sys_poll fd timeout (world m) in
  (r, emit (EvPoll fd r) (set_world w m)).

(** ** Seek *)

(** The loop of [Seek] that finds the file of a position:
    [while (i_pos > sizev[i]) { i_pos -= sizev[i++]; assert (i < filec); }].
    Gives the index and the offset inside that file. *)
Fixpoint seek_locate (fuel : nat) (s : access_sys_t) (i pos : Z) : outcome (Z * Z) :=
  match sizev s !! Z.to_nat i with
  | None => OutOfBounds
  | Some sz =>
      if sz <? pos then
        match fuel with
        | O => OutOfFuel
        | S fuel' =>
            let pos' := wrap_int64 (pos - sz) in
            let i' := wrap_uint (i + 1) in
            if i' <? filec s then seek_locate fuel' s i' pos' else AssertFailed
        end
      else Done (i, pos)
  end.

(** The first lines of [Seek]: the two tests look at the position the
    stream has, [info.i_pos], and give the position to seek to. *)
Definition seek_clamp (pos : Z) (m : machine) : Z * machine :=
  if i_size (inf m) <? i_pos (inf m) then
    let m1 := msg_Err MsgSeekingTooFar m in
    (i_size (inf m1), set_acc (set_info (with_i_pos (i_size (inf m1)))) m1)
  else if i_pos (inf m) <? 0 then
    let m1 := msg_Err MsgSeekingTooEarly m in
    (0, set_acc (set_info (with_i_pos 0)) m1)
  else (pos, m).

Definition Seek (pos : Z) (m : machine) : outcome (vlc_status * machine) :=
  let '(pos1, m1) := seek_clamp pos m in
  let m2 := set_acc (set_info (with_i_pos pos1)) m1 in
  let m3 := set_acc (set_info (with_b_eof false)) m2 in
  if 0 <? filec (sys m3) then
    match seek_locate (Z.to_nat (filec (sys m3))) (sys m3) 0 pos1 with
    | Done (i, off) =>
        let m4 := set_acc (set_sys (with_filep i)) m3 in
        match filev (sys m4) !! Z.to_nat i with
        | None => OutOfBounds
        | Some fd => Done (VLC_SUCCESS, do_lseek fd off m4)
        end
    | AssertFailed => AssertFailed
    | OutOfBounds => OutOfBounds
    | StillWaiting => StillWaiting
    | OutOfFuel => OutOfFuel
    end
  else AssertFailed.

(** ** Read *)

(** The wait of the polled strategy:
    [do { if (b_die) return 0; i_ret = poll (&ufd, 1, 500); } while (i_ret <= 0);].
    [false] stands for the [return 0] inside the loop. *)
Fixpoint poll_wait (fuel : nat) (fd : Z) (m : machine) : outcome (bool * machine) :=
  match fuel with
  | O => StillWaiting
  | S fuel' =>
      if sys_die (world m) then Done (false, m)
      else
        let '(r, m1) := do_poll fd 500 m in
        if r <=? 0 then poll_wait fuel' fd m1 else Done (true, m1)
  end.

(** The loop of the kfir strategy:
    [while (((i_ret = read (fd, p_buffer, i_len)) == 0) && !b_die) msleep (...);]. *)
Fixpoint kfir_read (fuel : nat) (fd len : Z) (m : machine) : outcome (read_result * machine) :=
  match fuel with
  | O => StillWaiting
  | S fuel' =>
      let '(r, m1) := do_read fd len m in
      if (read_ret r =? 0) && negb (sys_die (world m1)) then
        kfir_read fuel' fd len (msleep INPUT_ERROR_SLEEP m1)
      else Done (r, m1)
  end.

(** The three ways [Read] gets its bytes.  [None]: the polled strategy
    saw [b_die] and [Read] returns 0 at once. *)
Definition read_strategy (fuel : nat) (fd len : Z) (m : machine)
  : outcome (option read_result * machine) :=
  if negb (b_pace_control (sys m)) then
    if negb (b_kfir (sys m)) then
      '(ready, m1) ← poll_wait fuel fd m;
      if ready : bool then
        let '(r, m2) := do_read fd len m1 in Done (Some r, m2)
      else Done (None, m1)
    else
      '(r, m1) ← kfir_read fuel fd len m;
      Done (Some r, m1)
  else
    let '(r, m1) := do_read fd len m in Done (Some r, m1).

(** [if (i_ret < 0) { switch (errno) ... msleep (INPUT_ERROR_SLEEP); }]. *)
Definition after_failed_read (r : read_result) (m : machine) : machine :=
  match r with
  | RdBytes _ => m
  | RdErr e =>
      let m1 :=
        match e with
        | EINTR | EAGAIN => m
        | _ => intf_UserFatal (MsgReadFailed e) (msg_Err (MsgReadFailed e) m)
        end in
      msleep INPUT_ERROR_SLEEP m1
  end.

(** [p_sys->i_nb_reads++]. *)
Definition count_read (m : machine) : machine :=
  set_acc (set_sys (with_i_nb_reads (wrap_uint (i_nb_reads (sys m) + 1)))) m.

(** The periodic look at the size of the current file. *)
Definition track_size (fd : Z) (m : machine) : outcome machine :=
  if negb (i_size (inf m) =? 0)
     && (i_nb_reads (sys m) mod INPUT_FSTAT_NB_READS =? 0) then
    let i := filep (sys m) in
    let '(r, m1) := do_fstat fd m in
    match r with
    | None => Done m1
    | Some st =>
        match sizev (sys m1) !! Z.to_nat i with
        | None => OutOfBounds
        | Some old =>
            if old =? st_size st then Done m1
            else
              let delta := wrap_int64 (st_size st - old) in
              let m2 := set_acc (set_info (with_i_size (wrap_int64 (i_size (inf m1) + delta)))) m1 in
              let m3 := set_acc (set_sys (with_sizev (<[Z.to_nat i := st_size st]> (sizev (sys m2))))) m2 in
              Done (set_acc (set_info (with_i_update (Z.lor (i_update (inf m3)) INPUT_UPDATE_SIZE))) m3)
        end
    end
  else Done m.

(** The last lines of [Read]: position or end-of-file flag, and the value
    returned with the bytes left in the buffer. *)
Definition finish_read (r : read_result) (m : machine) : Z * list Byte.byte * machine :=
  let i_ret := read_ret r in
  let m1 :=
    if 0 <? i_ret then set_acc (set_info (with_i_pos (wrap_int64 (i_pos (inf m) + i_ret)))) m
    else if i_ret =? 0 then set_acc (set_info (with_b_eof true)) m
    else m in
  (i_ret, read_data r, m1).

(** The end of [Read], from the comment "If we reached an EOF then switch
    to the next file in the list" on: [again] stands for the call of
    [Read] on the next file. *)
Definition read_tail (again : machine -> outcome (Z * list Byte.byte * machine))
    (r : read_result) (m : machine) : outcome (Z * list Byte.byte * machine) :=
  if read_ret r =? 0 then
    let m5 := set_acc (set_sys (with_filep (wrap_uint (filep (sys m) + 1)))) m in
    if filep (sys m5) <? filec (sys m5) then again m5
    else
      Done (finish_read r
              (set_acc (set_sys (with_filep (wrap_uint (filep (sys m5) - 1)))) m5))
  else Done (finish_read r m).

(** [Read] calls itself when a file gives no byte and another follows;
    [depth] bounds these calls, [fuel] the turns of each wait loop. *)
Fixpoint Read_rec (depth fuel : nat) (len : Z) (m : machine)
  : outcome (Z * list Byte.byte * machine) :=
  match depth with
  | O => OutOfFuel
  | S depth' =>
      match filev (sys m) !! Z.to_nat (filep (sys m)) with
      | None => OutOfBounds
      | Some fd =>
          '(got, m1) ← read_strategy fuel fd len m;
          match got with
          | None => Done (0, [], m1)
          | Some r =>
              let m2 := after_failed_read r m1 in
              let m3 := count_read m2 in
              m4 ← track_size fd m3;
              read_tail (Read_rec depth' fuel len) r m4
          end
      end
  end.

(** One call per file from the current one to the last is enough. *)
Definition Read (fuel : nat) (len : Z) (m : machine)
  : outcome (Z * list Byte.byte * machine) :=
  Read_rec (S (Z.to_nat (filec (sys m) - filep (sys m)))) fuel len m.

(** ** Close *)

(** [for (unsigned i = 0; i < p_sys->filec; i++) close (p_sys->filev[i]);]. *)
Fixpoint close_files (n : nat) (i : Z) (m : machine) : outcome machine :=
  match n with
  | O => Done m
  | S n' =>
      match filev (sys m) !! Z.to_nat i with
      | None => OutOfBounds
      | Some fd => close_files n' (i + 1) (do_close fd m)
      end
  end.

Definition Close (m : machine) : outcome machine :=
  close_files (Z.to_nat (filec (sys m))) 0 m.

(** ** Open *)

Definition open_file (psz_name : string) (m : machine) : Z * machine :=
  let path := expand_path (psz_homedir (acc m)) psz_name in
  if ToLocale path (world m) then
    let '(fd, w) := sys_open path (world m) in
    let m1 := emit (EvOpen path fd) (set_world w m) in
    if fd =? -1 then
      (-1, intf_UserFatal (MsgCannotOpen psz_name) (msg_Err (MsgCannotOpen psz_name) m1))
    else (fd, m1)
  else (-1, msg_Err (MsgIncorrectFileName psz_name) m).

Definition do_dup (oldfd : Z) (m : machine) : Z * machine :=
  let '(fd, w) := sys_dup oldfd (world m) in
  (fd, emit (EvDup oldfd fd) (set_world w m)).

(** [while (fd != -1) { if (fstat (fd, &st)) ...; else if (S_ISDIR (...)) ...;
    else break; close (fd); fd = -1; }]: [None] stands for [fd == -1]. *)
Definition probe_fd (fd : Z) (m : machine) : option (Z * stat) * machine :=
  if fd =? -1 then (None, m)
  else
    let '(r, m1) := do_fstat fd m in
    match r with
    | None => (None, do_close fd (msg_Err (MsgFstatFailed fd) m1))
    | Some st =>
        if S_ISDIR (st_mode st) then (None, do_close fd (msg_Dbg MsgIsDirectory m1))
        else (Some (fd, st), m1)
    end.

(** The test that clears [b_seekable]. *)
Definition unseekable_stat (st : stat) : bool :=
  negb (S_ISREG (st_mode st)) && negb (S_ISBLK (st_mode st))
  && (negb (S_ISCHR (st_mode st)) || (st_size st =? 0)).

(** The body of the loop of [Open] once the descriptor is there. *)
Definition record_file (i fd : Z) (st : stat) (m : machine) : outcome machine :=
  if (Z.to_nat i <? length (filev (sys m)))%nat && (Z.to_nat i <? length (sizev (sys m)))%nat then
    let m1 := set_acc (set_sys (with_filev (<[Z.to_nat i := fd]> (filev (sys m))))) m in
    let m2 := set_acc (set_sys (with_sizev (<[Z.to_nat i := st_size st]> (sizev (sys m1))))) m1 in
    let m3 := set_acc (set_info (with_i_size (wrap_int64 (i_size (inf m2) + st_size st)))) m2 in
    if unseekable_stat st then Done (set_acc (set_sys (with_b_seekable false)) m3)
    else Done m3
  else OutOfBounds.

(** The top of the body of the loop of [Open]: the descriptor of file
    [i], and where the names of the next files start. *)
Definition acquire_fd (i : Z) (filename : option string) (b_stdin : bool) (m : machine)
  : outcome (Z * option string * machine) :=
  if i =? 0 then
    let m0 := msg_Dbg (MsgOpening (psz_path (acc m))) m in
    let '(fd, m1) := if b_stdin then do_dup 0 m0
                     else open_file (psz_path (acc m0)) m0 in
    Done (fd, filename, m1)
  else
    match filename with
    | None => OutOfBounds
    | Some s =>
        let name := before_comma s in
        let m0 := msg_Dbg (MsgOpeningAdditional name) m in
        let '(fd, m1) := open_file name m0 in
        Done (fd, after_comma s, m1)
    end.

(** [for (unsigned i = 0; i < p_sys->filec; i++) { ... }], [n] turns left.
    A turn that fails closes what is open and returns [VLC_EGENERIC]. *)
Fixpoint open_files (n : nat) (i : Z) (filename : option string) (b_stdin : bool)
    (m : machine) : outcome (vlc_status * machine) :=
  match n with
  | O => Done (VLC_SUCCESS, m)
  | S n' =>
      '(fd, filename', m1) ← acquire_fd i filename b_stdin m;
      let '(probed, m2) := probe_fd fd m1 in
      match probed with
      | None =>
          m3 ← Close (set_acc (set_sys (with_filec i)) m2);
          Done (VLC_EGENERIC, m3)
      | Some (fd', st) =>
          m3 ← record_file i fd' st m2;
          open_files n' (wrap_uint (i + 1)) filename' b_stdin m3
      end
  end.

(** Modelled from the spec: the macro STANDARD_READ_ACCESS_INIT comes from
    a header of the host that is not part of the file.  The stream starts
    at position 0 with no end of file seen, and its logical size is the sum
    of the sizes found at open time, so it starts at 0. *)
Definition initial_info : access_info :=
  {| i_update := 0; i_size := 0; i_pos := 0; b_eof := false |}.

(** What the lines after the macro store in [p_sys]. *)
Definition initial_sys (access : string) : access_sys_t :=
  let stream := strcasecmp_eq access "stream" in
  let kfir := strcasecmp_eq access "kfir" in
  {| i_nb_reads := 0;
     b_kfir := negb stream && kfir;
     filec := 1;
     filev := [];
     sizev := [];
     filep := 0;
     b_seekable := negb stream && negb kfir;
     b_pace_control := negb stream && negb kfir |}.

Definition do_alloc (m : machine) : bool * machine :=
  let '(ok, w) := sys_alloc (world m) in (ok, set_world w m).

(** [file_cat] is the value of the "file-cat" variable, [None] when
    [var_CreateGetString] returns NULL. *)
Definition Open (file_cat : option string) (m : machine) : outcome (vlc_status * machine) :=
  let b_stdin := String.eqb (psz_path (acc m)) "-" in
  let '(ok, m0) := do_alloc m in
  if negb ok then Done (VLC_ENOMEM, m0)
  else
    let m1 := set_acc (fun a => set_sys (fun _ => initial_sys (psz_access a))
                                  (set_info (fun _ => initial_info) a)) m0 in
    match file_cat with
    | None => Done (VLC_ENOMEM, m1)
    | Some catlist =>
        let n := if String.eqb catlist "" then 1
                 else wrap_uint (count_files (S (String.length catlist)) (Some catlist) 1) in
        let m2 := set_acc (set_sys (with_filec n)) m1 in
        let '(ok1, m3) := do_alloc m2 in
        if negb ok1 then Done (VLC_ENOMEM, m3)
        else
          let m4 := set_acc (set_sys (with_filev (replicate (Z.to_nat n) 0))) m3 in
          let '(ok2, m5) := do_alloc m4 in
          if negb ok2 then Done (VLC_ENOMEM, m5)
          else
            let m6 := set_acc (set_sys (with_sizev (replicate (Z.to_nat n) 0))) m5 in
            '(st, m7) ← open_files (Z.to_nat n) 0 (Some catlist) b_stdin m6;
            match st with
            | VLC_SUCCESS =>
                if b_seekable (sys m7) && (i_size (inf m7) =? 0) then
                  m8 ← Close (msg_Err MsgFileIsEmpty m7);
                  Done (VLC_EGENERIC, m8)
                else Done (VLC_SUCCESS, m7)
            | _ => Done (st, m7)
            end
    end.

(** ** Control *)

Inductive access_query : Type :=
| ACCESS_CAN_SEEK | ACCESS_CAN_FASTSEEK | ACCESS_CAN_PAUSE | ACCESS_CAN_CONTROL_PACE
| ACCESS_GET_MTU | ACCESS_GET_PTS_DELAY | ACCESS_SET_PAUSE_STATE
| ACCESS_GET_TITLE_INFO | ACCESS_SET_TITLE | ACCESS_SET_SEEKPOINT
| ACCESS_SET_PRIVATE_ID_STATE | ACCESS_GET_META
| ACCESS_OTHER (q : Z).

(** What [Control] stores through the pointer it is given. *)
Inductive control_value : Type :=
| CtlBool (b : bool)
| CtlInt (z : Z)
| CtlInt64 (z : Z)
| CtlNothing.

(** [file_caching] is the value of the "file-caching" variable. *)
Definition Control (file_caching : Z) (q : access_query) (m : machine)
  : vlc_status * control_value * machine :=
  match q with
  | ACCESS_CAN_SEEK | ACCESS_CAN_FASTSEEK => (VLC_SUCCESS, CtlBool (b_seekable (sys m)), m)
  | ACCESS_CAN_PAUSE | ACCESS_CAN_CONTROL_PACE =>
      (VLC_SUCCESS, CtlBool (b_pace_control (sys m)), m)
  | ACCESS_GET_MTU => (VLC_SUCCESS, CtlInt 0, m)
  | ACCESS_GET_PTS_DELAY => (VLC_SUCCESS, CtlInt64 (wrap_int64 (file_caching * 1000)), m)
  | ACCESS_SET_PAUSE_STATE => (VLC_SUCCESS, CtlNothing, m)
  | ACCESS_GET_TITLE_INFO | ACCESS_SET_TITLE | ACCESS_SET_SEEKPOINT
  | ACCESS_SET_PRIVATE_ID_STATE | ACCESS_GET_META => (VLC_EGENERIC, CtlNothing, m)
  | ACCESS_OTHER _ => (VLC_EGENERIC, CtlNothing, msg_Warn MsgUnimplementedQuery m)
  end.

End FileAccess.

Arguments machine W : clear implicits.

(** ** A simulated kernel

    An instance of [Platform] to run the module on: files with their
    bytes, a descriptor table, and a script for what does not follow from
    the bytes (failing calls, descriptors that are not ready, the moment
    [b_die] is set). *)

(** An open file.  [sf_script] holds the answers of the coming [read]
    calls that do not come from [sf_data] (an error, or no byte yet);
    [sf_polls] the answers of the coming [poll] calls. *)
Record sim_file : Type := {
  sf_type : file_type;
  sf_data : list Byte.byte;
  sf_off : Z;
  sf_script : list read_result;
  sf_polls : list Z;
  sf_fstat_fails : bool
}.

Record sim_world : Type := {
  sw_paths : list (string * sim_file);     (* what [open] finds *)
  sw_fds : list (option sim_file);         (* descriptor [n] is entry [n] *)
  sw_die_in : option nat;                  (* waits left before [b_die] is set *)
  sw_heap : option nat;                    (* allocations left before NULL *)
  sw_locale_ok : bool
}.

Definition sw_with_fds (fds : list (option sim_file)) (w : sim_world) : sim_world :=
  {| sw_paths := sw_paths w; sw_fds := fds; sw_die_in := sw_die_in w;
     sw_heap := sw_heap w; sw_locale_ok := sw_locale_ok w |}.

Definition sf_with_off (off : Z) (f : sim_file) : sim_file :=
  {| sf_type := sf_type f; sf_data := sf_data f; sf_off := off;
     sf_script := sf_script f; sf_polls := sf_polls f;
     sf_fstat_fails := sf_fstat_fails f |}.

Definition sf_with_script (s : list read_result) (f : sim_file) : sim_file :=
  {| sf_type := sf_type f; sf_data := sf_data f; sf_off := sf_off f;
     sf_script := s; sf_polls := sf_polls f;
     sf_fstat_fails := sf_fstat_fails f |}.

Definition sf_with_polls (p : list Z) (f : sim_file) : sim_file :=
  {| sf_type := sf_type f; sf_data := sf_data f; sf_off := sf_off f;
     sf_script := sf_script f; sf_polls := p;
     sf_fstat_fails := sf_fstat_fails f |}.

(** The open file behind a descriptor. *)
Definition sim_fd (fd : Z) (w : sim_world) : option sim_file :=
  if fd <? 0 then None else mjoin (sw_fds w !! Z.to_nat fd).

Definition sim_put (fd : Z) (f : sim_file) (w : sim_world) : sim_world :=
  sw_with_fds (<[Z.to_nat fd := Some f]> (sw_fds w)) w.

(** A wait (a poll that times out, a sleep) brings [b_die] closer. *)
Definition sim_tick (w : sim_world) : sim_world :=
  {| sw_paths := sw_paths w; sw_fds := sw_fds w;
     sw_die_in := pred <$> sw_die_in w;
     sw_heap := sw_heap w; sw_locale_ok := sw_locale_ok w |}.

Fixpoint sim_lookup (path : string) (l : list (string * sim_file)) : option sim_file :=
  match l with
  | [] => None
  | (p, f) :: l' => if String.eqb p path then Some f else sim_lookup path l'
  end.

Definition sim_open (path : string) (w : sim_world) : Z * sim_world :=
  match sim_lookup path (sw_paths w) with
  | None => (-1, w)
  | Some f => (Z.of_nat (length (sw_fds w)), sw_with_fds (sw_fds w ++ [Some f]) w)
  end.

Definition sim_dup (oldfd : Z) (w : sim_world) : Z * sim_world :=
  match sim_fd oldfd w with
  | None => (-1, w)
  | Some f => (Z.of_nat (length (sw_fds w)), sw_with_fds (sw_fds w ++ [Some f]) w)
  end.

Definition sim_close (fd : Z) (w : sim_world) : sim_world :=
  if fd <? 0 then w else sw_with_fds (<[Z.to_nat fd := None]> (sw_fds w)) w.

Definition sim_fstat (fd : Z) (w : sim_world) : option stat :=
  match sim_fd fd w with
  | None => None
  | Some f =>
      if sf_fstat_fails f then None
      else Some {| st_mode := sf_type f; st_size := Z.of_nat (length (sf_data f)) |}
  end.

(** [read]: a scripted answer when there is one, else up to [len] bytes
    of the file from the offset of the descriptor, which moves on. *)
Definition sim_read (fd len : Z) (w : sim_world) : read_result * sim_world :=
  match sim_fd fd w with
  | None => (RdErr EBADF, w)
  | Some f =>
      match sf_script f with
      | r :: rest => (r, sim_put fd (sf_with_script rest f) w)
      | [] =>
          let bs := take (Z.to_nat len) (drop (Z.to_nat (sf_off f)) (sf_data f)) in
          (RdBytes bs, sim_put fd (sf_with_off (sf_off f + Z.of_nat (length bs)) f) w)
      end
  end.

Definition sim_poll (fd timeout : Z) (w : sim_world) : Z * sim_world :=
  match sim_fd fd w with
  | None => (1, w)
  | Some f =>
      match sf_polls f with
      | r :: rest =>
          let w1 := sim_put fd (sf_with_polls rest f) w in
          (r, if r <=? 0 then sim_tick w1 else w1)
      | [] => (1, w)
      end
  end.

(** [lseek (fd, off, SEEK_SET)]: fails, and moves nothing, on a negative
    offset or on a pipe or socket. *)
Definition sim_lseek (fd off : Z) (w : sim_world) : sim_world :=
  match sim_fd fd w with
  | None => w
  | Some f =>
      match sf_type f with
      | S_IFIFO | S_IFSOCK => w
      | _ => if off <? 0 then w else sim_put fd (sf_with_off off f) w
      end
  end.

Definition sim_die (w : sim_world) : bool :=
  match sw_die_in w with
  | Some O => true
  | _ => false
  end.

Definition sim_alloc (w : sim_world) : bool * sim_world :=
  match sw_heap w with
  | None => (true, w)
  | Some O => (false, w)
  | Some (S n) =>
      (true, {| sw_paths := sw_paths w; sw_fds := sw_fds w; sw_die_in := sw_die_in w;
                sw_heap := Some n; sw_locale_ok := sw_locale_ok w |})
  end.

(** The three macros get the values of one build of the host; no theorem
    outside the runs on this kernel depends on them. *)
#[export] Instance sim_platform : Platform sim_world := {
  sys_open := sim_open;
  sys_dup := sim_dup;
  sys_close := sim_close;
  sys_fstat := sim_fstat;
  sys_read := sim_read;
  sys_poll := sim_poll;
  sys_lseek := sim_lseek;
  sys_msleep := fun _ w => sim_tick w;
  sys_die := sim_die;
  sys_alloc := sim_alloc;
  ToLocale := fun _ w => sw_locale_ok w;
  INPUT_ERROR_SLEEP := 100000;
  INPUT_FSTAT_NB_READS := 10;
  INPUT_UPDATE_SIZE := 1
}.

(** A regular file with the given bytes, as [open] returns it. *)
Definition regular (data : list Byte.byte) : sim_file :=
  {| sf_type := S_IFREG; sf_data := data; sf_off := 0;
     sf_script := []; sf_polls := []; sf_fstat_fails := false |}.

Definition bytes (s : string) : list Byte.byte := list_byte_of_string s.

(** A world with the given files and nothing open but the three standard
    descriptors. *)
Definition sim_boot (paths : list (string * sim_file)) : sim_world :=
  {| sw_paths := paths;
     sw_fds := [Some (regular []); Some (regular []); Some (regular [])];
     sw_die_in := None; sw_heap := None; sw_locale_ok := true |}.

Definition blank_access (access path : string) : access_t :=
  {| psz_access := access; psz_path := path; psz_homedir := "/home/user";
     info := initial_info; p_sys := initial_sys access |}.

Definition boot (access path : string) (paths : list (string * sim_file)) : machine sim_world :=
  {| acc := blank_access access path; world := sim_boot paths; trace := [] |}.

(** ** Notions the statements use *)

(** The sum of a size table. *)
Definition sum_sizes (l : list Z) : Z := foldr Z.add 0 l.

(** The size table and the descriptor table have [filec] entries, none
    of them negative, and [filec] is an [unsigned] that is not zero. *)
Definition tables_ok (s : access_sys_t) : Prop :=
  1 <= filec s < 2 ^ 32
  /\ length (sizev s) = Z.to_nat (filec s)
  /\ length (filev s) = Z.to_nat (filec s)
  /\ Forall (fun z => 0 <= z) (sizev s).

(** The last [read] of a trace: its descriptor and the value it returned. *)
Fixpoint last_read_from (found : option (Z * Z)) (tr : list event) : option (Z * Z) :=
  match tr with
  | [] => found
  | EvRead fd _ r :: tr' => last_read_from (Some (fd, r)) tr'
  | _ :: tr' => last_read_from found tr'
  end.

Definition last_read (tr : list event) : option (Z * Z) := last_read_from None tr.

(** What [Read] reports about a failing [read] before it sleeps. *)
Definition fatal_reports (e : errno) : list event :=
  match e with
  | EINTR | EAGAIN => []
  | _ => [EvErr (MsgReadFailed e); EvUserFatal (MsgReadFailed e)]
  end.

Definition transient (e : errno) : bool :=
  match e with
  | EINTR | EAGAIN => true
  | _ => false
  end.

(** The access names other than "stream" and "kfir": the standard mode. *)
Definition standard_mode (access : string) : bool :=
  negb (strcasecmp_eq access "stream") && negb (strcasecmp_eq access "kfir").

(** A regular file, a block device, or a character device with a size
    that is not zero. *)
Definition seekable_file (st : stat) : bool :=
  S_ISREG (st_mode st) || S_ISBLK (st_mode st)
  || (S_ISCHR (st_mode st) && negb (st_size st =? 0)).

(** The descriptors and stats of the [fstat] calls of a trace that succeeded. *)
Definition fstat_ok (e : event) : option (Z * stat) :=
  match e with
  | EvFstat fd (Some st) => Some (fd, st)
  | _ => None
  end.

Definition fstat_oks (tr : list event) : list (Z * stat) := omap fstat_ok tr.

(** The descriptors a trace obtained from [open] or [dup]. *)
Definition opened_fd (e : event) : option Z :=
  match e with
  | EvOpen _ fd | EvDup _ fd => if fd =? -1 then None else Some fd
  | _ => None
  end.

Definition fds_opened (tr : list event) : list Z := omap opened_fd tr.

(** The descriptors a trace gave to [close]. *)
Definition closed_fd (e : event) : option Z :=
  match e with
  | EvClose fd => Some fd
  | _ => None
  end.

Definition fds_closed (tr : list event) : list Z := omap closed_fd tr.

(** A path could not be opened: [open] or [dup] returned -1, or the name
    could not be converted to the locale. *)
Definition open_refused (e : event) : bool :=
  match e with
  | EvOpen _ fd | EvDup _ fd => fd =? -1
  | EvErr (MsgIncorrectFileName _) => true
  | _ => false
  end.

(** [fstat] failed on a descriptor. *)
Definition fstat_refused (e : event) : bool :=
  match e with
  | EvFstat _ None => true
  | _ => false
  end.

(** [fstat] found a directory. *)
Definition found_directory (e : event) : bool :=
  match e with
  | EvFstat _ (Some st) => S_ISDIR (st_mode st)
  | _ => false
  end.

Definition open_fault (e : event) : bool :=
  open_refused e || fstat_refused e || found_directory e.

(** The logical size [Open] accumulates, file after file. *)
Definition add_sizes (start : Z) (l : list stat) : Z :=
  foldl (fun a st => wrap_int64 (a + st_size st)) start l.

(** The number of files [Open] is asked for: the path and the entries of
    the comma-separated list. *)
Definition files_asked (catlist : string) : Z :=
  if String.eqb catlist "" then 1
  else wrap_uint (count_files (S (String.length catlist)) (Some catlist) 1).

Definition is_lseek (e : event) : bool :=
  match e with
  | EvLseek _ _ => true
  | _ => false
  end.

(** The list [filename] points to holds at least [k] more names. *)
Fixpoint names_left (filename : option string) (k : nat) : Prop :=
  match k, filename with
  | O, _ => True
  | S k', Some s => names_left (after_comma s) k'
  | S _, None => False
  end.

(** ** Streams on the simulated kernel *)

(** The bytes of the stream: those of its files, one after the other. *)
Definition stream_bytes (files : list sim_file) : list Byte.byte :=
  concat (map sf_data files).

(** A file [lseek] works on, with no scripted answer pending. *)
Definition plain_file (f : sim_file) : Prop :=
  sf_script f = [] /\ sf_type f <> S_IFIFO /\ sf_type f <> S_IFSOCK.

(** The descriptors of the stream are open on [files], and the size
    table holds the sizes of these files. *)
Definition stream_on (m : machine sim_world) (files : list sim_file) : Prop :=
  Forall2 (fun fd f => sim_fd fd (world m) = Some f /\ plain_file f) (filev (sys m)) files
  /\ sizev (sys m) = map (fun f => Z.of_nat (length (sf_data f))) files.

(** [count] calls of [Read] in a row: what each returned, and the state
    after the last. *)
Fixpoint reads (count fuel : nat) (len : Z) (m : machine sim_world)
  : outcome (list (Z * list Byte.byte) * machine sim_world) :=
  match count with
  | O => Done ([], m)
  | S count' =>
      '(ret, bs, m1) ← Read fuel len m;
      '(rest, m2) ← reads count' fuel len m1;
      Done ((ret, bs) :: rest, m2)
  end.

(** The machine a call leaves, when it returns. *)
Definition after {A : Type} (start : machine sim_world)
    (c : outcome (A * machine sim_world)) : machine sim_world :=
  match c with
  | Done (_, m) => m
  | _ => start
  end.

(** The value a call returned. *)
Definition returned {A B : Type} (c : outcome (A * B)) : option A :=
  match c with
  | Done (a, _) => Some a
  | _ => None
  end.

(** Two regular files, "abc" and "defgh". *)
Definition two_files : list (string * sim_file) :=
  [("a"%string, regular (bytes "abc")); ("b"%string, regular (bytes "defgh"))].

(** The stream of the two files, just opened in the standard mode. *)
Definition two_opened : machine sim_world :=
  Eval vm_compute in
    after (boot "file" "a" two_files) (Open (Some "b"%string) (boot "file" "a" two_files)).

(** The same stream after one [Read]: "abc" is read, the current file is
    still the first. *)
Definition two_after_first : machine sim_world :=
  Eval vm_compute in after two_opened (Read 1 8 two_opened).

(** After two calls: all eight bytes are read, no end of file was seen. *)
Definition two_after_second : machine sim_world :=
  Eval vm_compute in after two_after_first (Read 1 8 two_after_first).

(** After three calls: the end of the stream was reported. *)
Definition two_read_through : machine sim_world :=
  Eval vm_compute in after two_after_second (Read 1 8 two_after_second).

(** A regular file "abc" whose next [read] fails with [e]. *)
Definition failing (e : errno) : sim_file :=
  {| sf_type := S_IFREG; sf_data := bytes "abc"; sf_off := 0;
     sf_script := [RdErr e]; sf_polls := []; sf_fstat_fails := false |}.

(** The stream of that one file, opened in the standard mode. *)
Definition failing_opened (e : errno) : machine sim_world :=
  after (boot "file" "a" [("a"%string, failing e)])
    (Open (Some ""%string) (boot "file" "a" [("a"%string, failing e)])).

(** A regular file "abc" on which [fstat] fails. *)
Definition unprobed : sim_file :=
  {| sf_type := S_IFREG; sf_data := bytes "abc"; sf_off := 0;
     sf_script := []; sf_polls := []; sf_fstat_fails := true |}.

(** An empty file opened as "stream", to which 20 bytes are then
    written from outside. *)
Definition growing_booted : machine sim_world :=
  boot "stream" "log" [("log"%string, regular [])].

Definition sim_write (fd : Z) (bs : list Byte.byte) (w : sim_world) : sim_world :=
  match sim_fd fd w with
  | None => w
  | Some f =>
      sim_put fd {| sf_type := sf_type f; sf_data := sf_data f ++ bs; sf_off := sf_off f;
                    sf_script := sf_script f; sf_polls := sf_polls f;
                    sf_fstat_fails := sf_fstat_fails f |} w
  end.

Definition growing_opened : machine sim_world :=
  Eval vm_compute in
    let m := after growing_booted (Open (Some ""%string) growing_booted) in
    set_world (sim_write 3 (bytes "01234567890123456789") (world m)) m.

(** The growing stream after nine calls of [Read] for one byte. *)
Definition growing_nine : machine sim_world :=
  Eval vm_compute in after growing_opened (reads 9 1 1 growing_opened).

(** Two files opened as "kfir": the first has no byte to give, the
    second holds "x"; [b_die] is set. *)
Definition kfir_files : list (string * sim_file) :=
  [("dev0"%string,
    {| sf_type := S_IFCHR; sf_data := []; sf_off := 0;
       sf_script := [RdBytes []]; sf_polls := []; sf_fstat_fails := false |});
   ("dev1"%string, regular (bytes "x"))].

Definition kfir_dying : machine sim_world :=
  Eval vm_compute in
    let m := after (boot "kfir" "dev0" kfir_files)
               (Open (Some "dev1"%string) (boot "kfir" "dev0" kfir_files)) in
    set_world {| sw_paths := sw_paths (world m); sw_fds := sw_fds (world m);
                 sw_die_in := Some O; sw_heap := sw_heap (world m);
                 sw_locale_ok := sw_locale_ok (world m) |} m.

(** The same with the first file alone. *)
Definition kfir_dying_one : machine sim_world :=
  Eval vm_compute in
    let m := after (boot "kfir" "dev0" kfir_files)
               (Open (Some ""%string) (boot "kfir" "dev0" kfir_files)) in
    set_world {| sw_paths := sw_paths (world m); sw_fds := sw_fds (world m);
                 sw_die_in := Some O; sw_heap := sw_heap (world m);
                 sw_locale_ok := sw_locale_ok (world m) |} m.

(** The stream of one file after the [read] of its first [Read]. *)
Definition failing_after_read (e : errno) : machine sim_world :=
  after (failing_opened e) (read_strategy 1 3 8 (failing_opened e)).

(** Opening a directory. *)
Definition dir_booted : machine sim_world :=
  boot "file" "dir"
    [("dir"%string,
      {| sf_type := S_IFDIR; sf_data := []; sf_off := 0;
         sf_script := []; sf_polls := []; sf_fstat_fails := false |})].

Definition dir_failed : machine sim_world :=
  Eval vm_compute in after dir_booted (Open (Some ""%string) dir_booted).

(** The two-file stream with nine reads counted, after two bytes were
    written to its first file from outside. *)
Definition drift_start : machine sim_world :=
  Eval vm_compute in
    set_world (sim_write 3 (bytes "XY") (world two_opened))
      (set_acc (set_sys (with_i_nb_reads 9)) two_opened).

Definition drift_after_read : machine sim_world :=
  Eval vm_compute in after drift_start (read_strategy 1 3 8 drift_start).

(** The two-file stream after "abc" and "de" were read, [Seek] went back
    to 1 and "bc" was read: the first file is at its end, the descriptor
    of the second is at offset 2. *)
Definition two_stale : machine sim_world :=
  Eval vm_compute in
    let m1 := after two_opened (Read 1 8 two_opened) in
    let m2 := after m1 (Read 1 2 m1) in
    let m3 := after m2 (Seek 1 m2) in
    after m3 (Read 1 8 m3).

(** The fresh two-file stream after [Seek] to 0, and the stream that was
    read through after [Seek] to 3. *)
Definition two_seek_0 : machine sim_world :=
  Eval vm_compute in after two_opened (Seek 0 two_opened).

Definition two_seek_0_read : machine sim_world :=
  Eval vm_compute in after two_seek_0 (Read 1 8 two_seek_0).

Definition two_rewound : machine sim_world :=
  Eval vm_compute in after two_read_through (Seek 3 two_read_through).

Definition two_rewound_read : machine sim_world :=
  Eval vm_compute in after two_rewound (Read 1 8 two_rewound).

Definition two_seek_4 : machine sim_world :=
  Eval vm_compute in after two_opened (Seek 4 two_opened).

Definition two_seek_4_read : machine sim_world :=
  Eval vm_compute in after two_seek_4 (Read 1 8 two_seek_4).

Definition two_seek_minus : machine sim_world :=
  Eval vm_compute in after two_opened (Seek (-5) two_opened).

Definition two_stale_read : machine sim_world :=
  Eval vm_compute in after two_stale (Read 1 8 two_stale).

Definition kfir_dying_read : machine sim_world :=
  Eval vm_compute in after kfir_dying (Read 5 8 kfir_dying).

Definition kfir_dying_one_read : machine sim_world :=
  Eval vm_compute in after kfir_dying_one (Read 5 8 kfir_dying_one).

Definition growing_ten : machine sim_world :=
  Eval vm_compute in after growing_nine (Read 1 1 growing_nine).

Definition unprobed_booted : machine sim_world :=
  boot "stream" "a" [("a"%string, unprobed)].

Definition unprobed_failed : machine sim_world :=
  Eval vm_compute in after unprobed_booted (Open (Some ""%string) unprobed_booted).

Definition drift_read : machine sim_world :=
  Eval vm_compute in after drift_start (Read 1 8 drift_start).

(** A pipe next to a regular file, in the standard mode. *)
Definition with_pipe : list (string * sim_file) :=
  [("a"%string, regular (bytes "abc"));
   ("p"%string,
    {| sf_type := S_IFIFO; sf_data := bytes "xy"; sf_off := 0;
       sf_script := []; sf_polls := []; sf_fstat_fails := false |})].

Definition with_pipe_opened : machine sim_world :=
  Eval vm_compute in
    after (boot "file" "a" with_pipe) (Open (Some "p"%string) (boot "file" "a" with_pipe)).

(** The two regular files opened as "stream". *)
Definition two_streamed : machine sim_world :=
  Eval vm_compute in
    after (boot "Stream" "a" two_files) (Open (Some "b"%string) (boot "Stream" "a" two_files)).

(** ** Runs of Read *)

Section Runs.

Context {W : Type} `{Platform W}.

(** How a call of [Read] that returns went: stopped by [b_die] before
    any [read], gone on to the next file after a [read] without bytes,
    ended on the last file after such a [read], or ended with what the
    [read] gave (bytes or an error). *)
Inductive Read_run (fuel : nat) (len : Z)
  : machine W -> Z * list Byte.byte * machine W -> Prop :=
| run_stopped (m m1 : machine W) (fd : Z) :
    filev (sys m) !! Z.to_nat (filep (sys m)) = Some fd ->
    read_strategy fuel fd len m = Done (None, m1) ->
    Read_run fuel len m (0, [], m1)
| run_next (m m1 m4 : machine W) (fd : Z) (r : read_result)
    (res : Z * list Byte.byte * machine W) :
    filev (sys m) !! Z.to_nat (filep (sys m)) = Some fd ->
    read_strategy fuel fd len m = Done (Some r, m1) ->
    track_size fd (count_read (after_failed_read r m1)) = Done m4 ->
    read_ret r = 0 ->
    wrap_uint (filep (sys m4) + 1) < filec (sys m4) ->
    Read_run fuel len
      (set_acc (set_sys (with_filep (wrap_uint (filep (sys m4) + 1)))) m4) res ->
    Read_run fuel len m res
| run_last (m m1 m4 : machine W) (fd : Z) (r : read_result) :
    filev (sys m) !! Z.to_nat (filep (sys m)) = Some fd ->
    read_strategy fuel fd len m = Done (Some r, m1) ->
    track_size fd (count_read (after_failed_read r m1)) = Done m4 ->
    read_ret r = 0 ->
    filec (sys m4) <= wrap_uint (filep (sys m4) + 1) ->
    Read_run fuel len m
      (finish_read r
         (set_acc (set_sys (with_filep (wrap_uint (wrap_uint (filep (sys m4) + 1) - 1)))) m4))
| run_given (m m1 m4 : machine W) (fd : Z) (r : read_result) :
    filev (sys m) !! Z.to_nat (filep (sys m)) = Some fd ->
    read_strategy fuel fd len m = Done (Some r, m1) ->
    track_size fd (count_read (after_failed_read r m1)) = Done m4 ->
    read_ret r <> 0 ->
    Read_run fuel len m (finish_read r m4).

End Runs.

(** The calls [Read] may make to the outside: it polls, reads and looks
    at the size of descriptors of its table, sleeps and reports errors. *)
Definition read_event_on (fds : list Z) (e : event) : bool :=
  match e with
  | EvPoll fd _ | EvRead fd _ _ | EvFstat fd _ => existsb (Z.eqb fd) fds
  | EvMsleep _ | EvErr _ | EvUserFatal _ => true
  | _ => false
  end.

Definition is_read (e : event) : bool :=
  match e with
  | EvRead _ _ _ => true
  | _ => false
  end.

(** Every [read] of a trace comes straight after a [poll] of the same
    descriptor that found it ready; [prev] is the event before the trace. *)
Fixpoint reads_follow_polls (prev : option event) (tr : list event) : bool :=
  match tr with
  | [] => true
  | e :: tr' =>
      match e with
      | EvRead fd _ _ =>
          match prev with
          | Some (EvPoll fd' r) => (fd' =? fd) && (0 <? r)
          | _ => false
          end
      | _ => true
      end
      && reads_follow_polls (Some e) tr'
  end.

Definition is_fstat (e : event) : bool :=
  match e with
  | EvFstat _ _ => true
  | _ => false
  end.

(** A [read] that failed. *)
Definition is_failed_read (e : event) : bool :=
  match e with
  | EvRead _ _ r => r <? 0
  | _ => false
  end.

(** The logical size is the sum of the size table, in 64-bit arithmetic. *)
Definition sizes_agree (s : access_sys_t) (i : access_info) : Prop :=
  wrap_int64 (sum_sizes (sizev s)) = wrap_int64 (i_size i).

(** ** The names Open opens *)

(** The entries of a comma-separated list, in order. *)
Fixpoint split_commas (s : string) : list string :=
  match s with
  | EmptyString => [EmptyString]
  | String c rest =>
      if Ascii.eqb c ","
      then EmptyString :: split_commas rest
      else match split_commas rest with
           | seg :: segs => String c seg :: segs
           | [] => [String c EmptyString]
           end
  end.

(** The entries put back together with commas. *)
Fixpoint join_commas (l : list string) : string :=
  match l with
  | [] => EmptyString
  | [seg] => seg
  | seg :: rest => (seg ++ "," ++ join_commas rest)%string
  end.

(** The files of a stream: the path, then the entries of "file-cat". *)
Definition file_names (path catlist : string) : list string :=
  path :: (if String.eqb catlist "" then [] else split_commas catlist).

(** The paths a trace gave to [open], and the descriptors it gave to [dup]. *)
Definition opened_path (e : event) : option string :=
  match e with
  | EvOpen path _ => Some path
  | _ => None
  end.

Definition opened_paths (tr : list event) : list string := omap opened_path tr.

Definition dup_source (e : event) : option Z :=
  match e with
  | EvDup oldfd _ => Some oldfd
  | _ => None
  end.

Definition dup_sources (tr : list event) : list Z := omap dup_source tr.

(** What the loop of [Open] does not write to. *)
Definition loop_inert (a : access_t)
  : string * string * string * (Z * Z * bool) * (Z * bool * Z * Z * bool) :=
  (psz_access a, psz_path a, psz_homedir a,
   (i_update (info a), i_pos (info a), b_eof (info a)),
   (i_nb_reads (p_sys a), b_kfir (p_sys a), filec (p_sys a), filep (p_sys a),
    b_pace_control (p_sys a))).

(** ** More streams to run on *)

(** A file "abc" whose descriptor is not ready at the next two polls. *)
Definition slow_file : sim_file :=
  {| sf_type := S_IFREG; sf_data := bytes "abc"; sf_off := 0;
     sf_script := []; sf_polls := [0; 0]; sf_fstat_fails := false |}.

(** That file opened as "stream"; a stop is requested during the second
    wait. *)
Definition polled_stopping : machine sim_world :=
  Eval vm_compute in
    let m := after (boot "stream" "a" [("a"%string, slow_file)])
               (Open (Some ""%string) (boot "stream" "a" [("a"%string, slow_file)])) in
    set_world {| sw_paths := sw_paths (world m); sw_fds := sw_fds (world m);
                 sw_die_in := Some 2%nat; sw_heap := sw_heap (world m);
                 sw_locale_ok := sw_locale_ok (world m) |} m.

Definition polled_stopped : machine sim_world :=
  Eval vm_compute in after polled_stopping (Read 5 8 polled_stopping).

(** The two files on a host with memory for one allocation. *)
Definition starved : machine sim_world :=
  Eval vm_compute in
    let m := boot "file" "a" two_files in
    set_world {| sw_paths := sw_paths (world m); sw_fds := sw_fds (world m);
                 sw_die_in := sw_die_in (world m); sw_heap := Some 1%nat;
                 sw_locale_ok := sw_locale_ok (world m) |} m.

Definition starved_failed : machine sim_world :=
  Eval vm_compute in after starved (Open (Some "b"%string) starved).

(** Three files, two of them below the home directory. *)
Definition home_files : list (string * sim_file) :=
  [("/home/user/a"%string, regular (bytes "abc"));
   ("b"%string, regular (bytes "de"));
   ("/home/user/c"%string, regular (bytes "f"))].

Definition home_booted : machine sim_world := boot "file" "~/a" home_files.

Definition home_opened : machine sim_world :=
  Eval vm_compute in after home_booted (Open (Some "b,~/c"%string) home_booted).

Definition two_seek_3 : machine sim_world :=
  Eval vm_compute in after two_opened (Seek 3 two_opened).

Definition two_closed : machine sim_world :=
  Eval vm_compute in
    match Close two_opened with
    | Done m => m
    | _ => two_opened
    end.

(** ** Reading a stream through *)

(** A stream that is being read in the standard mode: the current file is
    inside the table, the descriptors are distinct and open on [files],
    plain files whose sizes the size table holds, at offsets that are not
    negative. *)
Definition reading (m : machine sim_world) (files : list sim_file) : Prop :=
  b_pace_control (sys m) = true
  /\ 0 <= filep (sys m) < filec (sys m)
  /\ filec (sys m) = Z.of_nat (length files)
  /\ filec (sys m) < 2 ^ 32
  /\ NoDup (filev (sys m))
  /\ stream_on m files
  /\ Forall (fun f => 0 <= sf_off f) files.

(** The bytes of a file from the offset of its descriptor on. *)
Definition unread_of (f : sim_file) : list Byte.byte :=
  drop (Z.to_nat (sf_off f)) (sf_data f).

(** The bytes the stream has not given yet: those of the current file
    from the offset of its descriptor, then those of the files after it. *)
Definition unread_from (j : nat) (files : list sim_file) : list Byte.byte :=
  concat (map unread_of (drop j files)).

Definition unread (m : machine sim_world) (files : list sim_file) : list Byte.byte :=
  unread_from (Z.to_nat (filep (sys m))) files.

(** The stream is in step with its position: the descriptor of the
    current file is at the offset of the position inside that file, those
    of the files after it are at their start, and the stream is shorter
    than 2^63 bytes. *)
Definition in_step (m : machine sim_world) (files : list sim_file) : Prop :=
  reading m files
  /\ Z.of_nat (length (stream_bytes files)) < 2 ^ 63
  /\ Forall (fun f => sf_off f = 0) (drop (S (Z.to_nat (filep (sys m)))) files)
  /\ exists f,
       files !! Z.to_nat (filep (sys m)) = Some f
       /\ sf_off f <= Z.of_nat (length (sf_data f))
       /\ i_pos (inf m)
          = Z.of_nat (length (stream_bytes (take (Z.to_nat (filep (sys m))) files)))
            + sf_off f.

(** Calls of [Read] in a row until one returns no byte: the bytes they
    gave, one after the other.  [count] bounds the number of calls. *)
Fixpoint read_to_end (count fuel : nat) (len : Z) (m : machine sim_world)
  : outcome (list Byte.byte * machine sim_world) :=
  match count with
  | O => OutOfFuel
  | S count' =>
      '(ret, bs, m1) ← Read fuel len m;
      if ret <=? 0 then Done ([], m1)
      else
        '(rest, m2) ← read_to_end count' fuel len m1;
        Done (bs ++ rest, m2)
  end.

Definition two_drained : machine sim_world :=
  Eval vm_compute in after two_opened (read_to_end 9 1 2 two_opened).

(** The slow file opened as "stream", with no stop in sight, and the
    stream after one call of [Read]. *)
Definition slow_opened : machine sim_world :=
  Eval vm_compute in
    after (boot "stream" "a" [("a"%string, slow_file)])
      (Open (Some ""%string) (boot "stream" "a" [("a"%string, slow_file)])).

Definition slow_read : machine sim_world :=
  Eval vm_compute in after slow_opened (Read 5 8 slow_opened).

(** An empty file, then a file whose [read] fails with EIO. *)
Definition hollow_failing : list (string * sim_file) :=
  [("a"%string, regular []); ("b"%string, failing EIO)].

Definition hollow_opened : machine sim_world :=
  Eval vm_compute in
    after (boot "file" "a" hollow_failing)
      (Open (Some "b"%string) (boot "file" "a" hollow_failing)).

Definition hollow_read : machine sim_world :=
  Eval vm_compute in after hollow_opened (Read 1 8 hollow_opened).

(** A device opened as "kfir" that has no byte to give at the first two
    [read] calls. *)
Definition kfir_slow_files : list (string * sim_file) :=
  [("dev0"%string,
    {| sf_type := S_IFCHR; sf_data := bytes "x"; sf_off := 0;
       sf_script := [RdBytes []; RdBytes []]; sf_polls := []; sf_fstat_fails := false |})].

Definition kfir_waiting : machine sim_world :=
  Eval vm_compute in
    after (boot "kfir" "dev0" kfir_slow_files)
      (Open (Some ""%string) (boot "kfir" "dev0" kfir_slow_files)).

Definition kfir_waited : machine sim_world :=
  Eval vm_compute in after kfir_waiting (Read 5 8 kfir_waiting).

(** The stream that was read through, after [Seek] to 4. *)
Definition two_rewound_4 : machine sim_world :=
  Eval vm_compute in after two_read_through (Seek 4 two_read_through).

Definition two_rewound_4_read : machine sim_world :=
  Eval vm_compute in after two_rewound_4 (Read 1 8 two_rewound_4).

(** * Properties *)

(** ** Reading a state that was written *)

Lemma sys_emit {W : Type} (e : event) (m : machine W) : sys (emit e m) = sys m.
Proof. reflexivity. Qed.
Lemma inf_emit {W : Type} (e : event) (m : machine W) : inf (emit e m) = inf m.
Proof. reflexivity. Qed.
Lemma world_emit {W : Type} (e : event) (m : machine W) : world (emit e m) = world m.
Proof. reflexivity. Qed.
Lemma trace_emit {W : Type} (e : event) (m : machine W) : trace (emit e m) = trace m ++ [e].
Proof. reflexivity. Qed.
Lemma sys_set_world {W : Type} (w : W) (m : machine W) : sys (set_world w m) = sys m.
Proof. reflexivity. Qed.
Lemma inf_set_world {W : Type} (w : W) (m : machine W) : inf (set_world w m) = inf m.
Proof. reflexivity. Qed.
Lemma world_set_world {W : Type} (w : W) (m : machine W) : world (set_world w m) = w.
Proof. reflexivity. Qed.
Lemma trace_set_world {W : Type} (w : W) (m : machine W) : trace (set_world w m) = trace m.
Proof. reflexivity. Qed.
Lemma sys_set_info {W : Type} (f : access_info -> access_info) (m : machine W) :
  sys (set_acc (set_info f) m) = sys m.
Proof. reflexivity. Qed.
Lemma inf_set_info {W : Type} (f : access_info -> access_info) (m : machine W) :
  inf (set_acc (set_info f) m) = f (inf m).
Proof. reflexivity. Qed.
Lemma sys_set_sys {W : Type} (f : access_sys_t -> access_sys_t) (m : machine W) :
  sys (set_acc (set_sys f) m) = f (sys m).
Proof. reflexivity. Qed.
Lemma inf_set_sys {W : Type} (f : access_sys_t -> access_sys_t) (m : machine W) :
  inf (set_acc (set_sys f) m) = inf m.
Proof. reflexivity. Qed.
Lemma world_set_acc {W : Type} (f : access_t -> access_t) (m : machine W) :
  world (set_acc f m) = world m.
Proof. reflexivity. Qed.
Lemma trace_set_acc {W : Type} (f : access_t -> access_t) (m : machine W) :
  trace (set_acc f m) = trace m.
Proof. reflexivity. Qed.

Lemma acc_emit {W : Type} (e : event) (m : machine W) : acc (emit e m) = acc m.
Proof. reflexivity. Qed.
Lemma acc_set_world {W : Type} (w : W) (m : machine W) : acc (set_world w m) = acc m.
Proof. reflexivity. Qed.
Lemma acc_set_acc {W : Type} (f : access_t -> access_t) (m : machine W) :
  acc (set_acc f m) = f (acc m).
Proof. reflexivity. Qed.
Lemma psz_access_set_sys (f : access_sys_t -> access_sys_t) (a : access_t) :
  psz_access (set_sys f a) = psz_access a.
Proof. reflexivity. Qed.
Lemma psz_access_set_info (f : access_info -> access_info) (a : access_t) :
  psz_access (set_info f a) = psz_access a.
Proof. reflexivity. Qed.

Create Rewrite HintDb state.
#[export] Hint Rewrite @sys_emit @inf_emit @world_emit @trace_emit
  @sys_set_world @inf_set_world @world_set_world @trace_set_world
  @sys_set_info @inf_set_info @sys_set_sys @inf_set_sys
  @world_set_acc @trace_set_acc @acc_emit @acc_set_world @acc_set_acc
  psz_access_set_sys psz_access_set_info : state.

Ltac st_simpl :=
  unfold msg_Dbg, msg_Warn, msg_Err, intf_UserFatal, msleep, do_close, do_lseek in *;
  autorewrite with state in *;
  cbn [with_i_update with_i_size with_i_pos with_b_eof with_i_nb_reads
       with_filec with_filev with_sizev with_filep with_b_seekable
       i_update i_size i_pos b_eof fst snd
       i_nb_reads b_kfir filec filev sizev filep b_seekable b_pace_control] in *.

(** [lia] with the sums of size tables taken as unknowns. *)
Ltac sums_lia :=
  repeat match goal with
  | |- context [sum_sizes ?l] =>
      let x := fresh "total" in set (x := sum_sizes l) in *; clearbody x
  | _ : context [sum_sizes ?l] |- _ =>
      let x := fresh "total" in set (x := sum_sizes l) in *; clearbody x
  end; lia.

Section Properties.

Context {W : Type} `{Platform W}.

(** ** Arithmetic and tables *)

Lemma wrap_int64_id (z : Z) : in_int64 z -> wrap_int64 z = z.
Proof.
  unfold in_int64, wrap_int64. intros Hz.
  rewrite Z.mod_small; lia.
Qed.

Lemma wrap_uint_id (z : Z) : in_uint z -> wrap_uint z = z.
Proof.
  unfold in_uint, wrap_uint. intros Hz. apply Z.mod_small. lia.
Qed.

Lemma sum_sizes_nonneg (l : list Z) :
  Forall (fun z => 0 <= z) l -> 0 <= sum_sizes l.
Proof.
  induction 1 as [|z l Hz _ IH]; simpl; lia.
Qed.

Lemma sum_sizes_app (l1 l2 : list Z) :
  sum_sizes (l1 ++ l2) = sum_sizes l1 + sum_sizes l2.
Proof.
  induction l1 as [|z l1 IH]; simpl; lia.
Qed.

Lemma sum_sizes_take_drop (n : nat) (l : list Z) :
  sum_sizes (take n l) + sum_sizes (drop n l) = sum_sizes l.
Proof.
  rewrite <- sum_sizes_app. now rewrite take_drop.
Qed.

Lemma sum_sizes_take_S (n : nat) (l : list Z) (z : Z) :
  l !! n = Some z -> sum_sizes (take (S n) l) = sum_sizes (take n l) + z.
Proof.
  intros Hn. rewrite (take_S_r _ _ _ Hn), sum_sizes_app. simpl. lia.
Qed.

(** ** Seek: the loop that finds the file *)

(** From an index inside the table and a position that the files from
    that index on can hold, the loop ends inside the table. *)
Lemma seek_locate_ok (fuel : nat) (s : access_sys_t) :
  tables_ok s ->
  forall (i pos : Z),
    0 <= i < filec s ->
    (Z.to_nat (filec s - i) <= fuel)%nat ->
    0 <= pos <= sum_sizes (drop (Z.to_nat i) (sizev s)) ->
    pos < 2 ^ 63 ->
    exists j off sz,
      seek_locate fuel s i pos = Done (j, off)
      /\ i <= j < filec s
      /\ sizev s !! Z.to_nat j = Some sz
      /\ 0 <= off <= sz
      /\ (j = i \/ 0 < off)
      /\ sum_sizes (take (Z.to_nat j) (sizev s)) + off
         = sum_sizes (take (Z.to_nat i) (sizev s)) + pos.
Proof.
  intros (Hc & Hls & Hlf & Hnn).
  induction fuel as [|fuel IH]; intros i pos Hi Hfuel Hpos Hmax.
  - lia.
  - destruct (lookup_lt_is_Some_2 (sizev s) (Z.to_nat i)) as [sz Hsz]; [lia|].
    simpl. rewrite Hsz.
    destruct (Z.ltb_spec sz pos) as [Hlt|Hge].
    + assert (Hsz0 : 0 <= sz).
      { eapply Forall_lookup_1 in Hnn; [|exact Hsz]. exact Hnn. }
      rewrite (drop_S _ _ _ Hsz) in Hpos. change (sum_sizes (sz :: ?l)) with (sz + sum_sizes l) in Hpos.
      assert (Hnext : (Z.to_nat i + 1 < length (sizev s))%nat).
      { destruct (decide (Z.to_nat i + 1 < length (sizev s))%nat) as [|Hn]; [assumption|].
        rewrite drop_ge in Hpos by lia. change (sum_sizes []) with 0 in Hpos. lia. }
      rewrite (wrap_uint_id (i + 1)) by (unfold in_uint; lia).
      rewrite (wrap_int64_id (pos - sz)) by (unfold in_int64; lia).
      destruct (Z.ltb_spec (i + 1) (filec s)) as [Hin|Hout]; [|lia].
      destruct (IH (i + 1) (pos - sz)) as (j & off & sz' & Hrun & Hj & Hlk & Hoff & Hpos' & Hsum).
      * lia.
      * lia.
      * replace (Z.to_nat (i + 1)) with (S (Z.to_nat i)) by lia.
        sums_lia.
      * lia.
      * clear IH.
        replace (Z.to_nat (i + 1)) with (S (Z.to_nat i)) in Hsum by lia.
        rewrite (sum_sizes_take_S _ _ _ Hsz) in Hsum.
        exists j, off, sz'. repeat split; try assumption; try lia; try sums_lia.
        right. destruct Hpos' as [->|]; [|assumption].
        replace (Z.to_nat (i + 1)) with (S (Z.to_nat i)) in Hsum by lia.
        rewrite (sum_sizes_take_S _ _ _ Hsz) in Hsum; sums_lia.
    + exists i, pos, sz. repeat split; try assumption; lia.
Qed.

(** ** Seek *)

(** Whatever position the stream has, the position [Seek] goes to is
    the target or one of the two ends. *)
Lemma seek_clamp_range (t : Z) (m : machine W) :
  0 <= i_size (inf m) ->
  0 <= t <= i_size (inf m) ->
  0 <= fst (seek_clamp t m) <= i_size (inf m).
Proof.
  intros Hs Ht. unfold seek_clamp.
  destruct (i_size (inf m) <? i_pos (inf m)); [st_simpl; lia|].
  destruct (i_pos (inf m) <? 0); st_simpl; lia.
Qed.

Lemma seek_clamp_sys (t : Z) (m : machine W) :
  sys (snd (seek_clamp t m)) = sys m.
Proof.
  unfold seek_clamp.
  destruct (i_size (inf m) <? i_pos (inf m)); [reflexivity|].
  destruct (i_pos (inf m) <? 0); reflexivity.
Qed.

Lemma seek_clamp_inside (t : Z) (m : machine W) :
  0 <= i_pos (inf m) <= i_size (inf m) ->
  seek_clamp t m = (t, m).
Proof.
  intros Hp. unfold seek_clamp.
  destruct (Z.ltb_spec (i_size (inf m)) (i_pos (inf m))) as [|_]; [lia|].
  destruct (Z.ltb_spec (i_pos (inf m)) 0) as [|_]; [lia|]. reflexivity.
Qed.

(** What [Seek] does when the position it goes to is inside the stream:
    it stores the position, clears the end-of-file flag, selects the file
    [j] the loop finds, and calls [lseek] once, on the descriptor of that
    file. *)
Lemma Seek_spec (t : Z) (m : machine W) :
  tables_ok (sys m) ->
  sum_sizes (sizev (sys m)) = i_size (inf m) ->
  i_size (inf m) < 2 ^ 63 ->
  0 <= t <= i_size (inf m) ->
  exists j off sz fd,
    0 <= j < filec (sys m)
    /\ sizev (sys m) !! Z.to_nat j = Some sz
    /\ filev (sys m) !! Z.to_nat j = Some fd
    /\ 0 <= off <= sz
    /\ (j = 0 \/ 0 < off)
    /\ sum_sizes (take (Z.to_nat j) (sizev (sys m))) + off = fst (seek_clamp t m)
    /\ Seek t m
       = Done (VLC_SUCCESS,
               do_lseek fd off
                 (set_acc (set_sys (with_filep j))
                    (set_acc (set_info (with_b_eof false))
                       (set_acc (set_info (with_i_pos (fst (seek_clamp t m))))
                          (snd (seek_clamp t m)))))).
Proof.
  intros Hok Hsum Hmax Ht.
  pose proof Hok as (Hc & Hls & Hlf & Hnn).
  pose proof (sum_sizes_nonneg _ Hnn) as Hs0.
  pose proof (seek_clamp_range t m ltac:(lia) Ht) as Hr.
  pose proof (seek_clamp_sys t m) as Hsys.
  unfold Seek. destruct (seek_clamp t m) as [pos1 m1].
  st_simpl. rewrite Hsys.
  destruct (Z.ltb_spec 0 (filec (sys m))) as [_|]; [|lia].
  destruct (seek_locate_ok (Z.to_nat (filec (sys m))) (sys m) Hok 0 pos1)
    as (j & off & sz & Hrun & Hj & Hlk & Hoff & Hfirst & Hpos); try lia.
  { change (Z.to_nat 0) with 0%nat. rewrite drop_0, Hsum. lia. }
  rewrite Hrun.
  destruct (lookup_lt_is_Some_2 (filev (sys m)) (Z.to_nat j)) as [fd Hfd]; [lia|].
  st_simpl. rewrite Hsys, Hfd.
  change (Z.to_nat 0) with 0%nat in Hpos. rewrite take_0 in Hpos.
  change (sum_sizes []) with 0 in Hpos.
  exists j, off, sz, fd. repeat split; try assumption; try lia.
Qed.

(** C10.  For a size table of [filec >= 1] entries, none negative, whose
    sum is the logical size, and a target between 0 and the logical size,
    the loop of [Seek] ends on an index below [filec]: [Seek] succeeds (no
    assertion fails, no table is read outside its entries), the index it
    stores is below [filec], and both tables have an entry there. *)
Theorem Seek_index_in_bounds (t : Z) (m : machine W) :
  tables_ok (sys m) ->
  sum_sizes (sizev (sys m)) = i_size (inf m) ->
  i_size (inf m) < 2 ^ 63 ->
  0 <= t <= i_size (inf m) ->
  exists m' fd sz,
    Seek t m = Done (VLC_SUCCESS, m')
    /\ 0 <= filep (sys m') < filec (sys m)
    /\ filev (sys m) !! Z.to_nat (filep (sys m')) = Some fd
    /\ sizev (sys m) !! Z.to_nat (filep (sys m')) = Some sz.
Proof.
  intros Hok Hsum Hmax Ht.
  destruct (Seek_spec t m Hok Hsum Hmax Ht)
    as (j & off & sz & fd & Hj & Hsz & Hfd & _ & _ & _ & Hrun).
  eexists _, fd, sz. split; [exact Hrun|].
  st_simpl. auto.
Qed.

(** ** The last read of a trace *)

Lemma last_read_from_app (tr1 tr2 : list event) (found : option (Z * Z)) :
  last_read_from found (tr1 ++ tr2) = last_read_from (last_read_from found tr1) tr2.
Proof.
  revert found. induction tr1 as [|e tr1 IH]; intros found; [reflexivity|].
  destruct e; cbn; apply IH.
Qed.

Lemma last_read_snoc_read (tr : list event) (fd len r : Z) :
  last_read (tr ++ [EvRead fd len r]) = Some (fd, r).
Proof. unfold last_read. now rewrite last_read_from_app. Qed.

Lemma last_read_snoc_fstat (tr : list event) (fd : Z) (r : option stat) :
  last_read (tr ++ [EvFstat fd r]) = last_read tr.
Proof. unfold last_read. now rewrite last_read_from_app. Qed.

(** ** Read: the strategies leave the access object alone *)

Lemma do_read_acc (fd len : Z) (m : machine W) :
  acc (snd (do_read fd len m)) = acc m
  /\ trace (snd (do_read fd len m)) = trace m ++ [EvRead fd len (read_ret (fst (do_read fd len m)))].
Proof.
  unfold do_read. destruct (sys_read fd len (world m)) as [r w]. split; reflexivity.
Qed.

Lemma poll_wait_acc (fuel : nat) (fd : Z) :
  forall (m m1 : machine W) (b : bool),
    poll_wait fuel fd m = Done (b, m1) ->
    acc m1 = acc m
    /\ exists evs, trace m1 = trace m ++ evs /\ existsb is_lseek evs = false.
Proof.
  induction fuel as [|fuel IH]; intros m m1 b Hrun; simpl in Hrun; [discriminate|].
  destruct (sys_die (world m)).
  - inversion Hrun; subst. split; [reflexivity|]. exists []. now rewrite app_nil_r.
  - unfold do_poll in Hrun. destruct (sys_poll fd 500 (world m)) as [r w].
    destruct (r <=? 0).
    + apply IH in Hrun as (Hacc & evs & Htr & Hno).
      split; [exact Hacc|]. exists (EvPoll fd r :: evs).
      rewrite Htr. cbn. now rewrite <- app_assoc.
    + inversion Hrun; subst. split; [reflexivity|].
      exists [EvPoll fd r]. split; reflexivity.
Qed.

Lemma kfir_read_acc (fuel : nat) (fd len : Z) :
  forall (m m1 : machine W) (r : read_result),
    kfir_read fuel fd len m = Done (r, m1) ->
    acc m1 = acc m
    /\ exists evs, trace m1 = trace m ++ evs ++ [EvRead fd len (read_ret r)]
                   /\ existsb is_lseek evs = false.
Proof.
  induction fuel as [|fuel IH]; intros m m1 r Hrun; simpl in Hrun; [discriminate|].
  unfold do_read in Hrun. destruct (sys_read fd len (world m)) as [r0 w].
  destruct ((read_ret r0 =? 0) && negb (sys_die _)).
  - apply IH in Hrun as (Hacc & evs & Htr & Hno).
    split; [exact Hacc|].
    exists ([EvRead fd len (read_ret r0); EvMsleep INPUT_ERROR_SLEEP] ++ evs).
    rewrite Htr. cbn. now rewrite <- !app_assoc.
  - inversion Hrun; subst. split; [reflexivity|]. exists []. split; reflexivity.
Qed.

(** A strategy that returns with a [read] leaves the access object as it
    was and ends the trace with that [read]. *)
Lemma read_strategy_some (fuel : nat) (fd len : Z) (m m1 : machine W) (r : read_result) :
  read_strategy fuel fd len m = Done (Some r, m1) ->
  acc m1 = acc m
  /\ exists evs, trace m1 = trace m ++ evs ++ [EvRead fd len (read_ret r)]
                 /\ existsb is_lseek evs = false.
Proof.
  unfold read_strategy. intros Hrun.
  destruct (b_pace_control (sys m)); cbn [negb] in Hrun.
  - pose proof (do_read_acc fd len m) as [Hacc Htr].
    destruct (do_read fd len m) as [r0 m0]. inversion Hrun; subst.
    split; [exact Hacc|]. exists []. split; [exact Htr|reflexivity].
  - destruct (b_kfir (sys m)); cbn [negb] in Hrun.
    + destruct (kfir_read fuel fd len m) as [[r0 m0]| | | |] eqn:Hk; try discriminate.
      cbn in Hrun. inversion Hrun; subst. now apply kfir_read_acc in Hk.
    + destruct (poll_wait fuel fd m) as [[ready m0]| | | |] eqn:Hp; try discriminate.
      cbn in Hrun. destruct ready; [|discriminate].
      apply poll_wait_acc in Hp as (Hacc0 & evs & Htr0 & Hno).
      pose proof (do_read_acc fd len m0) as [Hacc Htr].
      destruct (do_read fd len m0) as [r0 m2]. inversion Hrun; subst.
      cbn [fst snd] in *. split; [congruence|].
      exists evs. rewrite Htr, Htr0. now rewrite <- app_assoc.
Qed.

Lemma read_strategy_none (fuel : nat) (fd len : Z) (m m1 : machine W) :
  read_strategy fuel fd len m = Done (None, m1) ->
  acc m1 = acc m /\ b_pace_control (sys m) = false /\ b_kfir (sys m) = false
  /\ exists evs, trace m1 = trace m ++ evs /\ existsb is_lseek evs = false.
Proof.
  unfold read_strategy. intros Hrun.
  destruct (b_pace_control (sys m)); cbn [negb] in Hrun.
  - destruct (do_read fd len m). discriminate.
  - destruct (b_kfir (sys m)); cbn [negb] in Hrun.
    + destruct (kfir_read fuel fd len m) as [[r0 m0]| | | |]; discriminate.
    + destruct (poll_wait fuel fd m) as [[ready m0]| | | |] eqn:Hp; try discriminate.
      cbn in Hrun. destruct ready.
      * destruct (do_read fd len m0). discriminate.
      * inversion Hrun; subst. apply poll_wait_acc in Hp as [Hacc Htr]. auto.
Qed.

Lemma sys_of_acc (m1 m2 : machine W) : acc m1 = acc m2 -> sys m1 = sys m2.
Proof. unfold sys. now intros ->. Qed.

Lemma inf_of_acc (m1 m2 : machine W) : acc m1 = acc m2 -> inf m1 = inf m2.
Proof. unfold inf. now intros ->. Qed.

(** ** Read: what follows the strategy *)

Lemma after_failed_read_acc (r : read_result) (m : machine W) :
  acc (after_failed_read r m) = acc m.
Proof. destruct r as [bs|e]; [reflexivity|]. destruct e; reflexivity. Qed.

Lemma after_failed_read_trace (r : read_result) (m : machine W) :
  trace (after_failed_read r m)
  = trace m ++ match r with
               | RdBytes _ => []
               | RdErr e => fatal_reports e ++ [EvMsleep INPUT_ERROR_SLEEP]
               end.
Proof.
  destruct r as [bs|e]; cbn.
  - now rewrite app_nil_r.
  - destruct e; cbn; now rewrite <- ?app_assoc.
Qed.

(** The look at the size changes neither position, flags, descriptors,
    current file nor counters, and adds at most one [fstat] to the trace. *)
Lemma track_size_frame (fd : Z) (m m' : machine W) :
  track_size fd m = Done m' ->
  i_pos (inf m') = i_pos (inf m)
  /\ b_eof (inf m') = b_eof (inf m)
  /\ filep (sys m') = filep (sys m)
  /\ filec (sys m') = filec (sys m)
  /\ filev (sys m') = filev (sys m)
  /\ i_nb_reads (sys m') = i_nb_reads (sys m)
  /\ b_pace_control (sys m') = b_pace_control (sys m)
  /\ b_kfir (sys m') = b_kfir (sys m)
  /\ length (sizev (sys m')) = length (sizev (sys m))
  /\ world m' = world m
  /\ (trace m' = trace m \/ exists r, trace m' = trace m ++ [EvFstat fd r]).
Proof.
  unfold track_size, do_fstat. intros Hrun.
  destruct (negb (i_size (inf m) =? 0) && _).
  - destruct (sys_fstat fd (world m)) as [st|].
    + st_simpl.
      destruct (sizev (sys m) !! Z.to_nat (filep (sys m))) as [old|]; [|discriminate].
      destruct (old =? st_size st); inversion Hrun; subst; st_simpl;
        rewrite ?length_insert; repeat split; eauto.
    + inversion Hrun; subst. st_simpl. repeat split; eauto.
  - inversion Hrun; subst. repeat split; auto.
Qed.

(** One step of [Read] when the strategy came back with a [read]. *)
Lemma Read_rec_step (depth fuel : nat) (len fd : Z) (m m1 m4 : machine W) (r : read_result) :
  filev (sys m) !! Z.to_nat (filep (sys m)) = Some fd ->
  read_strategy fuel fd len m = Done (Some r, m1) ->
  track_size fd (count_read (after_failed_read r m1)) = Done m4 ->
  Read_rec (S depth) fuel len m =
    if read_ret r =? 0 then
      if wrap_uint (filep (sys m4) + 1) <? filec (sys m4) then
        Read_rec depth fuel len (set_acc (set_sys (with_filep (wrap_uint (filep (sys m4) + 1)))) m4)
      else
        Done (finish_read r
                (set_acc (set_sys (with_filep (wrap_uint (wrap_uint (filep (sys m4) + 1) - 1)))) m4))
    else Done (finish_read r m4).
Proof.
  intros Hfd Hs Ht. cbn [Read_rec]. rewrite Hfd, Hs. cbn. rewrite Ht. cbn.
  unfold read_tail. st_simpl. destruct (read_ret r =? 0); reflexivity.
Qed.

Lemma track_size_done (fd old : Z) (m : machine W) :
  sizev (sys m) !! Z.to_nat (filep (sys m)) = Some old ->
  exists m', track_size fd m = Done m'.
Proof.
  intros Hold. unfold track_size, do_fstat.
  destruct (negb (i_size (inf m) =? 0) && _); [|eauto].
  destruct (sys_fstat fd (world m)) as [st|]; [|eauto].
  st_simpl. rewrite Hold. destruct (old =? st_size st); eauto.
Qed.

Lemma count_read_frame (m : machine W) :
  inf (count_read m) = inf m
  /\ filep (sys (count_read m)) = filep (sys m)
  /\ filec (sys (count_read m)) = filec (sys m)
  /\ filev (sys (count_read m)) = filev (sys m)
  /\ sizev (sys (count_read m)) = sizev (sys m)
  /\ trace (count_read m) = trace m
  /\ world (count_read m) = world m.
Proof. unfold count_read. st_simpl. repeat split. Qed.

(** What the bookkeeping between the strategy and the end of [Read]
    keeps: all of the access object but the counter and the sizes. *)
Lemma bookkeeping_frame (fd : Z) (r : read_result) (m m1 m4 : machine W) :
  acc m1 = acc m ->
  track_size fd (count_read (after_failed_read r m1)) = Done m4 ->
  i_pos (inf m4) = i_pos (inf m)
  /\ b_eof (inf m4) = b_eof (inf m)
  /\ filep (sys m4) = filep (sys m)
  /\ filec (sys m4) = filec (sys m)
  /\ filev (sys m4) = filev (sys m)
  /\ exists tail,
       trace m4 = trace (after_failed_read r m1) ++ tail
       /\ (tail = [] \/ exists st, tail = [EvFstat fd st]).
Proof.
  intros Hacc Ht.
  apply track_size_frame in Ht
    as (Hpos & Heof & Hfp & Hfc & Hfv & _ & _ & _ & _ & _ & Htr).
  pose proof (count_read_frame (after_failed_read r m1)) as (Hi & Hp & Hc & Hv & _ & Htr' & _).
  pose proof (after_failed_read_acc r m1) as Hacc'.
  rewrite Hpos, Heof, Hfp, Hfc, Hfv, Hi, Hp, Hc, Hv.
  rewrite (inf_of_acc _ _ Hacc'), (sys_of_acc _ _ Hacc').
  rewrite (inf_of_acc _ _ Hacc), (sys_of_acc _ _ Hacc).
  repeat split.
  rewrite Htr' in Htr. destruct Htr as [Htr|[st Htr]].
  - exists []. rewrite app_nil_r. auto.
  - exists [EvFstat fd st]. eauto.
Qed.

(** ** Read: a file that gives no byte *)

(** What [Read] does after a [read] that gave no byte. *)
Lemma Read_rec_zero (depth fuel : nat) (len fd : Z) (m m1 m4 : machine W) (r : read_result) :
  0 <= filep (sys m) < filec (sys m) ->
  filec (sys m) < 2 ^ 32 ->
  filev (sys m) !! Z.to_nat (filep (sys m)) = Some fd ->
  read_strategy fuel fd len m = Done (Some r, m1) ->
  read_ret r = 0 ->
  track_size fd (count_read m1) = Done m4 ->
  Read_rec (S depth) fuel len m =
    if filep (sys m) + 1 <? filec (sys m) then
      Read_rec depth fuel len (set_acc (set_sys (with_filep (filep (sys m) + 1))) m4)
    else
      Done (0, [], set_acc (set_info (with_b_eof true)) m4).
Proof.
  intros Hp Hc Hfd Hs Hr Ht.
  assert (Hr' : after_failed_read r m1 = m1).
  { destruct r; [reflexivity|discriminate]. }
  pose proof (read_strategy_some _ _ _ _ _ _ Hs) as [Hacc _].
  rewrite <- Hr' in Ht.
  pose proof (bookkeeping_frame _ _ _ _ _ Hacc Ht) as (_ & _ & Hfp & Hfc & _ & _).
  rewrite (Read_rec_step _ _ _ _ _ _ _ _ Hfd Hs Ht), Hr, Hfp, Hfc.
  cbn [Z.eqb].
  rewrite (wrap_uint_id (filep (sys m) + 1)) by (unfold in_uint; lia).
  destruct (filep (sys m) + 1 <? filec (sys m)); [reflexivity|].
  replace (filep (sys m) + 1 - 1) with (filep (sys m)) by lia.
  rewrite (wrap_uint_id (filep (sys m))) by (unfold in_uint; lia).
  unfold finish_read. rewrite Hr. cbn [Z.ltb Z.eqb Z.compare].
  destruct r as [bs|]; [|discriminate]. destruct bs; [|discriminate].
  cbn [read_data]. do 2 f_equal.
  rewrite <- Hfp. destruct m4 as [[? ? ? ? []] ? ?]. reflexivity.
Qed.

(** When a call sets the end-of-file flag, the [read] that ended it was
    on the last file and gave no byte. *)
Lemma Read_rec_sets_eof (fuel : nat) (len : Z) :
  forall (depth : nat) (m m' : machine W) (ret : Z) (bs : list Byte.byte),
    0 <= filep (sys m) < filec (sys m) ->
    filec (sys m) < 2 ^ 32 ->
    Read_rec depth fuel len m = Done (ret, bs, m') ->
    b_eof (inf m) = false ->
    b_eof (inf m') = true ->
    ret = 0
    /\ filep (sys m') = filec (sys m) - 1
    /\ exists fd,
         filev (sys m) !! Z.to_nat (filec (sys m) - 1) = Some fd
         /\ last_read (trace m') = Some (fd, 0).
Proof.
  induction depth as [|depth IH]; intros m m' ret bs Hp Hc Hrun Hpre Hpost; [discriminate|].
  destruct (filev (sys m) !! Z.to_nat (filep (sys m))) as [fd|] eqn:Hfd;
    [|cbn [Read_rec] in Hrun; rewrite Hfd in Hrun; discriminate].
  destruct (read_strategy fuel fd len m) as [[[r|] m1]| | | |] eqn:Hs;
    try (cbn [Read_rec] in Hrun; rewrite Hfd, Hs in Hrun; discriminate).
  - destruct (track_size fd (count_read (after_failed_read r m1))) as [m4| | | |] eqn:Ht;
      try (cbn [Read_rec] in Hrun; rewrite Hfd, Hs in Hrun; cbn in Hrun;
           rewrite Ht in Hrun; discriminate).
    pose proof (read_strategy_some _ _ _ _ _ _ Hs) as [Hacc (evs & Htr1 & _)].
    pose proof (bookkeeping_frame _ _ _ _ _ Hacc Ht)
      as (Hpos & Heof & Hfp & Hfc & Hfv & tail & Htr & Htail).
    destruct (Z.eq_dec (read_ret r) 0) as [Hr|Hr].
    + assert (Hr' : after_failed_read r m1 = m1).
      { destruct r; [reflexivity|discriminate]. }
      rewrite Hr' in Ht, Htr.
      rewrite (Read_rec_zero _ _ _ _ _ _ _ _ Hp Hc Hfd Hs Hr Ht) in Hrun.
      destruct (Z.ltb_spec (filep (sys m) + 1) (filec (sys m))) as [Hnext|Hlast].
      * apply IH in Hrun; st_simpl; rewrite ?Hfc, ?Hfv in *; try lia; congruence.
      * inversion Hrun; subst. st_simpl. rewrite Hfp.
        split; [reflexivity|]. split; [lia|].
        exists fd. replace (filec (sys m) - 1) with (filep (sys m)) by lia.
        split; [exact Hfd|].
        rewrite Htr, Htr1, Hr.
        destruct Htail as [->|[st ->]].
        -- rewrite app_nil_r, app_assoc. apply last_read_snoc_read.
        -- rewrite !app_assoc, last_read_snoc_fstat, <- app_assoc.
           rewrite app_assoc. apply last_read_snoc_read.
    + rewrite (Read_rec_step _ _ _ _ _ _ _ _ Hfd Hs Ht) in Hrun.
      destruct (Z.eqb_spec (read_ret r) 0) as [|_]; [contradiction|].
      unfold finish_read in Hrun.
      destruct (0 <? read_ret r); [|destruct (Z.eqb_spec (read_ret r) 0); [contradiction|]];
        inversion Hrun; subst; st_simpl; congruence.
  - cbn [Read_rec] in Hrun. rewrite Hfd, Hs in Hrun. cbn in Hrun.
    inversion Hrun; subst.
    apply read_strategy_none in Hs as (Hacc & _).
    rewrite (inf_of_acc _ _ Hacc) in Hpost. congruence.
Qed.

(** C2.  With the current file inside the table: a file that gives no
    byte and is not the last makes [Read] go on as [Read] on the next
    file, nothing being returned to the caller at that point; when the
    last file gives no byte, [Read] returns 0 with the end-of-file flag
    set and the current file still the last one; and a call that sets the
    flag returned 0 after the last file gave no byte. *)
Theorem Read_eof_after_last_file (fuel : nat) (len : Z) (m : machine W) :
  0 <= filep (sys m) < filec (sys m) ->
  filec (sys m) < 2 ^ 32 ->
  (forall (fd : Z) (r : read_result) (m1 m4 : machine W),
      filev (sys m) !! Z.to_nat (filep (sys m)) = Some fd ->
      read_strategy fuel fd len m = Done (Some r, m1) ->
      read_ret r = 0 ->
      track_size fd (count_read m1) = Done m4 ->
      if filep (sys m) + 1 <? filec (sys m) then
        Read fuel len m
        = Read fuel len (set_acc (set_sys (with_filep (filep (sys m) + 1))) m4)
      else
        Read fuel len m = Done (0, [], set_acc (set_info (with_b_eof true)) m4)
        /\ filep (sys m4) = filec (sys m) - 1)
  /\ (forall (ret : Z) (bs : list Byte.byte) (m' : machine W),
        Read fuel len m = Done (ret, bs, m') ->
        b_eof (inf m) = false ->
        b_eof (inf m') = true ->
        ret = 0
        /\ filep (sys m') = filec (sys m) - 1
        /\ exists fd,
             filev (sys m) !! Z.to_nat (filec (sys m) - 1) = Some fd
             /\ last_read (trace m') = Some (fd, 0)).
Proof.
  intros Hp Hc. split.
  - intros fd r m1 m4 Hfd Hs Hr Ht.
    pose proof (read_strategy_some _ _ _ _ _ _ Hs) as [Hacc _].
    assert (Hr' : after_failed_read r m1 = m1).
    { destruct r; [reflexivity|discriminate]. }
    pose proof Ht as Ht'. rewrite <- Hr' in Ht'.
    pose proof (bookkeeping_frame _ _ _ _ _ Hacc Ht') as (_ & _ & Hfp & Hfc & _ & _).
    pose proof (Read_rec_zero (Z.to_nat (filec (sys m) - filep (sys m)))
                  _ _ _ _ _ _ _ Hp Hc Hfd Hs Hr Ht) as Hstep.
    fold (Read fuel len m) in Hstep.
    destruct (Z.ltb_spec (filep (sys m) + 1) (filec (sys m))) as [Hnext|Hlast].
    + rewrite Hstep. unfold Read. st_simpl. rewrite Hfc. f_equal. lia.
    + split; [exact Hstep|lia].
  - intros ret bs m' Hrun. unfold Read in Hrun.
    eapply Read_rec_sets_eof; eassumption.
Qed.

(** ** Read: the size of a file that changes *)

Lemma track_size_changed (fd old : Z) (st : stat) (m : machine W) :
  i_size (inf m) <> 0 ->
  i_nb_reads (sys m) mod INPUT_FSTAT_NB_READS = 0 ->
  sys_fstat fd (world m) = Some st ->
  sizev (sys m) !! Z.to_nat (filep (sys m)) = Some old ->
  st_size st <> old ->
  exists m',
    track_size fd m = Done m'
    /\ i_size (inf m') = wrap_int64 (i_size (inf m) + wrap_int64 (st_size st - old))
    /\ sizev (sys m') = <[Z.to_nat (filep (sys m)) := st_size st]> (sizev (sys m)).
Proof.
  intros Hsize Hn Hst Hold Hne. unfold track_size, do_fstat.
  destruct (Z.eqb_spec (i_size (inf m)) 0) as [|_]; [contradiction|].
  rewrite Hn, Hst. cbn [negb andb Z.eqb]. st_simpl. rewrite Hold.
  destruct (Z.eqb_spec old (st_size st)) as [|_]; [congruence|].
  eexists. split; [reflexivity|]. st_simpl. split; reflexivity.
Qed.

Lemma track_size_same (fd old : Z) (m : machine W) :
  sizev (sys m) !! Z.to_nat (filep (sys m)) = Some old ->
  i_size (inf m) = 0
  \/ i_nb_reads (sys m) mod INPUT_FSTAT_NB_READS <> 0
  \/ sys_fstat fd (world m) = None
  \/ (exists st, sys_fstat fd (world m) = Some st /\ st_size st = old) ->
  exists m',
    track_size fd m = Done m'
    /\ i_size (inf m') = i_size (inf m)
    /\ sizev (sys m') = sizev (sys m).
Proof.
  intros Hold Hcase. unfold track_size, do_fstat.
  destruct (Z.eqb_spec (i_size (inf m)) 0) as [Hz|Hz]; cbn [negb andb]; [eauto|].
  destruct (Z.eqb_spec (i_nb_reads (sys m) mod INPUT_FSTAT_NB_READS) 0) as [Hn|Hn]; [|eauto].
  destruct Hcase as [?|[?|[Hst|(st & Hst & Heq)]]]; try contradiction.
  - rewrite Hst. eauto.
  - rewrite Hst. st_simpl. rewrite Hold.
    destruct (Z.eqb_spec old (st_size st)) as [_|]; [eauto|congruence].
Qed.

(** C6, amended.  A call of [Read] whose strategy comes back with the
    result of a [read] (bytes, none, or an error), the calls of [Read] on
    the next file included, brings the counter of reads from its value
    to [n], one more, whatever the number of [read] calls the strategy
    made; [Read] then goes on, to the next file or to its end, from a
    state [m4] in which the following holds.  When the logical size is
    not 0 and [n] is a multiple of INPUT_FSTAT_NB_READS, the current file
    was looked at with [fstat]; a size that differs from the entry of the
    file in the size table was added, as a difference, to the logical
    size, in 64-bit arithmetic and so exactly when difference and sum fit
    64 bits, and has replaced the entry.  When the logical size is 0, or
    [n] is no multiple, or [fstat] fails or finds the recorded size,
    logical size and size table are as they were. *)
Theorem Read_size_drift (fuel : nat) (len fd old : Z) (r : read_result) (m m1 : machine W) :
  filev (sys m) !! Z.to_nat (filep (sys m)) = Some fd ->
  sizev (sys m) !! Z.to_nat (filep (sys m)) = Some old ->
  read_strategy fuel fd len m = Done (Some r, m1) ->
  let n := wrap_uint (i_nb_reads (sys m) + 1) in
  let w := world (after_failed_read r m1) in
  exists m4,
    Read fuel len m
    = read_tail (Read_rec (Z.to_nat (filec (sys m) - filep (sys m))) fuel len) r m4
    /\ i_nb_reads (sys m4) = n
    /\ (i_size (inf m) <> 0 ->
        n mod INPUT_FSTAT_NB_READS = 0 ->
        forall st, sys_fstat fd w = Some st -> st_size st <> old ->
          i_size (inf m4) = wrap_int64 (i_size (inf m) + wrap_int64 (st_size st - old))
          /\ (in_int64 (st_size st - old) ->
              in_int64 (i_size (inf m) + (st_size st - old)) ->
              i_size (inf m4) = i_size (inf m) + (st_size st - old))
          /\ sizev (sys m4) = <[Z.to_nat (filep (sys m)) := st_size st]> (sizev (sys m)))
    /\ (i_size (inf m) = 0
        \/ n mod INPUT_FSTAT_NB_READS <> 0
        \/ sys_fstat fd w = None
        \/ (exists st, sys_fstat fd w = Some st /\ st_size st = old) ->
        i_size (inf m4) = i_size (inf m) /\ sizev (sys m4) = sizev (sys m)).
Proof.
  intros Hfd Hold Hs n w.
  pose proof (read_strategy_some _ _ _ _ _ _ Hs) as [Hacc _].
  set (m3 := count_read (after_failed_read r m1)).
  assert (Hinf3 : inf m3 = inf m).
  { unfold m3. destruct (count_read_frame (after_failed_read r m1)) as (-> & _).
    now rewrite (inf_of_acc _ _ (after_failed_read_acc _ _)), (inf_of_acc _ _ Hacc). }
  assert (Hsys3 : filep (sys m3) = filep (sys m) /\ sizev (sys m3) = sizev (sys m)
                  /\ i_nb_reads (sys m3) = n /\ world m3 = w).
  { unfold m3, n, w, count_read. st_simpl.
    rewrite (sys_of_acc _ _ (after_failed_read_acc _ _)), (sys_of_acc _ _ Hacc).
    repeat split. }
  destruct Hsys3 as (Hp3 & Hsz3 & Hn3 & Hw3).
  assert (Hold3 : sizev (sys m3) !! Z.to_nat (filep (sys m3)) = Some old) by congruence.
  destruct (track_size_done fd old m3 Hold3) as [m4 Ht].
  pose proof (track_size_frame _ _ _ Ht) as (_ & _ & _ & _ & _ & Hn4 & _).
  exists m4. split; [|split; [|split]].
  - unfold Read. cbn [Read_rec]. rewrite Hfd, Hs. cbn. fold m3. rewrite Ht. reflexivity.
  - rewrite Hn4. exact Hn3.
  - intros Hsize Hn st Hst Hne.
    destruct (track_size_changed fd old st m3) as (m4' & Ht' & Hi & Hsv);
      try congruence.
    rewrite Ht in Ht'. inversion Ht'; subst m4'.
    rewrite Hi, Hsv, Hinf3, Hp3, Hsz3.
    split; [reflexivity|]. split; [|reflexivity].
    intros Hd Hsum.
    rewrite (wrap_int64_id (st_size st - old)) by assumption.
    now rewrite wrap_int64_id by assumption.
  - intros Hcase.
    destruct (track_size_same fd old m3 Hold3) as (m4' & Ht' & Hi & Hsv).
    { rewrite Hinf3, Hn3, Hw3. exact Hcase. }
    rewrite Ht in Ht'. inversion Ht'; subst m4'.
    rewrite Hi, Hsv, Hinf3, Hsz3. split; reflexivity.
Qed.

(** ** Read: the stop flag *)

(** The polled strategy looks at [b_die] before each [poll]: when the
    flag is set on entry, [Read] returns 0 at once and changes nothing. *)
Lemma Read_polled_cancelled (fuel : nat) (len fd : Z) (m : machine W) :
  b_pace_control (sys m) = false ->
  b_kfir (sys m) = false ->
  filev (sys m) !! Z.to_nat (filep (sys m)) = Some fd ->
  sys_die (world m) = true ->
  Read (S fuel) len m = Done (0, [], m).
Proof.
  intros Hpace Hkfir Hfd Hdie. unfold Read. cbn [Read_rec]. rewrite Hfd.
  unfold read_strategy. rewrite Hpace, Hkfir. cbn [negb poll_wait].
  rewrite Hdie. reflexivity.
Qed.

(** The same after any number of polls that timed out: each turn of the
    wait looks at the flag again. *)
Lemma poll_wait_cancelled (fd : Z) :
  forall (k : nat) (m mk : machine W),
    poll_wait k fd m = Done (false, mk) ->
    sys_die (world mk) = true.
Proof.
  induction k as [|k IH]; intros m mk Hrun; simpl in Hrun; [discriminate|].
  destruct (sys_die (world m)) eqn:Hdie.
  - inversion Hrun; subst. exact Hdie.
  - unfold do_poll in Hrun. destruct (sys_poll fd 500 (world m)) as [r w].
    destruct (r <=? 0); [|discriminate].
    eapply IH; exact Hrun.
Qed.

(** ** Read: no repositioning *)

Lemma finish_read_trace (r : read_result) (m : machine W) :
  trace (snd (finish_read r m)) = trace m /\ world (snd (finish_read r m)) = world m.
Proof.
  unfold finish_read. cbn [snd].
  destruct (0 <? read_ret r); [split; reflexivity|].
  destruct (read_ret r =? 0); split; reflexivity.
Qed.

Lemma fatal_reports_no_lseek (e : errno) : existsb is_lseek (fatal_reports e) = false.
Proof. destruct e; reflexivity. Qed.

(** [Read] never calls [lseek], also when it goes on to the next file. *)
Lemma Read_rec_no_lseek (fuel : nat) (len : Z) :
  forall (depth : nat) (m m' : machine W) (ret : Z) (bs : list Byte.byte),
    Read_rec depth fuel len m = Done (ret, bs, m') ->
    exists evs, trace m' = trace m ++ evs /\ existsb is_lseek evs = false.
Proof.
  induction depth as [|depth IH]; intros m m' ret bs Hrun; [discriminate|].
  destruct (filev (sys m) !! Z.to_nat (filep (sys m))) as [fd|] eqn:Hfd;
    [|cbn [Read_rec] in Hrun; rewrite Hfd in Hrun; discriminate].
  destruct (read_strategy fuel fd len m) as [[[r|] m1]| | | |] eqn:Hs;
    try (cbn [Read_rec] in Hrun; rewrite Hfd, Hs in Hrun; discriminate).
  - destruct (track_size fd (count_read (after_failed_read r m1))) as [m4| | | |] eqn:Ht;
      try (cbn [Read_rec] in Hrun; rewrite Hfd, Hs in Hrun; cbn in Hrun;
           rewrite Ht in Hrun; discriminate).
    pose proof (read_strategy_some _ _ _ _ _ _ Hs) as [Hacc (evs & Htr1 & Hno1)].
    pose proof (bookkeeping_frame _ _ _ _ _ Hacc Ht)
      as (_ & _ & _ & _ & _ & tail & Htr & Htail).
    rewrite after_failed_read_trace, Htr1 in Htr.
    assert (Hno4 : exists evs4, trace m4 = trace m ++ evs4 /\ existsb is_lseek evs4 = false).
    { eexists. split; [rewrite Htr, <- !app_assoc; reflexivity|].
      rewrite !existsb_app, Hno1. cbn [existsb is_lseek orb].
      destruct Htail as [->|[st ->]]; destruct r as [|e]; cbn;
        rewrite ?existsb_app, ?fatal_reports_no_lseek; reflexivity. }
    destruct Hno4 as (evs4 & Htr4 & Hno4).
    rewrite (Read_rec_step _ _ _ _ _ _ _ _ Hfd Hs Ht) in Hrun.
    destruct (read_ret r =? 0).
    + destruct (_ <? _).
      * apply IH in Hrun as (evs' & Htr' & Hno').
        exists (evs4 ++ evs'). st_simpl. rewrite Htr', Htr4, <- app_assoc.
        split; [reflexivity|]. now rewrite existsb_app, Hno4, Hno'.
      * exists evs4. split; [|exact Hno4].
        match type of Hrun with
        | Done (finish_read ?r ?x) = _ =>
            pose proof (proj1 (finish_read_trace r x)) as Hfin
        end.
        apply (f_equal (fun o => match o with Done v => snd v | _ => m' end)) in Hrun.
        cbn [snd] in Hrun. rewrite Hrun in Hfin. rewrite Hfin. st_simpl. exact Htr4.
    + exists evs4. split; [|exact Hno4].
      pose proof (proj1 (finish_read_trace r m4)) as Hfin.
      apply (f_equal (fun o => match o with Done v => snd v | _ => m' end)) in Hrun.
      cbn [snd] in Hrun. rewrite Hrun in Hfin. now rewrite Hfin.
  - cbn [Read_rec] in Hrun. rewrite Hfd, Hs in Hrun. cbn in Hrun.
    inversion Hrun; subst.
    apply read_strategy_none in Hs as (_ & _ & _ & Htr). exact Htr.
Qed.

(** ** Read returns in the standard mode *)

Lemma read_strategy_pace (fuel : nat) (fd len : Z) (m : machine W) :
  b_pace_control (sys m) = true ->
  exists r m1, read_strategy fuel fd len m = Done (Some r, m1).
Proof.
  intros Hpace. unfold read_strategy. rewrite Hpace. cbn [negb].
  destruct (do_read fd len m). eauto.
Qed.

(** With pace control there is no wait loop: whatever the kernel answers,
    [Read] returns, after one [read] per file at most. *)
Lemma Read_rec_returns (fuel : nat) (len : Z) :
  forall (depth : nat) (m : machine W),
    b_pace_control (sys m) = true ->
    0 <= filep (sys m) < filec (sys m) ->
    filec (sys m) < 2 ^ 32 ->
    length (filev (sys m)) = Z.to_nat (filec (sys m)) ->
    length (sizev (sys m)) = Z.to_nat (filec (sys m)) ->
    (Z.to_nat (filec (sys m) - filep (sys m)) <= depth)%nat ->
    exists ret bs m', Read_rec depth fuel len m = Done (ret, bs, m').
Proof.
  induction depth as [|depth IH]; intros m Hpace Hp Hc Hlv Hls Hd; [lia|].
  destruct (lookup_lt_is_Some_2 (filev (sys m)) (Z.to_nat (filep (sys m)))) as [fd Hfd]; [lia|].
  destruct (lookup_lt_is_Some_2 (sizev (sys m)) (Z.to_nat (filep (sys m)))) as [old Hold]; [lia|].
  destruct (read_strategy_pace fuel fd len m Hpace) as (r & m1 & Hs).
  pose proof (read_strategy_some _ _ _ _ _ _ Hs) as [Hacc _].
  destruct (track_size_done fd old (count_read (after_failed_read r m1))) as [m4 Ht].
  { destruct (count_read_frame (after_failed_read r m1)) as (_ & -> & _ & _ & -> & _).
    now rewrite (sys_of_acc _ _ (after_failed_read_acc _ _)), (sys_of_acc _ _ Hacc). }
  pose proof (bookkeeping_frame _ _ _ _ _ Hacc Ht) as (_ & _ & Hfp & Hfc & Hfv & _).
  pose proof (track_size_frame _ _ _ Ht)
    as (_ & _ & _ & _ & _ & _ & Hpace4 & _ & Hlen4 & _).
  destruct (count_read_frame (after_failed_read r m1)) as (_ & _ & _ & _ & Hsvc & _).
  unfold count_read in Hpace4. st_simpl.
  rewrite (sys_of_acc _ _ (after_failed_read_acc _ _)), (sys_of_acc _ _ Hacc) in Hpace4.
  rewrite Hsvc, (sys_of_acc _ _ (after_failed_read_acc _ _)), (sys_of_acc _ _ Hacc) in Hlen4.
  rewrite (Read_rec_step _ _ _ _ _ _ _ _ Hfd Hs Ht).
  unfold finish_read.
  destruct (read_ret r =? 0); [|eauto].
  rewrite Hfp, Hfc, (wrap_uint_id (filep (sys m) + 1)) by (unfold in_uint; lia).
  destruct (Z.ltb_spec (filep (sys m) + 1) (filec (sys m))); [|eauto].
  apply IH; st_simpl; rewrite ?Hfc, ?Hfv, ?Hlen4; try lia. congruence.
Qed.

Lemma Read_returns (fuel : nat) (len : Z) (m : machine W) :
  b_pace_control (sys m) = true ->
  0 <= filep (sys m) < filec (sys m) ->
  filec (sys m) < 2 ^ 32 ->
  length (filev (sys m)) = Z.to_nat (filec (sys m)) ->
  length (sizev (sys m)) = Z.to_nat (filec (sys m)) ->
  exists ret bs m', Read fuel len m = Done (ret, bs, m').
Proof.
  intros. unfold Read. apply Read_rec_returns; try assumption. lia.
Qed.

(** ** The bounds of the model are wide enough *)

(** The loop of [Seek] ends within [filec] turns: on a file, on the
    assertion, or outside the table. *)
Lemma seek_locate_fuel (s : access_sys_t) :
  filec s < 2 ^ 32 ->
  forall (fuel : nat) (i pos : Z),
    0 <= i < filec s ->
    (Z.to_nat (filec s - i) <= fuel)%nat ->
    seek_locate fuel s i pos <> OutOfFuel /\ seek_locate fuel s i pos <> StillWaiting.
Proof.
  intros Hc. induction fuel as [|fuel IH]; intros i pos Hi Hfuel; [lia|].
  cbn [seek_locate].
  destruct (sizev s !! Z.to_nat i) as [sz|]; [|split; discriminate].
  destruct (sz <? pos); [|split; discriminate].
  rewrite (wrap_uint_id (i + 1)) by (unfold in_uint; lia).
  destruct (Z.ltb_spec (i + 1) (filec s)); [|split; discriminate].
  apply IH; lia.
Qed.

Lemma Seek_fuel (pos : Z) (m : machine W) :
  filec (sys m) < 2 ^ 32 ->
  Seek pos m <> OutOfFuel /\ Seek pos m <> StillWaiting.
Proof.
  intros Hc. unfold Seek.
  pose proof (seek_clamp_sys pos m) as Hsys.
  destruct (seek_clamp pos m) as [pos1 m1]. st_simpl. rewrite Hsys.
  destruct (Z.ltb_spec 0 (filec (sys m))); [|split; discriminate].
  destruct (seek_locate_fuel (sys m) Hc (Z.to_nat (filec (sys m))) 0 pos1) as [H1 H2];
    [lia|lia|].
  destruct (seek_locate _ _ 0 pos1) as [[i off]| | | |]; try (split; discriminate);
    try contradiction.
  st_simpl. destruct (_ !! _); split; discriminate.
Qed.

Lemma poll_wait_no_fuel (fd : Z) :
  forall (fuel : nat) (m : machine W), poll_wait fuel fd m <> OutOfFuel.
Proof.
  induction fuel as [|fuel IH]; intros m; cbn [poll_wait]; [discriminate|].
  destruct (sys_die (world m)); [discriminate|].
  destruct (do_poll fd 500 m) as [r m1]. destruct (r <=? 0); [apply IH|discriminate].
Qed.

Lemma kfir_read_no_fuel (fd len : Z) :
  forall (fuel : nat) (m : machine W), kfir_read fuel fd len m <> OutOfFuel.
Proof.
  induction fuel as [|fuel IH]; intros m; cbn [kfir_read]; [discriminate|].
  destruct (do_read fd len m) as [r m1]. destruct (_ && _); [apply IH|discriminate].
Qed.

Lemma read_strategy_no_fuel (fuel : nat) (fd len : Z) (m : machine W) :
  read_strategy fuel fd len m <> OutOfFuel.
Proof.
  unfold read_strategy.
  destruct (negb (b_pace_control (sys m))); [|destruct (do_read fd len m); discriminate].
  destruct (negb (b_kfir (sys m))).
  - pose proof (poll_wait_no_fuel fd fuel m) as Hp.
    destruct (poll_wait fuel fd m) as [[ready m1]| | | |]; try discriminate; [|contradiction].
    cbn. destruct ready; [destruct (do_read fd len m1)|]; discriminate.
  - pose proof (kfir_read_no_fuel fd len fuel m) as Hk.
    destruct (kfir_read fuel fd len m) as [[r m1]| | | |]; try discriminate. contradiction.
Qed.

(** One call of [Read] per file from the current one on is enough, in
    every mode: the bound on the calls is never what ends [Read]. *)
Lemma Read_rec_depth (fuel : nat) (len : Z) :
  forall (depth : nat) (m : machine W),
    0 <= filep (sys m) < filec (sys m) ->
    filec (sys m) < 2 ^ 32 ->
    (Z.to_nat (filec (sys m) - filep (sys m)) < depth)%nat ->
    Read_rec depth fuel len m <> OutOfFuel.
Proof.
  induction depth as [|depth IH]; intros m Hp Hc Hd; [lia|].
  cbn [Read_rec].
  destruct (filev (sys m) !! Z.to_nat (filep (sys m))) as [fd|]; [|discriminate].
  pose proof (read_strategy_no_fuel fuel fd len m) as Hs.
  destruct (read_strategy fuel fd len m) as [[[r|] m1]| | | |] eqn:Hrun;
    try discriminate; try contradiction.
  cbn.
  pose proof (read_strategy_some _ _ _ _ _ _ Hrun) as [Hacc _].
  destruct (track_size fd (count_read (after_failed_read r m1))) as [m4| | | |] eqn:Ht;
    try discriminate.
  - pose proof (bookkeeping_frame _ _ _ _ _ Hacc Ht) as (_ & _ & Hfp & Hfc & _).
    cbn. unfold read_tail. st_simpl. rewrite Hfp, Hfc.
    destruct (read_ret r =? 0); [|discriminate].
    rewrite (wrap_uint_id (filep (sys m) + 1)) by (unfold in_uint; lia).
    destruct (Z.ltb_spec (filep (sys m) + 1) (filec (sys m))); [|discriminate].
    apply IH; st_simpl; rewrite ?Hfc; lia.
  - unfold track_size in Ht.
    destruct (_ && _); [|discriminate].
    destruct (do_fstat _ _) as [[st|] mf]; [|discriminate].
    destruct (_ !! _); [destruct (_ =? _)|]; discriminate.
Qed.

Lemma Read_depth (fuel : nat) (len : Z) (m : machine W) :
  0 <= filep (sys m) < filec (sys m) ->
  filec (sys m) < 2 ^ 32 ->
  Read fuel len m <> OutOfFuel.
Proof. intros. unfold Read. apply Read_rec_depth; try assumption. lia. Qed.

(** ** Close *)

Lemma close_files_spec :
  forall (n : nat) (i : Z) (m : machine W),
    0 <= i ->
    (Z.to_nat i + n <= length (filev (sys m)))%nat ->
    exists m',
      close_files n i m = Done m'
      /\ acc m' = acc m
      /\ trace m' = trace m ++ map EvClose (take n (drop (Z.to_nat i) (filev (sys m)))).
Proof.
  induction n as [|n IH]; intros i m Hi Hlen.
  - exists m. cbn. rewrite take_0, app_nil_r. auto.
  - destruct (lookup_lt_is_Some_2 (filev (sys m)) (Z.to_nat i)) as [fd Hfd]; [lia|].
    cbn [close_files]. rewrite Hfd.
    destruct (IH (i + 1) (do_close fd m)) as (m' & Hrun & Hacc & Htr).
    + lia.
    + st_simpl. lia.
    + exists m'. split; [exact Hrun|]. split; [exact Hacc|].
      rewrite Htr. st_simpl. rewrite (drop_S _ _ _ Hfd).
      replace (Z.to_nat (i + 1)) with (S (Z.to_nat i)) by lia.
      cbn. now rewrite <- app_assoc.
Qed.

Lemma Close_spec (m : machine W) :
  0 <= filec (sys m) ->
  (Z.to_nat (filec (sys m)) <= length (filev (sys m)))%nat ->
  exists m',
    Close m = Done m'
    /\ acc m' = acc m
    /\ trace m' = trace m ++ map EvClose (take (Z.to_nat (filec (sys m))) (filev (sys m))).
Proof.
  intros Hc Hlen. unfold Close.
  destruct (close_files_spec (Z.to_nat (filec (sys m))) 0 m) as (m' & Hrun & Hacc & Htr);
    [lia|simpl; lia|].
  exists m'. change (Z.to_nat 0) with 0%nat in Htr. rewrite drop_0 in Htr. auto.
Qed.

(** ** What a piece of trace tells *)

Lemma fds_opened_app (a b : list event) : fds_opened (a ++ b) = fds_opened a ++ fds_opened b.
Proof. apply omap_app. Qed.
Lemma fds_closed_app (a b : list event) : fds_closed (a ++ b) = fds_closed a ++ fds_closed b.
Proof. apply omap_app. Qed.
Lemma fstat_oks_app (a b : list event) : fstat_oks (a ++ b) = fstat_oks a ++ fstat_oks b.
Proof. apply omap_app. Qed.

Lemma fds_closed_closes (l : list Z) : fds_closed (map EvClose l) = l.
Proof. induction l as [|fd l IH]; [reflexivity|]. cbn. f_equal. exact IH. Qed.
Lemma fds_opened_closes (l : list Z) : fds_opened (map EvClose l) = [].
Proof. induction l as [|fd l IH]; [reflexivity|exact IH]. Qed.
Lemma fstat_oks_closes (l : list Z) : fstat_oks (map EvClose l) = [].
Proof. induction l as [|fd l IH]; [reflexivity|exact IH]. Qed.
Lemma open_fault_closes (l : list Z) : existsb open_fault (map EvClose l) = false.
Proof. induction l as [|fd l IH]; [reflexivity|exact IH]. Qed.

(** ** Open: one file *)

(** Getting a descriptor for a name. *)
Lemma open_file_spec (name : string) (m : machine W) :
  exists evs,
    acc (snd (open_file name m)) = acc m
    /\ trace (snd (open_file name m)) = trace m ++ evs
    /\ fds_closed evs = []
    /\ fstat_oks evs = []
    /\ (if fst (open_file name m) =? -1
        then fds_opened evs = [] /\ existsb open_fault evs = true
        else fds_opened evs = [fst (open_file name m)] /\ existsb open_fault evs = false).
Proof.
  unfold open_file.
  destruct (ToLocale _ (world m)).
  - destruct (sys_open _ (world m)) as [fd w].
    destruct (Z.eqb_spec fd (-1)) as [->|Hfd].
    + eexists [EvOpen _ (-1); EvErr _; EvUserFatal _]. cbn.
      rewrite <- !app_assoc. repeat split.
    + eexists [EvOpen _ fd]. cbn.
      destruct (Z.eqb_spec fd (-1)) as [|_]; [contradiction|].
      unfold fds_opened, open_fault. cbn.
      destruct (Z.eqb_spec fd (-1)) as [|_]; [contradiction|]. repeat split.
  - eexists [EvErr (MsgIncorrectFileName name)]. cbn. repeat split.
Qed.

Lemma do_dup_spec (oldfd : Z) (m : machine W) :
  exists evs,
    acc (snd (do_dup oldfd m)) = acc m
    /\ trace (snd (do_dup oldfd m)) = trace m ++ evs
    /\ fds_closed evs = []
    /\ fstat_oks evs = []
    /\ (if fst (do_dup oldfd m) =? -1
        then fds_opened evs = [] /\ existsb open_fault evs = true
        else fds_opened evs = [fst (do_dup oldfd m)] /\ existsb open_fault evs = false).
Proof.
  unfold do_dup. destruct (sys_dup oldfd (world m)) as [fd w].
  exists [EvDup oldfd fd]. cbn.
  unfold fds_opened, open_fault. cbn.
  destruct (Z.eqb_spec fd (-1)) as [->|Hfd]; repeat split.
Qed.

(** Looking at the descriptor: kept with its stat, or closed. *)
Lemma probe_fd_spec (fd : Z) (m : machine W) :
  exists evs,
    acc (snd (probe_fd fd m)) = acc m
    /\ trace (snd (probe_fd fd m)) = trace m ++ evs
    /\ fds_opened evs = []
    /\ match fst (probe_fd fd m) with
       | Some (fd', st) =>
           fd' = fd /\ fd <> -1 /\ S_ISDIR (st_mode st) = false
           /\ evs = [EvFstat fd (Some st)]
       | None =>
           (fd = -1 /\ evs = [])
           \/ (fd <> -1 /\ fds_closed evs = [fd] /\ existsb open_fault evs = true)
       end.
Proof.
  unfold probe_fd.
  destruct (Z.eqb_spec fd (-1)) as [->|Hfd].
  - exists []. cbn. rewrite app_nil_r. repeat split. now left.
  - unfold do_fstat. destruct (sys_fstat fd (world m)) as [st|].
    + destruct (S_ISDIR (st_mode st)) eqn:Hdir.
      * exists [EvFstat fd (Some st); EvDbg MsgIsDirectory; EvClose fd].
        cbn. rewrite <- !app_assoc. repeat split. right.
        unfold open_fault. cbn. rewrite Hdir. repeat split; assumption.
      * exists [EvFstat fd (Some st)]. cbn. repeat split; assumption.
    + exists [EvFstat fd None; EvErr (MsgFstatFailed fd); EvClose fd].
      cbn. rewrite <- !app_assoc. repeat split. right. repeat split; assumption.
Qed.

Lemma acquire_fd_spec (i fd : Z) (filename filename' : option string) (b_stdin : bool)
    (m m1 : machine W) :
  acquire_fd i filename b_stdin m = Done (fd, filename', m1) ->
  exists evs,
    acc m1 = acc m
    /\ trace m1 = trace m ++ evs
    /\ fds_closed evs = []
    /\ fstat_oks evs = []
    /\ (if fd =? -1
        then fds_opened evs = [] /\ existsb open_fault evs = true
        else fds_opened evs = [fd] /\ existsb open_fault evs = false).
Proof.
  unfold acquire_fd. intros Hrun.
  assert (Hgen : forall (e : event) (res : Z * machine W),
             (exists evs,
                acc (snd res) = acc (emit e m)
                /\ trace (snd res) = trace (emit e m) ++ evs
                /\ fds_closed evs = [] /\ fstat_oks evs = []
                /\ (if fst res =? -1
                    then fds_opened evs = [] /\ existsb open_fault evs = true
                    else fds_opened evs = [fst res] /\ existsb open_fault evs = false)) ->
             fds_closed [e] = [] -> fstat_oks [e] = [] -> fds_opened [e] = [] ->
             open_fault e = false ->
             exists evs,
               acc (snd res) = acc m
               /\ trace (snd res) = trace m ++ evs
               /\ fds_closed evs = [] /\ fstat_oks evs = []
               /\ (if fst res =? -1
                   then fds_opened evs = [] /\ existsb open_fault evs = true
                   else fds_opened evs = [fst res] /\ existsb open_fault evs = false)).
  { intros e res (evs & Hacc & Htr & Hcl & Hst & Hop) He1 He2 He3 He4.
    exists (e :: evs). split; [exact Hacc|]. split.
    - rewrite Htr. cbn. now rewrite <- app_assoc.
    - change (e :: evs) with ([e] ++ evs).
      rewrite fds_closed_app, fstat_oks_app, fds_opened_app, existsb_app, He1, He2, He3, Hcl, Hst.
      cbn [existsb]. rewrite He4. cbn. repeat split.
      destruct (fst res =? -1); exact Hop. }
  destruct (i =? 0).
  - destruct b_stdin.
    + specialize (Hgen _ _ (do_dup_spec 0 (msg_Dbg (MsgOpening (psz_path (acc m))) m))).
      destruct (do_dup 0 _) as [fd0 m0]. inversion Hrun; subst. now apply Hgen.
    + specialize (Hgen _ _ (open_file_spec (psz_path (acc m))
                              (msg_Dbg (MsgOpening (psz_path (acc m))) m))).
      st_simpl.
      destruct (open_file _ _) as [fd0 m0]. inversion Hrun; subst. now apply Hgen.
  - destruct filename as [s|]; [|discriminate].
    specialize (Hgen _ _ (open_file_spec (before_comma s)
                            (msg_Dbg (MsgOpeningAdditional (before_comma s)) m))).
    destruct (open_file _ _) as [fd0 m0]. inversion Hrun; subst. now apply Hgen.
Qed.

Lemma seekable_file_unseekable (st : stat) :
  unseekable_stat st = negb (seekable_file st).
Proof.
  unfold unseekable_stat, seekable_file.
  destruct (S_ISREG _), (S_ISBLK _), (S_ISCHR _), (st_size st =? 0); reflexivity.
Qed.

Lemma record_file_spec (i fd : Z) (st : stat) (m m' : machine W) :
  0 <= i ->
  record_file i fd st m = Done m' ->
  (Z.to_nat i < length (filev (sys m)))%nat
  /\ (Z.to_nat i < length (sizev (sys m)))%nat
  /\ trace m' = trace m
  /\ world m' = world m
  /\ psz_access (acc m') = psz_access (acc m)
  /\ filev (sys m') = <[Z.to_nat i := fd]> (filev (sys m))
  /\ sizev (sys m') = <[Z.to_nat i := st_size st]> (sizev (sys m))
  /\ filec (sys m') = filec (sys m)
  /\ b_seekable (sys m') = b_seekable (sys m) && seekable_file st
  /\ i_size (inf m') = wrap_int64 (i_size (inf m) + st_size st).
Proof.
  intros Hi. unfold record_file.
  destruct (Nat.ltb_spec (Z.to_nat i) (length (filev (sys m)))) as [Hv|]; [|discriminate].
  destruct (Nat.ltb_spec (Z.to_nat i) (length (sizev (sys m)))) as [Hs|]; [|discriminate].
  cbn [andb]. rewrite seekable_file_unseekable.
  destruct (seekable_file st); cbn [negb]; intros Hrun; inversion Hrun; subst; st_simpl;
    rewrite ?andb_true_r, ?andb_false_r; repeat split; assumption.
Qed.

Lemma add_sizes_cons (a : Z) (st : stat) (l : list stat) :
  add_sizes a (st :: l) = add_sizes (wrap_int64 (a + st_size st)) l.
Proof. reflexivity. Qed.

(** ** Open: the loop over the files *)

(** What the trace of the loop tells when the loop is over.  On success
    each file was opened and looked at once, nothing was closed, and
    tables, size and flag follow the stats; on failure a fault is in the
    trace and what was opened, before and in the loop, is closed. *)
Lemma open_files_spec :
  forall (n : nat) (i : Z) (filename : option string) (b_stdin : bool)
         (m m' : machine W) (st : vlc_status),
    0 <= i ->
    (Z.to_nat i + n <= length (filev (sys m)))%nat ->
    (Z.to_nat i + n <= length (sizev (sys m)))%nat ->
    i + Z.of_nat n < 2 ^ 32 ->
    open_files n i filename b_stdin m = Done (st, m') ->
    exists evs,
      trace m' = trace m ++ evs
      /\ psz_access (acc m') = psz_access (acc m)
      /\ match st with
         | VLC_SUCCESS =>
             existsb open_fault evs = false
             /\ fds_closed evs = []
             /\ fds_opened evs = map fst (fstat_oks evs)
             /\ length (fstat_oks evs) = n
             /\ filev (sys m')
                = take (Z.to_nat i) (filev (sys m)) ++ map fst (fstat_oks evs)
                  ++ drop (Z.to_nat i + n) (filev (sys m))
             /\ sizev (sys m')
                = take (Z.to_nat i) (sizev (sys m))
                  ++ map (fun p => st_size (snd p)) (fstat_oks evs)
                  ++ drop (Z.to_nat i + n) (sizev (sys m))
             /\ filec (sys m') = filec (sys m)
             /\ b_seekable (sys m')
                = b_seekable (sys m) && forallb seekable_file (map snd (fstat_oks evs))
             /\ i_size (inf m') = add_sizes (i_size (inf m)) (map snd (fstat_oks evs))
         | VLC_EGENERIC =>
             existsb open_fault evs = true
             /\ fds_closed evs ≡ₚ take (Z.to_nat i) (filev (sys m)) ++ fds_opened evs
         | VLC_ENOMEM => False
         end.
Proof.
  induction n as [|n IH]; intros i filename b_stdin m m' st Hi Hlv Hls Hmax Hrun.
  - cbn in Hrun. inversion Hrun; subst. exists []. rewrite app_nil_r.
    repeat split; cbn; rewrite ?Nat.add_0_r, ?take_drop, ?andb_true_r; reflexivity.
  - cbn [open_files] in Hrun.
    destruct (acquire_fd i filename b_stdin m) as [[[fd filename'] m1]| | | |] eqn:Ha;
      try discriminate.
    cbn in Hrun.
    destruct (acquire_fd_spec _ _ _ _ _ _ _ Ha) as (evs_a & Hacc1 & Htr1 & Hcl_a & Hst_a & Hop_a).
    destruct (probe_fd_spec fd m1) as (evs_p & Hacc2 & Htr2 & Hop_p & Hprobe).
    destruct (probe_fd fd m1) as [probed m2]. cbn [fst snd] in *.
    destruct probed as [[fd' stt]|].
    + (* the file is kept *)
      destruct Hprobe as (-> & Hfd & Hdir & ->).
      destruct (record_file i fd stt m2) as [m3| | | |] eqn:Hrec; try discriminate.
      cbn in Hrun.
      apply record_file_spec in Hrec
        as (Hv & Hs & Htr3 & _ & Hacc3 & Hfv3 & Hsv3 & Hfc3 & Hsk3 & Hsz3); [|exact Hi].
      rewrite (wrap_uint_id (i + 1)) in Hrun by (unfold in_uint; lia).
      rewrite (sys_of_acc _ _ Hacc2), (sys_of_acc _ _ Hacc1) in Hv, Hs, Hfv3, Hsv3, Hfc3, Hsk3.
      rewrite (inf_of_acc _ _ Hacc2), (inf_of_acc _ _ Hacc1) in Hsz3.
      apply IH in Hrun as (evs' & Htr' & Hacc' & Hres);
        [|lia|rewrite Hfv3, length_insert; lia|rewrite Hsv3, length_insert; lia|lia].
      destruct (Z.eqb_spec fd (-1)) as [|_]; [contradiction|].
      destruct Hop_a as [Hop_a Hfault_a].
      exists (evs_a ++ [EvFstat fd (Some stt)] ++ evs').
      split; [rewrite Htr', Htr3, Htr2, Htr1; now rewrite <- !app_assoc|].
      split; [rewrite Hacc', Hacc3, Hacc2, Hacc1; reflexivity|].
      replace (Z.to_nat (i + 1)) with (S (Z.to_nat i)) in Hres by lia.
      destruct st; [|destruct Hres|].
      * destruct Hres as (Hf & Hc & Ho & Hl & Hfv & Hsv & Hfc & Hsk & Hsz).
        rewrite !existsb_app, !fds_closed_app, !fds_opened_app, !fstat_oks_app.
        rewrite Hfault_a, Hcl_a, Hop_a, Hst_a, Hf, Hc, Ho.
        cbn [app existsb fds_closed fds_opened fstat_oks omap map fst snd length
             open_fault open_refused fstat_refused found_directory
             closed_fd opened_fd fstat_ok forallb orb].
        rewrite Hdir.
        repeat split.
        -- cbn. now rewrite Hl.
        -- rewrite Hfv, Hfv3.
           rewrite (take_S_r _ _ fd) by (apply list_lookup_insert_eq; lia).
           rewrite take_insert_ge, drop_insert_lt by lia.
           rewrite <- app_assoc. cbn.
           now replace (Z.to_nat i + S n)%nat with (S (Z.to_nat i + n)) by lia.
        -- rewrite Hsv, Hsv3.
           rewrite (take_S_r _ _ (st_size stt)) by (apply list_lookup_insert_eq; lia).
           rewrite take_insert_ge, drop_insert_lt by lia.
           rewrite <- app_assoc. cbn.
           now replace (Z.to_nat i + S n)%nat with (S (Z.to_nat i + n)) by lia.
        -- congruence.
        -- rewrite Hsk, Hsk3. cbn. now rewrite andb_assoc.
        -- rewrite Hsz, Hsz3. cbn. reflexivity.
      * destruct Hres as (Hf & Hperm).
        rewrite !existsb_app, !fds_closed_app, !fds_opened_app.
        rewrite Hf, Hcl_a, Hop_a. rewrite !orb_true_r. split; [reflexivity|].
        cbn [app fds_closed fds_opened omap closed_fd opened_fd].
        rewrite Hperm, Hfv3.
        rewrite (take_S_r _ _ fd) by (apply list_lookup_insert_eq; lia).
        rewrite take_insert_ge by lia.
        now rewrite <- app_assoc.
    + (* the turn fails *)
      destruct (Close_spec (set_acc (set_sys (with_filec i)) m2)) as (m3 & Hcl & Hacc3 & Htr3).
      { st_simpl. lia. }
      { st_simpl. rewrite (sys_of_acc _ _ Hacc2), (sys_of_acc _ _ Hacc1). lia. }
      rewrite Hcl in Hrun. cbn in Hrun. inversion Hrun; subst st m'.
      st_simpl. rewrite (sys_of_acc _ _ Hacc2), (sys_of_acc _ _ Hacc1) in Htr3.
      exists (evs_a ++ evs_p ++ map EvClose (take (Z.to_nat i) (filev (sys m)))).
      split; [rewrite Htr3, Htr2, Htr1; now rewrite <- !app_assoc|].
      split.
      { rewrite Hacc3. cbn. change (psz_access (acc m2) = psz_access (acc m)).
        now rewrite Hacc2, Hacc1. }
      rewrite !existsb_app, !fds_closed_app, !fds_opened_app.
      rewrite fds_closed_closes, fds_opened_closes, open_fault_closes, Hcl_a, Hop_p.
      rewrite app_nil_r, orb_false_r. cbn [app].
      destruct Hprobe as [[-> ->]|(Hfd & Hcp & Hfp)].
      * cbn [Z.eqb] in Hop_a. destruct Hop_a as [-> ->].
        cbn. rewrite app_nil_r. split; reflexivity.
      * destruct (Z.eqb_spec fd (-1)) as [|_]; [contradiction|].
        destruct Hop_a as [-> _]. rewrite Hcp, Hfp, orb_true_r.
        split; [reflexivity|]. apply Permutation_app_comm.
Qed.

(** ** Open *)

Lemma do_alloc_spec (m : machine W) :
  acc (snd (do_alloc m)) = acc m /\ trace (snd (do_alloc m)) = trace m.
Proof. unfold do_alloc. destruct (sys_alloc (world m)). split; reflexivity. Qed.

Lemma initial_sys_flags (access : string) :
  b_seekable (initial_sys access) = standard_mode access
  /\ b_pace_control (initial_sys access) = standard_mode access.
Proof. split; reflexivity. Qed.

(** What a call of [Open] that returns has done. *)
Lemma Open_spec (file_cat : option string) (m m' : machine W) (st : vlc_status) :
  Open file_cat m = Done (st, m') ->
  exists evs,
    trace m' = trace m ++ evs
    /\ match st with
       | VLC_ENOMEM => evs = []
       | VLC_SUCCESS =>
           exists c,
             file_cat = Some c
             /\ existsb open_fault evs = false
             /\ fds_closed evs = []
             /\ fds_opened evs = map fst (fstat_oks evs)
             /\ length (fstat_oks evs) = Z.to_nat (files_asked c)
             /\ filev (sys m') = map fst (fstat_oks evs)
             /\ sizev (sys m') = map (fun p => st_size (snd p)) (fstat_oks evs)
             /\ filec (sys m') = files_asked c
             /\ b_seekable (sys m')
                = standard_mode (psz_access (acc m))
                  && forallb seekable_file (map snd (fstat_oks evs))
             /\ i_size (inf m') = add_sizes 0 (map snd (fstat_oks evs))
             /\ b_seekable (sys m') && (i_size (inf m') =? 0) = false
       | VLC_EGENERIC =>
           exists c,
             file_cat = Some c
             /\ fds_closed evs ≡ₚ fds_opened evs
             /\ (existsb open_fault evs = true
                 \/ (existsb open_fault evs = false
                     /\ length (fstat_oks evs) = Z.to_nat (files_asked c)
                     /\ standard_mode (psz_access (acc m))
                        && forallb seekable_file (map snd (fstat_oks evs))
                        && (add_sizes 0 (map snd (fstat_oks evs)) =? 0) = true))
       end.
Proof.
  unfold Open. intros Hrun.
  pose proof (do_alloc_spec m) as [Ha0 Ht0].
  destruct (do_alloc m) as [ok m0]. cbn [fst snd] in *.
  destruct ok; cbn [negb] in Hrun;
    [|inversion Hrun; subst; exists []; now rewrite Ht0, app_nil_r].
  destruct file_cat as [c|];
    [|inversion Hrun; subst; exists []; st_simpl; now rewrite Ht0, app_nil_r].
  fold (files_asked c) in Hrun.
  set (n := files_asked c) in *.
  set (m1 := set_acc _ m0) in Hrun.
  set (m2 := set_acc (set_sys (with_filec n)) m1) in Hrun.
  pose proof (do_alloc_spec m2) as [Ha3 Ht3].
  destruct (do_alloc m2) as [ok1 m3]. cbn [fst snd] in *.
  destruct ok1; cbn [negb] in Hrun;
    [|inversion Hrun; subst; exists []; rewrite Ht3; unfold m2, m1; st_simpl;
      now rewrite Ht0, app_nil_r].
  set (m4 := set_acc (set_sys (with_filev (replicate (Z.to_nat n) 0))) m3) in Hrun.
  pose proof (do_alloc_spec m4) as [Ha5 Ht5].
  destruct (do_alloc m4) as [ok2 m5]. cbn [fst snd] in *.
  destruct ok2; cbn [negb] in Hrun;
    [|inversion Hrun; subst; exists []; rewrite Ht5; unfold m4; st_simpl;
      rewrite Ht3; unfold m2, m1; st_simpl; now rewrite Ht0, app_nil_r].
  set (m6 := set_acc (set_sys (with_sizev (replicate (Z.to_nat n) 0))) m5) in Hrun.
  assert (Hn : 0 <= n < 2 ^ 32).
  { unfold n, files_asked. destruct (String.eqb c ""); [lia|].
    unfold wrap_uint. apply Z.mod_pos_bound. lia. }
  assert (Hsys6 : filev (sys m6) = replicate (Z.to_nat n) 0
                  /\ sizev (sys m6) = replicate (Z.to_nat n) 0
                  /\ filec (sys m6) = n
                  /\ b_seekable (sys m6) = standard_mode (psz_access (acc m))
                  /\ i_size (inf m6) = 0
                  /\ psz_access (acc m6) = psz_access (acc m)
                  /\ trace m6 = trace m).
  { unfold m6. st_simpl. rewrite ?(sys_of_acc _ _ Ha5), ?(inf_of_acc _ _ Ha5), ?Ha5, ?Ht5.
    unfold m4. st_simpl. rewrite ?(sys_of_acc _ _ Ha3), ?(inf_of_acc _ _ Ha3), ?Ha3, ?Ht3.
    unfold m2, m1. st_simpl. rewrite ?Ha0, ?Ht0.
    unfold sys, inf. rewrite !acc_set_acc, Ha0. repeat split. }
  destruct Hsys6 as (Hfv6 & Hsv6 & Hfc6 & Hsk6 & Hsz6 & Hac6 & Htr6).
  clearbody m6. clear m1 m2 m4 Ha3 Ht3 Ha5 Ht5 Ha0 Ht0.
  destruct (open_files (Z.to_nat n) 0 (Some c) _ m6) as [[st7 m7]| | | |] eqn:Hloop;
    try discriminate.
  cbn in Hrun.
  apply open_files_spec in Hloop as (evs & Htr7 & Hac7 & Hres);
    [|lia|rewrite Hfv6, length_replicate; simpl; lia
     |rewrite Hsv6, length_replicate; simpl; lia|lia].
  change (Z.to_nat 0) with 0%nat in Hres. rewrite !take_0 in Hres.
  cbn [app Nat.add] in Hres.
  destruct st7.
  - destruct Hres as (Hf & Hc & Ho & Hl & Hfv & Hsv & Hfc & Hsk & Hsz).
    rewrite drop_ge, app_nil_r in Hfv by (rewrite Hfv6, length_replicate; lia).
    rewrite drop_ge, app_nil_r in Hsv by (rewrite Hsv6, length_replicate; lia).
    rewrite Hsk6 in Hsk. rewrite Hsz6 in Hsz.
    destruct (b_seekable (sys m7) && (i_size (inf m7) =? 0)) eqn:Hempty.
    + destruct (Close_spec (msg_Err MsgFileIsEmpty m7)) as (m8 & Hcl & _ & Htr8).
      { st_simpl. lia. }
      { st_simpl. rewrite Hfc, Hfc6, Hfv, length_map, Hl. lia. }
      rewrite Hcl in Hrun. cbn in Hrun. inversion Hrun; subst st m'.
      st_simpl. rewrite Hfc, Hfc6, Hfv in Htr8.
      rewrite take_ge in Htr8 by (rewrite length_map; lia).
      exists (evs ++ [EvErr MsgFileIsEmpty] ++ map EvClose (map fst (fstat_oks evs))).
      split; [rewrite Htr8, Htr7, Htr6; now rewrite <- !app_assoc|].
      exists c. split; [reflexivity|].
      rewrite !fds_closed_app, !fds_opened_app, !existsb_app, !fstat_oks_app.
      rewrite fds_closed_closes, fds_opened_closes, open_fault_closes, fstat_oks_closes.
      rewrite Hc, Ho, Hf. cbn [app fds_closed fds_opened fstat_oks omap closed_fd opened_fd
                               fstat_ok existsb open_fault open_refused fstat_refused
                               found_directory orb].
      rewrite !app_nil_r. split; [reflexivity|]. right.
      repeat split; [exact Hl|]. rewrite <- Hsk, <- Hsz. exact Hempty.
    + inversion Hrun; subst st m'.
      exists evs. split; [now rewrite Htr7, Htr6|].
      exists c. repeat split; try assumption; try congruence.
      now rewrite Hfc, Hfc6.
  - destruct Hres.
  - destruct Hres as (Hf & Hperm). inversion Hrun; subst st m'.
    exists evs. split; [now rewrite Htr7, Htr6|].
    exists c. repeat split; [exact Hperm|now left].
Qed.

Lemma open_fault_split (l : list event) :
  existsb open_fault l
  = existsb open_refused l || existsb fstat_refused l || existsb found_directory l.
Proof.
  induction l as [|e l IH]; [reflexivity|].
  cbn [existsb]. rewrite IH. unfold open_fault.
  destruct (open_refused e), (fstat_refused e), (found_directory e),
    (existsb open_refused l), (existsb fstat_refused l), (existsb found_directory l);
    reflexivity.
Qed.

Lemma count_files_bounds (fuel : nat) :
  forall (ptr : option string) (n : Z),
    n <= count_files fuel ptr n <= n + Z.of_nat fuel.
Proof.
  induction fuel as [|fuel IH]; intros ptr n; [simpl; lia|].
  destruct ptr as [s|]; [|simpl; lia].
  cbn [count_files]. specialize (IH (after_comma s) (n + 1)). lia.
Qed.

Lemma files_asked_pos (c : string) :
  Z.of_nat (String.length c) + 2 < 2 ^ 32 -> 1 <= files_asked c.
Proof.
  intros Hlen. unfold files_asked. destruct (String.eqb c ""); [lia|].
  pose proof (count_files_bounds (S (String.length c)) (Some c) 1) as Hb.
  rewrite wrap_uint_id; [lia|]. unfold in_uint. lia.
Qed.

Lemma forallb_seekable (l : list (Z * stat)) :
  forallb seekable_file (map snd l) = true
  <-> Forall (fun p => seekable_file (snd p) = true) l.
Proof.
  induction l as [|p l IH]; cbn.
  - split; [constructor|reflexivity].
  - rewrite andb_true_iff, IH. split.
    + intros [? ?]. now constructor.
    + inversion 1; subst. now split.
Qed.

(** C4.  After a successful [Open] the stats that [fstat] gave are those
    of the descriptors of the stream, and the stream is marked seekable
    exactly when the access name is neither "stream" nor "kfir" and each
    of these files is a regular file, a block device, or a character
    device whose size is not zero; [ACCESS_CAN_SEEK] and
    [ACCESS_CAN_FASTSEEK] both answer with the flag. *)
Theorem Open_seekable_flag (file_cat : option string) (file_caching : Z) (m m' : machine W) :
  Open file_cat m = Done (VLC_SUCCESS, m') ->
  exists evs,
    trace m' = trace m ++ evs
    /\ map fst (fstat_oks evs) = filev (sys m')
    /\ (b_seekable (sys m') = true <->
        standard_mode (psz_access (acc m)) = true
        /\ Forall (fun p => seekable_file (snd p) = true) (fstat_oks evs))
    /\ Control file_caching ACCESS_CAN_SEEK m'
       = (VLC_SUCCESS, CtlBool (b_seekable (sys m')), m')
    /\ Control file_caching ACCESS_CAN_FASTSEEK m'
       = (VLC_SUCCESS, CtlBool (b_seekable (sys m')), m').
Proof.
  intros Hrun.
  apply Open_spec in Hrun
    as (evs & Htr & c & _ & _ & _ & _ & _ & Hfv & _ & _ & Hsk & _).
  exists evs. split; [exact Htr|]. split; [now rewrite Hfv|].
  split; [|split; reflexivity].
  rewrite Hsk, andb_true_iff, forallb_seekable. reflexivity.
Qed.

(** C5, amended.  [Open] returns [VLC_EGENERIC] exactly when a path
    could not be opened, or [fstat] failed on a descriptor, or [fstat]
    found a directory, or all files were opened and the stream is
    seekable with a total size of zero.  Whenever [Open] does not
    succeed, the descriptors it closed are the descriptors it opened, the
    one of the directory included. *)
Theorem Open_failure_causes (file_cat : option string) (m m' : machine W) (st : vlc_status) :
  (forall c, file_cat = Some c -> Z.of_nat (String.length c) + 2 < 2 ^ 32) ->
  Open file_cat m = Done (st, m') ->
  exists evs,
    trace m' = trace m ++ evs
    /\ (st = VLC_EGENERIC <->
        existsb open_refused evs = true
        \/ existsb fstat_refused evs = true
        \/ existsb found_directory evs = true
        \/ (exists c,
              file_cat = Some c
              /\ length (fstat_oks evs) = Z.to_nat (files_asked c)
              /\ standard_mode (psz_access (acc m)) = true
              /\ Forall (fun p => seekable_file (snd p) = true) (fstat_oks evs)
              /\ add_sizes 0 (map snd (fstat_oks evs)) = 0))
    /\ (st <> VLC_SUCCESS -> fds_closed evs ≡ₚ fds_opened evs).
Proof.
  intros Hlen Hrun.
  apply Open_spec in Hrun as (evs & Htr & Hres).
  exists evs. split; [exact Htr|].
  destruct st.
  - (* success *)
    destruct Hres as (c & Hc & Hf & _ & _ & Hl & _ & _ & _ & Hsk & Hsz & Hne).
    rewrite open_fault_split in Hf.
    apply orb_false_elim in Hf as [Hf Hf3]. apply orb_false_elim in Hf as [Hf1 Hf2].
    split; [|congruence]. split; [discriminate|].
    intros [H1|[H2|[H3|(c' & Hc' & _ & Hstd & Hall & Hzero)]]]; try congruence.
    apply forallb_seekable in Hall.
    rewrite Hsk, Hsz, Hstd, Hall, Hzero in Hne. discriminate.
  - (* no memory *)
    subst evs. split; [|reflexivity]. split; [discriminate|].
    intros [H1|[H2|[H3|(c & Hc & Hl & _)]]]; try discriminate.
    pose proof (files_asked_pos c (Hlen c Hc)). cbn in Hl. lia.
  - (* failure *)
    destruct Hres as (c & Hc & Hperm & Hcause).
    split; [|intros _; exact Hperm]. split; [|reflexivity]. intros _.
    destruct Hcause as [Hf|(_ & Hl & Hempty)].
    + rewrite open_fault_split in Hf.
      apply orb_true_iff in Hf as [Hf|Hf]; [|auto].
      apply orb_true_iff in Hf as [Hf|Hf]; auto.
    + right. right. right. exists c.
      apply andb_true_iff in Hempty as [Hempty Hzero].
      apply andb_true_iff in Hempty as [Hstd Hall].
      apply forallb_seekable in Hall. apply Z.eqb_eq in Hzero. auto.
Qed.

(** ** The calls return *)

Lemma count_files_shift (fuel : nat) :
  forall (ptr : option string) (n k : Z),
    count_files fuel ptr (n + k) = count_files fuel ptr n + k.
Proof.
  induction fuel as [|fuel IH]; intros ptr n k; [reflexivity|].
  destruct ptr as [s|]; [|reflexivity].
  cbn [count_files]. replace (n + k + 1) with (n + 1 + k) by lia. apply IH.
Qed.

(** The loop of [Open] that counts the names never counts more names
    than the list holds. *)
Lemma names_left_count (fuel : nat) :
  forall ptr : option string,
    names_left ptr (Z.to_nat (count_files fuel ptr 0)).
Proof.
  induction fuel as [|fuel IH]; intros ptr; [exact I|].
  destruct ptr as [s|]; [|exact I].
  cbn [count_files]. rewrite (count_files_shift fuel (after_comma s) 0 1).
  pose proof (count_files_bounds fuel (after_comma s) 0) as Hb.
  replace (Z.to_nat (count_files fuel (after_comma s) 0 + 1))
    with (S (Z.to_nat (count_files fuel (after_comma s) 0))) by lia.
  cbn [names_left]. apply IH.
Qed.

Lemma open_files_returns :
  forall (n : nat) (i : Z) (filename : option string) (b_stdin : bool) (m : machine W),
    0 <= i ->
    (Z.to_nat i + n <= length (filev (sys m)))%nat ->
    (Z.to_nat i + n <= length (sizev (sys m)))%nat ->
    i + Z.of_nat n < 2 ^ 32 ->
    names_left filename (if i =? 0 then Nat.pred n else n) ->
    exists st m', open_files n i filename b_stdin m = Done (st, m').
Proof.
  induction n as [|n IH]; intros i filename b_stdin m Hi Hlv Hls Hmax Hnames.
  - cbn. eauto.
  - cbn [open_files].
    assert (Ha : exists fd filename' m1,
               acquire_fd i filename b_stdin m = Done (fd, filename', m1)
               /\ names_left filename' n).
    { unfold acquire_fd. destruct (Z.eqb_spec i 0) as [->|Hne].
      - cbn [Nat.pred] in Hnames.
        destruct b_stdin; [destruct (do_dup 0 _)|destruct (open_file _ _)]; eauto.
      - destruct filename as [s|]; [|destruct Hnames].
        cbn [names_left] in Hnames. destruct (open_file _ _). eauto. }
    destruct Ha as (fd & filename' & m1 & Ha & Hleft). rewrite Ha. cbn.
    destruct (acquire_fd_spec _ _ _ _ _ _ _ Ha) as (_ & Hacc1 & _).
    destruct (probe_fd_spec fd m1) as (_ & Hacc2 & _).
    destruct (probe_fd fd m1) as [probed m2]. cbn [fst snd] in *.
    destruct probed as [[fd' stt]|].
    + destruct (record_file i fd' stt m2) as [m3| | | |] eqn:Hrec.
      2-5: unfold record_file in Hrec;
        rewrite (sys_of_acc _ _ Hacc2), (sys_of_acc _ _ Hacc1) in Hrec;
        (destruct (Nat.ltb_spec (Z.to_nat i) (length (filev (sys m)))); [|lia]);
        (destruct (Nat.ltb_spec (Z.to_nat i) (length (sizev (sys m)))); [|lia]);
        cbn [andb] in Hrec; destruct (unseekable_stat stt); discriminate.
      cbn. apply record_file_spec in Hrec
        as (_ & _ & _ & _ & _ & Hfv3 & Hsv3 & _); [|exact Hi].
      rewrite (wrap_uint_id (i + 1)) by (unfold in_uint; lia).
      apply IH.
      * lia.
      * rewrite Hfv3, length_insert, (sys_of_acc _ _ Hacc2), (sys_of_acc _ _ Hacc1). lia.
      * rewrite Hsv3, length_insert, (sys_of_acc _ _ Hacc2), (sys_of_acc _ _ Hacc1). lia.
      * lia.
      * destruct (Z.eqb_spec (i + 1) 0); [lia|exact Hleft].
    + destruct (Close_spec (set_acc (set_sys (with_filec i)) m2)) as (m3 & Hcl & _).
      { st_simpl. lia. }
      { st_simpl. rewrite (sys_of_acc _ _ Hacc2), (sys_of_acc _ _ Hacc1). lia. }
      rewrite Hcl. cbn. eauto.
Qed.

(** [Open] returns, whatever the kernel answers. *)
Lemma Open_returns (file_cat : option string) (m : machine W) :
  (forall c, file_cat = Some c -> Z.of_nat (String.length c) + 2 < 2 ^ 32) ->
  exists st m', Open file_cat m = Done (st, m').
Proof.
  intros Hlen. unfold Open.
  destruct (do_alloc m) as [ok m0]. destruct ok; cbn [negb]; [|eauto].
  destruct file_cat as [c|]; [|eauto].
  specialize (Hlen c eq_refl). fold (files_asked c).
  pose proof (files_asked_pos c Hlen) as Hpos.
  assert (Hn : 0 <= files_asked c < 2 ^ 32).
  { unfold files_asked. destruct (String.eqb c ""); [lia|].
    unfold wrap_uint. apply Z.mod_pos_bound. lia. }
  set (n := files_asked c) in *.
  set (m2 := set_acc (set_sys (with_filec n)) _).
  pose proof (do_alloc_spec m2) as [Ha3 _].
  destruct (do_alloc m2) as [ok1 m3]. cbn [fst snd] in *.
  destruct ok1; cbn [negb]; [|eauto].
  set (m4 := set_acc (set_sys (with_filev (replicate (Z.to_nat n) 0))) m3).
  pose proof (do_alloc_spec m4) as [Ha5 _].
  destruct (do_alloc m4) as [ok2 m5]. cbn [fst snd] in *.
  destruct ok2; cbn [negb]; [|eauto].
  set (m6 := set_acc (set_sys (with_sizev (replicate (Z.to_nat n) 0))) m5).
  assert (Hsys6 : filev (sys m6) = replicate (Z.to_nat n) 0
                  /\ sizev (sys m6) = replicate (Z.to_nat n) 0
                  /\ filec (sys m6) = n).
  { unfold m6. st_simpl. rewrite ?(sys_of_acc _ _ Ha5).
    unfold m4. st_simpl. rewrite ?(sys_of_acc _ _ Ha3).
    unfold m2. st_simpl. repeat split. }
  destruct Hsys6 as (Hfv6 & Hsv6 & Hfc6). clearbody m6.
  destruct (open_files_returns (Z.to_nat n) 0 (Some c) (String.eqb (psz_path (acc m)) "-") m6)
    as (st7 & m7 & Hloop).
  - lia.
  - rewrite Hfv6, length_replicate. simpl. lia.
  - rewrite Hsv6, length_replicate. simpl. lia.
  - lia.
  - cbn [Z.eqb]. unfold n, files_asked.
    destruct (String.eqb c ""); [exact I|].
    pose proof (count_files_bounds (S (String.length c)) (Some c) 0) as Hb0.
    replace (count_files (S (String.length c)) (Some c) 1)
      with (count_files (S (String.length c)) (Some c) 0 + 1)
      by (now rewrite <- count_files_shift).
    rewrite wrap_uint_id by (unfold in_uint; lia).
    replace (Nat.pred (Z.to_nat (count_files (S (String.length c)) (Some c) 0 + 1)))
      with (Z.to_nat (count_files (S (String.length c)) (Some c) 0)) by lia.
    apply names_left_count.
  - rewrite Hloop. cbn.
    destruct st7; eauto.
    destruct (b_seekable (sys m7) && (i_size (inf m7) =? 0)); [|eauto].
    apply open_files_spec in Hloop as (evs & _ & _ & Hres);
      [|lia|rewrite Hfv6, length_replicate; simpl; lia
       |rewrite Hsv6, length_replicate; simpl; lia|lia].
    destruct Hres as (_ & _ & _ & Hl & Hfv & _ & Hfc & _).
    destruct (Close_spec (msg_Err MsgFileIsEmpty m7)) as (m8 & Hcl & _).
    + st_simpl. lia.
    + st_simpl. rewrite Hfc, Hfc6, Hfv, !length_app, length_map, Hl. cbn. lia.
    + rewrite Hcl. cbn. eauto.
Qed.

(** ** Runs of Read *)

(** Every call of [Read] that returns is a run. *)
Lemma Read_rec_run (fuel : nat) (len : Z) :
  forall (depth : nat) (m : machine W) (res : Z * list Byte.byte * machine W),
    Read_rec depth fuel len m = Done res -> Read_run fuel len m res.
Proof.
  induction depth as [|depth IH]; intros m res Hrun; [discriminate|].
  destruct (filev (sys m) !! Z.to_nat (filep (sys m))) as [fd|] eqn:Hfd;
    [|cbn [Read_rec] in Hrun; rewrite Hfd in Hrun; discriminate].
  destruct (read_strategy fuel fd len m) as [[[r|] m1]| | | |] eqn:Hs;
    try (cbn [Read_rec] in Hrun; rewrite Hfd, Hs in Hrun; discriminate).
  - destruct (track_size fd (count_read (after_failed_read r m1))) as [m4| | | |] eqn:Ht;
      try (cbn [Read_rec] in Hrun; rewrite Hfd, Hs in Hrun; cbn in Hrun;
           rewrite Ht in Hrun; discriminate).
    rewrite (Read_rec_step _ _ _ _ _ _ _ _ Hfd Hs Ht) in Hrun.
    destruct (Z.eqb_spec (read_ret r) 0) as [Hr|Hr].
    + destruct (Z.ltb_spec (wrap_uint (filep (sys m4) + 1)) (filec (sys m4))) as [Hn|Hl].
      * eapply run_next; eauto.
      * inversion Hrun; subst res. eapply run_last; eauto.
    + inversion Hrun; subst res. eapply run_given; eauto.
  - cbn [Read_rec] in Hrun. rewrite Hfd, Hs in Hrun. cbn in Hrun.
    inversion Hrun; subst res. eapply run_stopped; eauto.
Qed.

Lemma Read_run_of_Read (fuel : nat) (len : Z) (m : machine W)
    (res : Z * list Byte.byte * machine W) :
  Read fuel len m = Done res -> Read_run fuel len m res.
Proof. apply Read_rec_run. Qed.

(** What the look at the size can do to the access object. *)
Lemma track_size_cases (fd : Z) (m m' : machine W) :
  track_size fd m = Done m' ->
  world m' = world m
  /\ (trace m' = trace m \/ exists r, trace m' = trace m ++ [EvFstat fd r])
  /\ (acc m' = acc m
      \/ exists st old,
           sizev (sys m) !! Z.to_nat (filep (sys m)) = Some old
           /\ old <> st_size st
           /\ i_size (inf m) <> 0
           /\ acc m'
              = set_info (with_i_update (Z.lor (i_update (inf m)) INPUT_UPDATE_SIZE))
                  (set_sys (with_sizev (<[Z.to_nat (filep (sys m)) := st_size st]> (sizev (sys m))))
                     (set_info (with_i_size
                                  (wrap_int64 (i_size (inf m) + wrap_int64 (st_size st - old))))
                        (acc m)))).
Proof.
  unfold track_size, do_fstat. intros Hrun.
  destruct (Z.eqb_spec (i_size (inf m)) 0) as [Hz|Hz]; cbn [negb andb] in Hrun.
  { inversion Hrun; subst. auto. }
  destruct (_ =? 0).
  - destruct (sys_fstat fd (world m)) as [st|].
    + st_simpl.
      destruct (sizev (sys m) !! Z.to_nat (filep (sys m))) as [old|] eqn:Hold; [|discriminate].
      destruct (Z.eqb_spec old (st_size st)); inversion Hrun; subst; st_simpl.
      * split; [reflexivity|]. split; [right; eauto|]. now left.
      * split; [reflexivity|]. split; [right; eauto|]. right.
        exists st, old. repeat split; assumption.
    + inversion Hrun; subst. st_simpl. split; [reflexivity|]. split; [right; eauto|]. now left.
  - inversion Hrun; subst. auto.
Qed.

(** The access object after the bookkeeping that follows a [read]: the
    counter is one more, and the size may have been brought up to date. *)
Lemma bookkeeping_acc (fd : Z) (r : read_result) (m m1 m4 : machine W) :
  acc m1 = acc m ->
  track_size fd (count_read (after_failed_read r m1)) = Done m4 ->
  let a := set_sys (with_i_nb_reads (wrap_uint (i_nb_reads (sys m) + 1))) (acc m) in
  world m4 = world (after_failed_read r m1)
  /\ (acc m4 = a
      \/ exists st old,
           sizev (sys m) !! Z.to_nat (filep (sys m)) = Some old
           /\ old <> st_size st
           /\ i_size (inf m) <> 0
           /\ acc m4
              = set_info (with_i_update (Z.lor (i_update (inf m)) INPUT_UPDATE_SIZE))
                  (set_sys (with_sizev (<[Z.to_nat (filep (sys m)) := st_size st]> (sizev (sys m))))
                     (set_info (with_i_size
                                  (wrap_int64 (i_size (inf m) + wrap_int64 (st_size st - old))))
                        a))).
Proof.
  intros Hacc Ht a.
  apply track_size_cases in Ht as (Hw & _ & Hcase).
  assert (Ha : acc (count_read (after_failed_read r m1)) = a).
  { unfold count_read, a. st_simpl.
    now rewrite (sys_of_acc _ _ (after_failed_read_acc _ _)), (sys_of_acc _ _ Hacc),
      after_failed_read_acc, Hacc. }
  assert (Hs : sys (count_read (after_failed_read r m1))
               = with_i_nb_reads (wrap_uint (i_nb_reads (sys m) + 1)) (sys m)).
  { unfold sys at 1. now rewrite Ha. }
  assert (Hi : inf (count_read (after_failed_read r m1)) = inf m).
  { unfold inf at 1. now rewrite Ha. }
  split; [exact Hw|].
  destruct Hcase as [Hsame|(st & old & Hold & Hne & Hz & Hch)].
  - left. congruence.
  - right. exists st, old. rewrite Hs in Hold, Hch. rewrite Hi in Hz, Hch.
    rewrite Ha in Hch. cbn in Hold. repeat split; assumption.
Qed.

Lemma bookkeeping_fields (fd : Z) (r : read_result) (m m1 m4 : machine W) :
  acc m1 = acc m ->
  track_size fd (count_read (after_failed_read r m1)) = Done m4 ->
  filep (sys m4) = filep (sys m)
  /\ filec (sys m4) = filec (sys m)
  /\ filev (sys m4) = filev (sys m)
  /\ length (sizev (sys m4)) = length (sizev (sys m))
  /\ b_seekable (sys m4) = b_seekable (sys m)
  /\ b_pace_control (sys m4) = b_pace_control (sys m)
  /\ b_kfir (sys m4) = b_kfir (sys m)
  /\ i_pos (inf m4) = i_pos (inf m)
  /\ b_eof (inf m4) = b_eof (inf m)
  /\ i_nb_reads (sys m4) = wrap_uint (i_nb_reads (sys m) + 1)
  /\ world m4 = world (after_failed_read r m1).
Proof.
  intros Hacc Ht.
  destruct (bookkeeping_acc _ _ _ _ _ Hacc Ht) as (Hw & [Ha|(st & old & _ & _ & _ & Ha)]);
    unfold sys, inf; rewrite Ha; cbn; rewrite ?length_insert; repeat split; exact Hw.
Qed.

Lemma finish_read_fields (r : read_result) (m : machine W) :
  sys (snd (finish_read r m)) = sys m
  /\ i_size (inf (snd (finish_read r m))) = i_size (inf m)
  /\ i_update (inf (snd (finish_read r m))) = i_update (inf m)
  /\ world (snd (finish_read r m)) = world m
  /\ trace (snd (finish_read r m)) = trace m.
Proof.
  unfold finish_read. cbn [snd].
  destruct (0 <? read_ret r); [repeat split|].
  destruct (read_ret r =? 0); repeat split.
Qed.

(** ** Read: what the caller gets *)

(** X1.  A call of [Read] returns -1, 0 or a positive count.  A positive
    count is the number of bytes given, and the position moves on by it
    (in 64-bit arithmetic) while the end-of-file flag stays; otherwise no
    byte is given and the position stays.  After -1 the flag is as it was. *)
Theorem Read_position_accounting (fuel : nat) (len ret : Z) (bs : list Byte.byte)
    (m m' : machine W) :
  Read fuel len m = Done (ret, bs, m') ->
  -1 <= ret
  /\ (0 < ret ->
      ret = Z.of_nat (length bs)
      /\ i_pos (inf m') = wrap_int64 (i_pos (inf m) + ret)
      /\ b_eof (inf m') = b_eof (inf m))
  /\ (ret <= 0 -> bs = [] /\ i_pos (inf m') = i_pos (inf m))
  /\ (ret < 0 -> ret = -1 /\ b_eof (inf m') = b_eof (inf m)).
Proof.
  intros Hrun. apply Read_run_of_Read in Hrun.
  remember (ret, bs, m') as res eqn:Hres.
  revert ret bs m' Hres.
  induction Hrun as [m m1 fd Hfd Hs
                    |m m1 m4 fd r res Hfd Hs Ht Hr Hlt Hrun IH
                    |m m1 m4 fd r Hfd Hs Ht Hr Hge
                    |m m1 m4 fd r Hfd Hs Ht Hr];
    intros ret bs m' Hres.
  - inversion Hres; subst. apply read_strategy_none in Hs as (Hacc & _).
    rewrite (inf_of_acc _ _ Hacc). repeat split; lia.
  - pose proof (read_strategy_some _ _ _ _ _ _ Hs) as [Hacc _].
    destruct (bookkeeping_fields _ _ _ _ _ Hacc Ht)
      as (_ & _ & _ & _ & _ & _ & _ & Hpos & Heof & _).
    specialize (IH ret bs m' Hres). st_simpl. rewrite Hpos, Heof in IH. exact IH.
  - pose proof (read_strategy_some _ _ _ _ _ _ Hs) as [Hacc _].
    destruct (bookkeeping_fields _ _ _ _ _ Hacc Ht)
      as (_ & _ & _ & _ & _ & _ & _ & Hpos & Heof & _).
    unfold finish_read in Hres. rewrite Hr in Hres. cbn in Hres.
    destruct r as [data|]; [|discriminate]. destruct data; [|discriminate].
    inversion Hres; subst. st_simpl. rewrite Hpos. repeat split; lia.
  - pose proof (read_strategy_some _ _ _ _ _ _ Hs) as [Hacc _].
    destruct (bookkeeping_fields _ _ _ _ _ Hacc Ht)
      as (_ & _ & _ & _ & _ & _ & _ & Hpos & Heof & _).
    unfold finish_read in Hres.
    destruct r as [data|e]; cbn [read_ret read_data] in *.
    + destruct (Z.ltb_spec 0 (Z.of_nat (length data))); [|lia].
      inversion Hres; subst. st_simpl. rewrite Hpos, Heof. repeat split; lia.
    + cbn in Hres. inversion Hres; subst. rewrite Hpos, Heof. repeat split; lia.
Qed.

(** X2.  A call of [Read] that starts with the current file inside the
    table leaves the number of files, the descriptors, the length of the
    size table and the three mode flags as they were, and the current
    file where it was or further on, still inside the table. *)
Theorem Read_keeps_stream_shape (fuel : nat) (len ret : Z) (bs : list Byte.byte)
    (m m' : machine W) :
  0 <= filep (sys m) < filec (sys m) ->
  filec (sys m) < 2 ^ 32 ->
  Read fuel len m = Done (ret, bs, m') ->
  filec (sys m') = filec (sys m)
  /\ filev (sys m') = filev (sys m)
  /\ length (sizev (sys m')) = length (sizev (sys m))
  /\ b_seekable (sys m') = b_seekable (sys m)
  /\ b_pace_control (sys m') = b_pace_control (sys m)
  /\ b_kfir (sys m') = b_kfir (sys m)
  /\ filep (sys m) <= filep (sys m') < filec (sys m).
Proof.
  intros Hp Hc Hrun. apply Read_run_of_Read in Hrun.
  remember (ret, bs, m') as res eqn:Hres.
  revert ret bs m' Hres Hp Hc.
  induction Hrun as [m m1 fd Hfd Hs
                    |m m1 m4 fd r res Hfd Hs Ht Hr Hlt Hrun IH
                    |m m1 m4 fd r Hfd Hs Ht Hr Hge
                    |m m1 m4 fd r Hfd Hs Ht Hr];
    intros ret bs m' Hres Hp Hc.
  - inversion Hres; subst. apply read_strategy_none in Hs as (Hacc & _).
    rewrite (sys_of_acc _ _ Hacc). repeat split; lia.
  - pose proof (read_strategy_some _ _ _ _ _ _ Hs) as [Hacc _].
    destruct (bookkeeping_fields _ _ _ _ _ Hacc Ht)
      as (Hfp & Hfc & Hfv & Hlen & Hsk & Hpc & Hkf & _).
    rewrite Hfp, Hfc in Hlt.
    rewrite (wrap_uint_id (filep (sys m) + 1)) in Hlt by (unfold in_uint; lia).
    specialize (IH ret bs m' Hres). st_simpl.
    rewrite Hfp, Hfc, Hfv, Hlen, Hsk, Hpc, Hkf in IH.
    rewrite (wrap_uint_id (filep (sys m) + 1)) in IH by (unfold in_uint; lia).
    destruct IH as (H1 & H2 & H3 & H4 & H5 & H6 & H7); [lia|lia|].
    repeat split; try assumption; lia.
  - pose proof (read_strategy_some _ _ _ _ _ _ Hs) as [Hacc _].
    destruct (bookkeeping_fields _ _ _ _ _ Hacc Ht)
      as (Hfp & Hfc & Hfv & Hlen & Hsk & Hpc & Hkf & _).
    match type of Hres with
    | finish_read ?r ?x = _ =>
        destruct (finish_read_fields r x) as (Hsys & _);
        rewrite Hres in Hsys; cbn [snd] in Hsys
    end.
    rewrite Hsys. st_simpl. rewrite Hfp, Hfc, Hfv, Hlen, Hsk, Hpc, Hkf.
    rewrite (wrap_uint_id (filep (sys m) + 1)) by (unfold in_uint; lia).
    replace (filep (sys m) + 1 - 1) with (filep (sys m)) by lia.
    rewrite wrap_uint_id by (unfold in_uint; lia).
    repeat split; lia.
  - pose proof (read_strategy_some _ _ _ _ _ _ Hs) as [Hacc _].
    destruct (bookkeeping_fields _ _ _ _ _ Hacc Ht)
      as (Hfp & Hfc & Hfv & Hlen & Hsk & Hpc & Hkf & _).
    destruct (finish_read_fields r m4) as (Hsys & _).
    rewrite Hres in Hsys. cbn [snd] in Hsys.
    rewrite Hsys, Hfp, Hfc, Hfv, Hlen, Hsk, Hpc, Hkf. repeat split; lia.
Qed.

(** ** Read: what it does to the outside *)

Lemma existsb_lookup (fds : list Z) (i : nat) (fd : Z) :
  fds !! i = Some fd -> existsb (Z.eqb fd) fds = true.
Proof.
  revert i. induction fds as [|x fds IH]; intros [|i] Hfd; try discriminate; cbn in *.
  - inversion Hfd; subst. now rewrite Z.eqb_refl.
  - rewrite (IH i Hfd). apply orb_true_r.
Qed.

Lemma poll_wait_events (fds : list Z) (fuel : nat) (fd : Z) :
  existsb (Z.eqb fd) fds = true ->
  forall (m m1 : machine W) (b : bool),
    poll_wait fuel fd m = Done (b, m1) ->
    exists evs, trace m1 = trace m ++ evs /\ forallb (read_event_on fds) evs = true.
Proof.
  intros Hin.
  induction fuel as [|fuel IH]; intros m m1 b Hrun; simpl in Hrun; [discriminate|].
  destruct (sys_die (world m)).
  - inversion Hrun; subst. exists []. now rewrite app_nil_r.
  - unfold do_poll in Hrun. destruct (sys_poll fd 500 (world m)) as [r w].
    destruct (r <=? 0).
    + apply IH in Hrun as (evs & Htr & Hev).
      exists (EvPoll fd r :: evs). rewrite Htr. cbn. rewrite Hin, Hev.
      now rewrite <- app_assoc.
    + inversion Hrun; subst. exists [EvPoll fd r]. cbn. now rewrite Hin.
Qed.

Lemma kfir_read_events (fds : list Z) (fuel : nat) (fd len : Z) :
  existsb (Z.eqb fd) fds = true ->
  forall (m m1 : machine W) (r : read_result),
    kfir_read fuel fd len m = Done (r, m1) ->
    exists evs, trace m1 = trace m ++ evs /\ forallb (read_event_on fds) evs = true.
Proof.
  intros Hin.
  induction fuel as [|fuel IH]; intros m m1 r Hrun; simpl in Hrun; [discriminate|].
  unfold do_read in Hrun. destruct (sys_read fd len (world m)) as [r0 w].
  destruct ((read_ret r0 =? 0) && negb (sys_die _)).
  - apply IH in Hrun as (evs & Htr & Hev).
    exists ([EvRead fd len (read_ret r0); EvMsleep INPUT_ERROR_SLEEP] ++ evs).
    rewrite Htr. cbn. rewrite Hin, Hev. now rewrite <- !app_assoc.
  - inversion Hrun; subst. exists [EvRead fd len (read_ret r)]. cbn. now rewrite Hin.
Qed.

Lemma read_strategy_events (fds : list Z) (fuel : nat) (fd len : Z)
    (m m1 : machine W) (o : option read_result) :
  existsb (Z.eqb fd) fds = true ->
  read_strategy fuel fd len m = Done (o, m1) ->
  exists evs, trace m1 = trace m ++ evs /\ forallb (read_event_on fds) evs = true.
Proof.
  unfold read_strategy. intros Hin Hrun.
  destruct (b_pace_control (sys m)); cbn [negb] in Hrun.
  - pose proof (do_read_acc fd len m) as [_ Htr].
    destruct (do_read fd len m) as [r0 m0]. inversion Hrun; subst.
    eexists. split; [exact Htr|]. cbn. now rewrite Hin.
  - destruct (b_kfir (sys m)); cbn [negb] in Hrun.
    + destruct (kfir_read fuel fd len m) as [[r0 m0]| | | |] eqn:Hk; try discriminate.
      cbn in Hrun. inversion Hrun; subst. eapply kfir_read_events; eassumption.
    + destruct (poll_wait fuel fd m) as [[ready m0]| | | |] eqn:Hp; try discriminate.
      cbn in Hrun.
      eapply poll_wait_events in Hp as (evs & Htr0 & Hev); [|exact Hin].
      destruct ready.
      * pose proof (do_read_acc fd len m0) as [_ Htr].
        destruct (do_read fd len m0) as [r0 m2]. inversion Hrun; subst.
        cbn [fst snd] in *.
        exists (evs ++ [EvRead fd len (read_ret r0)]).
        rewrite Htr, Htr0, <- app_assoc. split; [reflexivity|].
        rewrite forallb_app, Hev. cbn. now rewrite Hin.
      * inversion Hrun; subst. eauto.
Qed.

Lemma fatal_reports_events (fds : list Z) (e : errno) :
  forallb (read_event_on fds) (fatal_reports e) = true.
Proof. destruct e; reflexivity. Qed.

Lemma bookkeeping_events (fds : list Z) (fd : Z) (r : read_result) (m1 m4 : machine W) :
  existsb (Z.eqb fd) fds = true ->
  track_size fd (count_read (after_failed_read r m1)) = Done m4 ->
  exists evs, trace m4 = trace m1 ++ evs /\ forallb (read_event_on fds) evs = true.
Proof.
  intros Hin Ht.
  destruct (track_size_cases _ _ _ Ht) as (_ & Htr & _).
  change (trace (count_read (after_failed_read r m1)))
    with (trace (after_failed_read r m1)) in Htr.
  rewrite after_failed_read_trace in Htr.
  assert (Hr : forallb (read_event_on fds)
                 match r with
                 | RdBytes _ => []
                 | RdErr e => fatal_reports e ++ [EvMsleep INPUT_ERROR_SLEEP]
                 end = true).
  { destruct r as [|e]; [reflexivity|].
    rewrite forallb_app, fatal_reports_events. reflexivity. }
  destruct Htr as [Htr|[st Htr]]; rewrite Htr.
  - eauto.
  - rewrite <- app_assoc. eexists. split; [reflexivity|].
    rewrite forallb_app, Hr. cbn. now rewrite Hin.
Qed.

Lemma Read_run_events (fuel : nat) (len : Z) (m : machine W)
    (res : Z * list Byte.byte * machine W) :
  Read_run fuel len m res ->
  exists evs,
    trace (snd res) = trace m ++ evs
    /\ forallb (read_event_on (filev (sys m))) evs = true.
Proof.
  intros Hrun.
  induction Hrun as [m m1 fd Hfd Hs
                    |m m1 m4 fd r res Hfd Hs Ht Hr Hlt Hrun IH
                    |m m1 m4 fd r Hfd Hs Ht Hr Hge
                    |m m1 m4 fd r Hfd Hs Ht Hr];
    pose proof (existsb_lookup _ _ _ Hfd) as Hin;
    destruct (read_strategy_events _ _ _ _ _ _ _ Hin Hs) as (evs1 & Htr1 & Hev1).
  - cbn [snd]. eauto.
  - pose proof (read_strategy_some _ _ _ _ _ _ Hs) as [Hacc _].
    destruct (bookkeeping_fields _ _ _ _ _ Hacc Ht) as (_ & _ & Hfv & _).
    destruct (bookkeeping_events _ _ _ _ _ Hin Ht) as (evs2 & Htr2 & Hev2).
    destruct IH as (evs3 & Htr3 & Hev3). st_simpl.
    rewrite Hfv in Hev3.
    exists (evs1 ++ evs2 ++ evs3).
    rewrite Htr3, Htr2, Htr1, <- !app_assoc. split; [reflexivity|].
    now rewrite !forallb_app, Hev1, Hev2, Hev3.
  - destruct (bookkeeping_events _ _ _ _ _ Hin Ht) as (evs2 & Htr2 & Hev2).
    match goal with
    | |- context [finish_read ?r ?x] =>
        destruct (finish_read_fields r x) as (_ & _ & _ & _ & Htr)
    end.
    st_simpl. exists (evs1 ++ evs2).
    rewrite Htr, Htr2, Htr1, <- !app_assoc. split; [reflexivity|].
    now rewrite !forallb_app, Hev1, Hev2.
  - destruct (bookkeeping_events _ _ _ _ _ Hin Ht) as (evs2 & Htr2 & Hev2).
    destruct (finish_read_fields r m4) as (_ & _ & _ & _ & Htr).
    exists (evs1 ++ evs2).
    rewrite Htr, Htr2, Htr1, <- !app_assoc. split; [reflexivity|].
    now rewrite !forallb_app, Hev1, Hev2.
Qed.

(** X3.  Everything a call of [Read] does to the outside is a [poll], a
    [read] or an [fstat] of a descriptor of its table, a sleep or an error
    report: it opens, duplicates, closes and repositions nothing. *)
Theorem Read_touches_only_its_files (fuel : nat) (len ret : Z) (bs : list Byte.byte)
    (m m' : machine W) :
  Read fuel len m = Done (ret, bs, m') ->
  exists evs,
    trace m' = trace m ++ evs
    /\ forallb (read_event_on (filev (sys m))) evs = true.
Proof.
  intros Hrun. apply Read_run_of_Read in Hrun.
  exact (Read_run_events _ _ _ _ Hrun).
Qed.

(** ** Read: stop requests *)

Lemma read_strategy_none_die (fuel : nat) (fd len : Z) (m m1 : machine W) :
  read_strategy fuel fd len m = Done (None, m1) -> sys_die (world m1) = true.
Proof.
  unfold read_strategy. intros Hrun.
  destruct (b_pace_control (sys m)); cbn [negb] in Hrun.
  - destruct (do_read fd len m). discriminate.
  - destruct (b_kfir (sys m)); cbn [negb] in Hrun.
    + destruct (kfir_read fuel fd len m) as [[r0 m0]| | | |]; discriminate.
    + destruct (poll_wait fuel fd m) as [[ready m0]| | | |] eqn:Hp; try discriminate.
      cbn in Hrun. destruct ready.
      * destruct (do_read fd len m0). discriminate.
      * inversion Hrun; subst. eapply poll_wait_cancelled; exact Hp.
Qed.

Lemma kfir_read_zero (fuel : nat) (fd len : Z) :
  forall (m m1 : machine W) (r : read_result),
    kfir_read fuel fd len m = Done (r, m1) ->
    read_ret r = 0 -> sys_die (world m1) = true.
Proof.
  induction fuel as [|fuel IH]; intros m m1 r Hrun Hr; simpl in Hrun; [discriminate|].
  destruct (do_read fd len m) as [r0 m0].
  destruct (Z.eqb_spec (read_ret r0) 0) as [Hz|Hz]; cbn [andb] in Hrun.
  - destruct (sys_die (world m0)) eqn:Hdie; cbn [negb] in Hrun.
    + inversion Hrun; subst. exact Hdie.
    + eapply IH; eassumption.
  - inversion Hrun; subst. contradiction.
Qed.

Lemma read_strategy_kfir_zero (fuel : nat) (fd len : Z) (m m1 : machine W) (r : read_result) :
  b_pace_control (sys m) = false ->
  b_kfir (sys m) = true ->
  read_strategy fuel fd len m = Done (Some r, m1) ->
  read_ret r = 0 -> sys_die (world m1) = true.
Proof.
  unfold read_strategy. intros -> -> Hrun Hr. cbn [negb] in Hrun.
  destruct (kfir_read fuel fd len m) as [[r0 m0]| | | |] eqn:Hk; try discriminate.
  cbn in Hrun. inversion Hrun; subst. eapply kfir_read_zero; eassumption.
Qed.

Lemma after_failed_read_zero (r : read_result) (m : machine W) :
  read_ret r = 0 -> after_failed_read r m = m.
Proof. destruct r; [reflexivity|discriminate]. Qed.

(** X4.  In the kfir mode a call of [Read] returns 0 only when a stop was
    requested: without it, the call waits for bytes, whatever the number
    of files it goes through. *)
Theorem Read_kfir_zero_only_on_stop (fuel : nat) (len : Z) (bs : list Byte.byte)
    (m m' : machine W) :
  b_pace_control (sys m) = false ->
  b_kfir (sys m) = true ->
  Read fuel len m = Done (0, bs, m') ->
  sys_die (world m') = true.
Proof.
  intros Hpace Hkfir Hrun. apply Read_run_of_Read in Hrun.
  remember (0, bs, m') as res eqn:Hres.
  revert bs m' Hres Hpace Hkfir.
  induction Hrun as [m m1 fd Hfd Hs
                    |m m1 m4 fd r res Hfd Hs Ht Hr Hlt Hrun IH
                    |m m1 m4 fd r Hfd Hs Ht Hr Hge
                    |m m1 m4 fd r Hfd Hs Ht Hr];
    intros bs m' Hres Hpace Hkfir.
  - apply read_strategy_none in Hs as (_ & _ & Hk & _). congruence.
  - pose proof (read_strategy_some _ _ _ _ _ _ Hs) as [Hacc _].
    destruct (bookkeeping_fields _ _ _ _ _ Hacc Ht)
      as (_ & _ & _ & _ & _ & Hpc & Hkf & _).
    apply (IH bs m' Hres); st_simpl; congruence.
  - pose proof (read_strategy_some _ _ _ _ _ _ Hs) as [Hacc _].
    destruct (bookkeeping_fields _ _ _ _ _ Hacc Ht)
      as (_ & _ & _ & _ & _ & _ & _ & _ & _ & _ & Hw).
    rewrite (after_failed_read_zero _ _ Hr) in Hw.
    match type of Hres with
    | finish_read ?r ?x = _ =>
        destruct (finish_read_fields r x) as (_ & _ & _ & Hwf & _);
        rewrite Hres in Hwf; cbn [snd] in Hwf
    end.
    rewrite Hwf. st_simpl. rewrite Hw.
    eapply read_strategy_kfir_zero; eassumption.
  - unfold finish_read in Hres. inversion Hres. contradiction.
Qed.

(** X5.  A call of [Read] that returns without having called [read] was
    stopped while it waited in the polled mode: it returns 0 with no
    byte, the stop flag is set, and the access object is untouched, the
    count of reads included. *)
Theorem Read_without_read_is_stop (fuel : nat) (len ret : Z) (bs : list Byte.byte)
    (m m' : machine W) (evs : list event) :
  Read fuel len m = Done (ret, bs, m') ->
  trace m' = trace m ++ evs ->
  existsb is_read evs = false ->
  ret = 0 /\ bs = [] /\ acc m' = acc m
  /\ sys_die (world m') = true
  /\ b_pace_control (sys m) = false /\ b_kfir (sys m) = false.
Proof.
  intros Hrun Htr Hno. apply Read_run_of_Read in Hrun.
  assert (Hread : forall fd r m1 m4 evs3,
             read_strategy fuel fd len m = Done (Some r, m1) ->
             track_size fd (count_read (after_failed_read r m1)) = Done m4 ->
             filev (sys m) !! Z.to_nat (filep (sys m)) = Some fd ->
             trace m' = trace m4 ++ evs3 -> False).
  { intros fd r m1 m4 evs3 Hs Ht Hfd Hrest.
    destruct (read_strategy_some _ _ _ _ _ _ Hs) as (_ & evs1 & Htr1 & _).
    destruct (bookkeeping_events _ _ _ _ _ (existsb_lookup _ _ _ Hfd) Ht)
      as (evs2 & Htr2 & _).
    rewrite Hrest, Htr2, Htr1, <- !app_assoc in Htr.
    apply app_inv_head in Htr. subst evs.
    rewrite !existsb_app in Hno. cbn in Hno.
    rewrite orb_true_r in Hno. discriminate. }
  remember (ret, bs, m') as res eqn:Hres.
  destruct Hrun as [m m1 fd Hfd Hs
                   |m m1 m4 fd r res Hfd Hs Ht Hr Hlt Hrest
                   |m m1 m4 fd r Hfd Hs Ht Hr Hge
                   |m m1 m4 fd r Hfd Hs Ht Hr].
  - inversion Hres; subst.
    pose proof (read_strategy_none_die _ _ _ _ _ Hs) as Hdie.
    apply read_strategy_none in Hs as (Hacc & Hp & Hk & _). auto 10.
  - exfalso. apply Read_run_events in Hrest as (evs3 & Htr3 & _).
    rewrite Hres in Htr3. cbn [snd] in Htr3. eapply Hread; eauto.
  - exfalso.
    match type of Hres with
    | finish_read ?r ?x = _ =>
        destruct (finish_read_fields r x) as (_ & _ & _ & _ & Htrf);
        rewrite Hres in Htrf; cbn [snd] in Htrf
    end.
    eapply (Hread fd r m1 m4 []); eauto. now rewrite app_nil_r.
  - exfalso.
    destruct (finish_read_fields r m4) as (_ & _ & _ & _ & Htrf).
    rewrite Hres in Htrf. cbn [snd] in Htrf.
    eapply (Hread fd r m1 m4 []); eauto. now rewrite app_nil_r.
Qed.

(** ** Read: the size of the stream *)

Lemma wrap_int64_mod (a : Z) : wrap_int64 a mod 2 ^ 64 = a mod 2 ^ 64.
Proof.
  unfold wrap_int64. rewrite Zminus_mod_idemp_l.
  now replace (a + 2 ^ 63 - 2 ^ 63) with a by (generalize (2 ^ 63); intros; lia).
Qed.

Lemma wrap_int64_eq (a b : Z) : a mod 2 ^ 64 = b mod 2 ^ 64 -> wrap_int64 a = wrap_int64 b.
Proof.
  intros Hab. unfold wrap_int64. f_equal.
  rewrite (Z.add_mod a), (Z.add_mod b), Hab by discriminate. reflexivity.
Qed.

Lemma wrap_int64_eq_mod (a b : Z) : wrap_int64 a = wrap_int64 b -> a mod 2 ^ 64 = b mod 2 ^ 64.
Proof. intros Hab. rewrite <- (wrap_int64_mod a), Hab. apply wrap_int64_mod. Qed.

Lemma sum_sizes_insert (l : list Z) (i : nat) (old new : Z) :
  l !! i = Some old -> sum_sizes (<[i := new]> l) = sum_sizes l - old + new.
Proof.
  revert i. induction l as [|z l IH]; intros [|i] Hi; try discriminate.
  - cbn in Hi. inversion Hi; subst.
    change (sum_sizes (new :: l) = sum_sizes (old :: l) - old + new).
    change (sum_sizes (new :: l)) with (new + sum_sizes l).
    change (sum_sizes (old :: l)) with (old + sum_sizes l). lia.
  - change (sum_sizes (z :: <[i := new]> l) = sum_sizes (z :: l) - old + new).
    change (sum_sizes (z :: <[i := new]> l)) with (z + sum_sizes (<[i := new]> l)).
    change (sum_sizes (z :: l)) with (z + sum_sizes l).
    rewrite (IH i Hi). lia.
Qed.

Lemma sizes_agree_update (s old new isz : Z) :
  wrap_int64 s = wrap_int64 isz ->
  wrap_int64 (s - old + new) = wrap_int64 (wrap_int64 (isz + wrap_int64 (new - old))).
Proof.
  intros Hs. apply wrap_int64_eq_mod in Hs. apply wrap_int64_eq.
  rewrite wrap_int64_mod.
  rewrite (Z.add_mod isz), wrap_int64_mod, <- Hs, <- Z.add_mod by discriminate.
  f_equal. lia.
Qed.

Lemma lor_flag_set (u f : Z) : Z.land (Z.lor u f) f = f.
Proof.
  apply Z.bits_inj'. intros n _. rewrite Z.land_spec, Z.lor_spec.
  destruct (Z.testbit u n), (Z.testbit f n); reflexivity.
Qed.

Lemma lor_flag_twice (u f : Z) : Z.lor (Z.lor u f) f = Z.lor u f.
Proof. now rewrite <- Z.lor_assoc, Z.lor_diag. Qed.

(** What one turn of [Read] does to the sizes and to the update flags. *)
Lemma bookkeeping_size (fd : Z) (r : read_result) (m m1 m4 : machine W) :
  acc m1 = acc m ->
  track_size fd (count_read (after_failed_read r m1)) = Done m4 ->
  (i_size (inf m4) = i_size (inf m)
   /\ i_update (inf m4) = i_update (inf m)
   /\ sizev (sys m4) = sizev (sys m))
  \/ (i_update (inf m4) = Z.lor (i_update (inf m)) INPUT_UPDATE_SIZE
      /\ (sizes_agree (sys m) (inf m) -> sizes_agree (sys m4) (inf m4))).
Proof.
  intros Hacc Ht.
  destruct (bookkeeping_acc _ _ _ _ _ Hacc Ht) as (_ & [Ha|(st & old & Hold & _ & _ & Ha)]).
  - left. unfold sys, inf. rewrite Ha. repeat split.
  - right.
    assert (Hu : i_update (inf m4) = Z.lor (i_update (inf m)) INPUT_UPDATE_SIZE)
      by (unfold inf at 1; rewrite Ha; reflexivity).
    assert (Hsv : sizev (sys m4)
                  = <[Z.to_nat (filep (sys m)) := st_size st]> (sizev (sys m)))
      by (unfold sys at 1; rewrite Ha; reflexivity).
    assert (Hsz : i_size (inf m4)
                  = wrap_int64 (i_size (inf m) + wrap_int64 (st_size st - old)))
      by (unfold inf at 1; rewrite Ha; reflexivity).
    split; [exact Hu|]. unfold sizes_agree. rewrite Hsv, Hsz. intros Hag.
    rewrite (sum_sizes_insert _ _ _ _ Hold). now apply sizes_agree_update.
Qed.

Lemma Read_run_size (fuel : nat) (len : Z) (m : machine W)
    (res : Z * list Byte.byte * machine W) :
  Read_run fuel len m res ->
  (i_update (inf (snd res)) = i_update (inf m)
   \/ i_update (inf (snd res)) = Z.lor (i_update (inf m)) INPUT_UPDATE_SIZE)
  /\ (i_size (inf (snd res)) <> i_size (inf m) \/ sizev (sys (snd res)) <> sizev (sys m) ->
      i_update (inf (snd res)) = Z.lor (i_update (inf m)) INPUT_UPDATE_SIZE)
  /\ (sizes_agree (sys m) (inf m) -> sizes_agree (sys (snd res)) (inf (snd res))).
Proof.
  intros Hrun.
  induction Hrun as [m m1 fd Hfd Hs
                    |m m1 m4 fd r res Hfd Hs Ht Hr Hlt Hrun IH
                    |m m1 m4 fd r Hfd Hs Ht Hr Hge
                    |m m1 m4 fd r Hfd Hs Ht Hr].
  - apply read_strategy_none in Hs as (Hacc & _). cbn [snd].
    rewrite (inf_of_acc _ _ Hacc), (sys_of_acc _ _ Hacc).
    split; [now left|]. split; [intros [Hne|Hne]; contradiction|auto].
  - pose proof (read_strategy_some _ _ _ _ _ _ Hs) as [Hacc _].
    destruct IH as (IH1 & IH2 & IH3). st_simpl.
    unfold sizes_agree in IH3. cbn [sizev with_filep] in IH2, IH3.
    destruct (bookkeeping_size _ _ _ _ _ Hacc Ht) as [(Hsz & Hup & Hsv)|(Hup & Hag)].
    + rewrite Hsz, Hup, Hsv in *. auto.
    + rewrite Hup, lor_flag_twice in *.
      split; [right; destruct IH1; assumption|].
      split; [intros _; destruct IH1; assumption|].
      intros Hag0. apply IH3, Hag, Hag0.
  - pose proof (read_strategy_some _ _ _ _ _ _ Hs) as [Hacc _].
    match goal with
    | |- context [finish_read ?r ?x] =>
        destruct (finish_read_fields r x) as (Hsys & Hsz & Hup & _)
    end.
    unfold sizes_agree. rewrite Hsys, Hsz, Hup. st_simpl. cbn [sizev with_filep].
    destruct (bookkeeping_size _ _ _ _ _ Hacc Ht) as [(Hsz4 & Hup4 & Hsv4)|(Hup4 & Hag)].
    + rewrite Hsz4, Hup4, Hsv4.
      split; [now left|]. split; [intros [Hne|Hne]; contradiction|auto].
    + rewrite Hup4. split; [now right|]. split; [reflexivity|exact Hag].
  - pose proof (read_strategy_some _ _ _ _ _ _ Hs) as [Hacc _].
    destruct (finish_read_fields r m4) as (Hsys & Hsz & Hup & _).
    unfold sizes_agree. rewrite Hsys, Hsz, Hup.
    destruct (bookkeeping_size _ _ _ _ _ Hacc Ht) as [(Hsz4 & Hup4 & Hsv4)|(Hup4 & Hag)].
    + rewrite Hsz4, Hup4, Hsv4.
      split; [now left|]. split; [intros [Hne|Hne]; contradiction|auto].
    + rewrite Hup4. split; [now right|]. split; [reflexivity|exact Hag].
Qed.

(** X6.  Whenever a call of [Read] changes the size of the stream or an
    entry of the size table, it leaves the [INPUT_UPDATE_SIZE] bits set in
    [info.i_update]; in any case it touches no other bit of it. *)
Theorem Read_size_change_raises_flag (fuel : nat) (len ret : Z) (bs : list Byte.byte)
    (m m' : machine W) :
  Read fuel len m = Done (ret, bs, m') ->
  (i_update (inf m') = i_update (inf m)
   \/ i_update (inf m') = Z.lor (i_update (inf m)) INPUT_UPDATE_SIZE)
  /\ (i_size (inf m') <> i_size (inf m) \/ sizev (sys m') <> sizev (sys m) ->
      Z.land (i_update (inf m')) INPUT_UPDATE_SIZE = INPUT_UPDATE_SIZE).
Proof.
  intros Hrun. apply Read_run_of_Read, Read_run_size in Hrun as (H1 & H2 & _).
  cbn [snd] in *. split; [exact H1|].
  intros Hne. rewrite (H2 Hne). apply lor_flag_set.
Qed.

(** X7.  [Read] keeps the size of the stream equal to the sum of the size
    table, in 64-bit arithmetic, whatever the files became in between. *)
Theorem Read_keeps_sizes_agree (fuel : nat) (len ret : Z) (bs : list Byte.byte)
    (m m' : machine W) :
  sizes_agree (sys m) (inf m) ->
  Read fuel len m = Done (ret, bs, m') ->
  sizes_agree (sys m') (inf m').
Proof.
  intros Hag Hrun. apply Read_run_of_Read, Read_run_size in Hrun as (_ & _ & H3).
  exact (H3 Hag).
Qed.

(** ** Seek: what it leaves alone *)

Lemma seek_locate_done (s : access_sys_t) :
  forall (fuel : nat) (i pos j off : Z),
    0 <= i < filec s ->
    seek_locate fuel s i pos = Done (j, off) ->
    0 <= j < filec s
    /\ exists sz, sizev s !! Z.to_nat j = Some sz /\ off <= sz.
Proof.
  induction fuel as [|fuel IH]; intros i pos j off Hi Hrun; cbn [seek_locate] in Hrun;
    destruct (sizev s !! Z.to_nat i) as [sz|] eqn:Hsz; try discriminate;
    destruct (Z.ltb_spec sz pos) as [Hlt|Hge]; try discriminate.
  - inversion Hrun; subst. split; [exact Hi|]. exists sz. split; [exact Hsz|lia].
  - destruct (Z.ltb_spec (wrap_uint (i + 1)) (filec s)) as [Hn|Hn]; [|discriminate].
    apply IH in Hrun; [exact Hrun|].
    split; [|exact Hn]. unfold wrap_uint. apply Z.mod_pos_bound. reflexivity.
  - inversion Hrun; subst. split; [exact Hi|]. exists sz. split; [exact Hsz|lia].
Qed.

Lemma seek_clamp_cases (t : Z) (m : machine W) :
  sys (snd (seek_clamp t m)) = sys m
  /\ world (snd (seek_clamp t m)) = world m
  /\ i_size (inf (snd (seek_clamp t m))) = i_size (inf m)
  /\ i_update (inf (snd (seek_clamp t m))) = i_update (inf m)
  /\ psz_access (acc (snd (seek_clamp t m))) = psz_access (acc m)
  /\ ((0 <= i_pos (inf m) <= i_size (inf m)
       /\ fst (seek_clamp t m) = t
       /\ trace (snd (seek_clamp t m)) = trace m)
      \/ (i_size (inf m) < i_pos (inf m)
          /\ fst (seek_clamp t m) = i_size (inf m)
          /\ trace (snd (seek_clamp t m)) = trace m ++ [EvErr MsgSeekingTooFar])
      \/ (i_pos (inf m) < 0 /\ i_pos (inf m) <= i_size (inf m)
          /\ fst (seek_clamp t m) = 0
          /\ trace (snd (seek_clamp t m)) = trace m ++ [EvErr MsgSeekingTooEarly])).
Proof.
  unfold seek_clamp.
  destruct (Z.ltb_spec (i_size (inf m)) (i_pos (inf m))) as [Hfar|Hfar].
  - st_simpl. repeat split. right. left. repeat split. exact Hfar.
  - destruct (Z.ltb_spec (i_pos (inf m)) 0) as [Hneg|Hneg].
    + st_simpl. repeat split. right. right. repeat split; assumption.
    + cbn [fst snd]. repeat split. left. repeat split; assumption.
Qed.

(** X8.  [Seek] has no error return: whenever it returns, it returns
    [VLC_SUCCESS] with the end-of-file flag cleared and the current file
    inside the table.  It changes nothing of the stream but the position,
    that flag and the current file, and nothing outside but the offset of
    the descriptor of that file, with one [lseek] to an offset that is not
    beyond the recorded size of the file.  Before the [lseek] it reports
    nothing when the position the stream had was inside the stream, and
    one error, "seeking too far" or "seeking too early", when it was
    beyond the size or negative. *)
Theorem Seek_frame (t : Z) (m m' : machine W) (st : vlc_status) :
  Seek t m = Done (st, m') ->
  st = VLC_SUCCESS
  /\ b_eof (inf m') = false
  /\ i_size (inf m') = i_size (inf m)
  /\ i_update (inf m') = i_update (inf m)
  /\ sys m' = with_filep (filep (sys m')) (sys m)
  /\ 0 <= filep (sys m') < filec (sys m)
  /\ (i_pos (inf m') = t
      \/ (i_size (inf m) < i_pos (inf m) /\ i_pos (inf m') = i_size (inf m))
      \/ (i_pos (inf m) < 0 /\ i_pos (inf m') = 0))
  /\ exists fd off sz reports,
       filev (sys m) !! Z.to_nat (filep (sys m')) = Some fd
       /\ sizev (sys m) !! Z.to_nat (filep (sys m')) = Some sz
       /\ off <= sz
       /\ world m' = sys_lseek fd off (world m)
       /\ trace m' = trace m ++ reports ++ [EvLseek fd off]
       /\ ((0 <= i_pos (inf m) <= i_size (inf m) /\ reports = [])
           \/ (i_size (inf m) < i_pos (inf m) /\ reports = [EvErr MsgSeekingTooFar])
           \/ (i_pos (inf m) < 0 /\ i_pos (inf m) <= i_size (inf m)
               /\ reports = [EvErr MsgSeekingTooEarly])).
Proof.
  unfold Seek. intros Hrun.
  destruct (seek_clamp_cases t m) as (Hsys & Hw & Hsz & Hup & _ & Hcase).
  destruct (seek_clamp t m) as [pos1 m1]. cbn [fst snd] in *. st_simpl.
  rewrite Hsys in Hrun.
  destruct (Z.ltb_spec 0 (filec (sys m))) as [Hc|Hc]; [|discriminate].
  destruct (seek_locate _ _ 0 pos1) as [[j off]| | | |] eqn:Hloc; try discriminate.
  apply seek_locate_done in Hloc as (Hj & sz & Hszj & Hoff); [|lia].
  st_simpl. rewrite Hsys in Hrun.
  destruct (filev (sys m) !! Z.to_nat j) as [fd|] eqn:Hfd; [|discriminate].
  inversion Hrun; subst st m'. st_simpl. rewrite Hsys, Hw, Hsz, Hup.
  split; [reflexivity|]. split; [reflexivity|]. split; [reflexivity|].
  split; [reflexivity|]. split; [destruct (sys m); reflexivity|].
  split; [exact Hj|].
  split.
  { destruct Hcase as [(_ & Hp & _)|[(Hfar & Hp & _)|(Hneg & _ & Hp & _)]]; auto. }
  destruct Hcase as [(Hin & _ & Htr)|[(Hfar & _ & Htr)|(Hneg & Hle & _ & Htr)]];
    rewrite Htr.
  - exists fd, off, sz, [].
    split; [exact Hfd|]. split; [exact Hszj|]. split; [exact Hoff|].
    split; [reflexivity|]. split; [reflexivity|]. left. split; [exact Hin|reflexivity].
  - exists fd, off, sz, [EvErr MsgSeekingTooFar]. rewrite <- app_assoc.
    split; [exact Hfd|]. split; [exact Hszj|]. split; [exact Hoff|].
    split; [reflexivity|]. split; [reflexivity|].
    right. left. split; [exact Hfar|reflexivity].
  - exists fd, off, sz, [EvErr MsgSeekingTooEarly]. rewrite <- app_assoc.
    split; [exact Hfd|]. split; [exact Hszj|]. split; [exact Hoff|].
    split; [reflexivity|]. split; [reflexivity|].
    right. right. split; [exact Hneg|]. split; [exact Hle|reflexivity].
Qed.

(** X9.  On a stream whose tables are in order, [Seek] selects the first
    file whose end is not before the target: a target on the border of two
    files selects the earlier one, at its end.  The offset given to
    [lseek] is the target less the sizes of the files before. *)
Theorem Seek_selects_first_file_reaching_target (t : Z) (m : machine W) :
  tables_ok (sys m) ->
  sum_sizes (sizev (sys m)) = i_size (inf m) ->
  i_size (inf m) < 2 ^ 63 ->
  0 <= i_pos (inf m) <= i_size (inf m) ->
  0 <= t <= i_size (inf m) ->
  exists m' fd,
    Seek t m = Done (VLC_SUCCESS, m')
    /\ t <= sum_sizes (take (S (Z.to_nat (filep (sys m')))) (sizev (sys m)))
    /\ (forall k : nat, (k < Z.to_nat (filep (sys m')))%nat ->
          sum_sizes (take (S k) (sizev (sys m))) < t)
    /\ filev (sys m) !! Z.to_nat (filep (sys m')) = Some fd
    /\ trace m'
       = trace m
         ++ [EvLseek fd (t - sum_sizes (take (Z.to_nat (filep (sys m'))) (sizev (sys m))))].
Proof.
  intros Hok Hsum Hsize Hpos Ht.
  destruct (Seek_spec t m Hok Hsum Hsize Ht)
    as (j & off & sz & fd & Hj & Hsz & Hfd & Hoff & Hfirst & Hsplit & Hrun).
  rewrite (seek_clamp_inside t m Hpos) in Hsplit, Hrun. cbn [fst snd] in *.
  eexists _, fd. split; [exact Hrun|]. st_simpl.
  destruct Hok as (_ & _ & _ & Hnn).
  split; [rewrite (sum_sizes_take_S _ _ _ Hsz); sums_lia|].
  split.
  - intros k Hk.
    destruct Hfirst as [->|Hpos0]; [lia|].
    assert (Hle : sum_sizes (take (S k) (sizev (sys m)))
                  <= sum_sizes (take (Z.to_nat j) (sizev (sys m)))).
    { replace (take (S k) (sizev (sys m)))
        with (take (S k) (take (Z.to_nat j) (sizev (sys m))))
        by (rewrite take_take; f_equal; lia).
      rewrite <- (sum_sizes_take_drop (S k) (take (Z.to_nat j) (sizev (sys m)))).
      rewrite take_take.
      pose proof (sum_sizes_nonneg (drop (S k) (take (Z.to_nat j) (sizev (sys m))))
                    (Forall_drop _ _ _ (Forall_take _ _ _ Hnn))).
      sums_lia. }
    sums_lia.
  - split; [exact Hfd|]. do 3 f_equal. sums_lia.
Qed.

(** ** Open: the names, the tables and the first state *)

Lemma split_commas_step (s : string) :
  split_commas s
  = before_comma s :: match after_comma s with
                      | Some rest => split_commas rest
                      | None => []
                      end.
Proof.
  induction s as [|c s IH]; [reflexivity|].
  cbn [split_commas before_comma after_comma].
  destruct (Ascii.eqb c ","); [reflexivity|]. now rewrite IH.
Qed.

Lemma join_split_commas (s : string) : join_commas (split_commas s) = s.
Proof.
  induction s as [|c s IH]; [reflexivity|].
  cbn [split_commas]. destruct (Ascii.eqb_spec c ",") as [->|_].
  - change (join_commas (EmptyString :: split_commas s))
      with (match split_commas s with
            | [] => EmptyString
            | _ :: _ => String "," (join_commas (split_commas s))
            end).
    rewrite IH. rewrite (split_commas_step s). reflexivity.
  - rewrite (split_commas_step s) in *.
    destruct (match after_comma s with Some rest => split_commas rest | None => [] end)
      as [|seg segs]; cbn in *; now rewrite IH.
Qed.

Lemma after_comma_length (s rest : string) :
  after_comma s = Some rest -> (String.length rest < String.length s)%nat.
Proof.
  induction s as [|c s IH]; [discriminate|]. cbn.
  destruct (Ascii.eqb c ","); intros Hs.
  - inversion Hs; subst. lia.
  - specialize (IH Hs). lia.
Qed.

Lemma count_files_split (fuel : nat) :
  forall (s : string) (n : Z),
    (String.length s < fuel)%nat ->
    count_files fuel (Some s) n = n + Z.of_nat (length (split_commas s)).
Proof.
  induction fuel as [|fuel IH]; intros s n Hlen; [lia|].
  cbn [count_files]. rewrite (split_commas_step s).
  destruct (after_comma s) as [rest|] eqn:Hrest.
  - apply after_comma_length in Hrest.
    rewrite IH by lia. cbn [length]. lia.
  - destruct fuel; cbn; lia.
Qed.

Lemma files_asked_names (path c : string) :
  Z.of_nat (String.length c) + 2 < 2 ^ 32 ->
  files_asked c = Z.of_nat (length (file_names path c)).
Proof.
  intros Hlen. unfold files_asked, file_names.
  destruct (String.eqb c ""); [reflexivity|].
  pose proof (count_files_bounds (S (String.length c)) (Some c) 1) as Hb.
  rewrite wrap_uint_id by (unfold in_uint; lia).
  rewrite count_files_split by lia. cbn [length]. lia.
Qed.

Lemma opened_paths_app (l1 l2 : list event) :
  opened_paths (l1 ++ l2) = opened_paths l1 ++ opened_paths l2.
Proof. apply omap_app. Qed.

Lemma dup_sources_app (l1 l2 : list event) :
  dup_sources (l1 ++ l2) = dup_sources l1 ++ dup_sources l2.
Proof. apply omap_app. Qed.

(** A call of [open_file] that gives a descriptor did one thing: it
    opened the expanded name. *)
Lemma open_file_opened (name : string) (m : machine W) :
  fst (open_file name m) <> -1 ->
  acc (snd (open_file name m)) = acc m
  /\ trace (snd (open_file name m))
     = trace m ++ [EvOpen (expand_path (psz_homedir (acc m)) name) (fst (open_file name m))].
Proof.
  unfold open_file.
  destruct (ToLocale _ (world m)); [|cbn; intros Hne; now contradiction Hne].
  destruct (sys_open _ (world m)) as [fd w].
  destruct (Z.eqb_spec fd (-1)) as [->|Hfd]; cbn [fst snd]; intros Hne;
    [now contradiction Hne|].
  split; reflexivity.
Qed.

Lemma acquire_fd_names (i fd : Z) (filename filename' : option string) (b_stdin : bool)
    (m m1 : machine W) :
  acquire_fd i filename b_stdin m = Done (fd, filename', m1) ->
  fd <> -1 ->
  exists evs,
    acc m1 = acc m
    /\ trace m1 = trace m ++ evs
    /\ fstat_oks evs = []
    /\ (if i =? 0
        then filename' = filename
             /\ opened_paths evs
                = (if b_stdin then []
                   else [expand_path (psz_homedir (acc m)) (psz_path (acc m))])
             /\ dup_sources evs = (if b_stdin then [0] else [])
        else exists s,
            filename = Some s
            /\ filename' = after_comma s
            /\ opened_paths evs = [expand_path (psz_homedir (acc m)) (before_comma s)]
            /\ dup_sources evs = []).
Proof.
  unfold acquire_fd. intros Hrun Hfd.
  destruct (i =? 0).
  - destruct b_stdin.
    + unfold do_dup in Hrun. st_simpl.
      destruct (sys_dup 0 (world m)) as [fd0 w]. inversion Hrun; subst.
      eexists. split; [reflexivity|]. st_simpl. rewrite <- app_assoc.
      split; [reflexivity|]. repeat split.
    + pose proof (open_file_opened (psz_path (acc m)) (msg_Dbg (MsgOpening (psz_path (acc m))) m))
        as Hop.
      change (psz_path (acc (msg_Dbg (MsgOpening (psz_path (acc m))) m)))
        with (psz_path (acc m)) in Hrun.
      destruct (open_file _ _) as [fd0 m0]. inversion Hrun; subst. cbn [fst snd] in Hop.
      destruct (Hop Hfd) as [Hacc Htr].
      eexists. split; [exact Hacc|]. rewrite Htr. st_simpl. rewrite <- app_assoc.
      split; [reflexivity|]. repeat split.
  - destruct filename as [s|]; [|discriminate].
    pose proof (open_file_opened (before_comma s)
                  (msg_Dbg (MsgOpeningAdditional (before_comma s)) m)) as Hop.
    destruct (open_file _ _) as [fd0 m0]. inversion Hrun; subst. cbn [fst snd] in Hop.
    destruct (Hop Hfd) as [Hacc Htr].
    eexists. split; [exact Hacc|]. rewrite Htr. st_simpl. rewrite <- app_assoc.
    split; [reflexivity|]. split; [reflexivity|]. exists s. repeat split.
Qed.

Lemma loop_inert_fields (a : access_t) (x1 x2 x3 : string) (x4 x5 : Z) (x6 : bool)
    (x7 : Z) (x8 : bool) (x9 x10 : Z) (x11 : bool) :
  loop_inert a = (x1, x2, x3, (x4, x5, x6), (x7, x8, x9, x10, x11)) ->
  psz_access a = x1 /\ psz_path a = x2 /\ psz_homedir a = x3
  /\ i_update (info a) = x4 /\ i_pos (info a) = x5 /\ b_eof (info a) = x6
  /\ i_nb_reads (p_sys a) = x7 /\ b_kfir (p_sys a) = x8 /\ filec (p_sys a) = x9
  /\ filep (p_sys a) = x10 /\ b_pace_control (p_sys a) = x11.
Proof.
  unfold loop_inert. intros Hin.
  repeat match type of Hin with
         | (_, _) = (_, _) =>
             let H1 := fresh "H" in
             apply pair_equal_spec in Hin as [Hin H1];
             repeat match type of H1 with
                    | (_, _) = (_, _) =>
                        let H2 := fresh "H" in
                        apply pair_equal_spec in H1 as [H1 H2]
                    end
         end.
  repeat split; assumption.
Qed.

Lemma record_file_inert (i fd : Z) (st : stat) (m m' : machine W) :
  record_file i fd st m = Done m' -> loop_inert (acc m') = loop_inert (acc m).
Proof.
  unfold record_file. intros Hrun.
  destruct (_ && _); [|discriminate].
  destruct (unseekable_stat st); inversion Hrun; subst; reflexivity.
Qed.

(** The names a successful run of the loop of [Open] opens, and what it
    leaves alone. *)
Lemma open_files_names :
  forall (n : nat) (i : Z) (filename : option string) (b_stdin : bool)
         (m m' : machine W),
    0 <= i ->
    i + Z.of_nat n < 2 ^ 32 ->
    open_files n i filename b_stdin m = Done (VLC_SUCCESS, m') ->
    exists evs,
      trace m' = trace m ++ evs
      /\ loop_inert (acc m') = loop_inert (acc m)
      /\ opened_paths evs
         = map (expand_path (psz_homedir (acc m)))
             ((if (i =? 0) && negb (Nat.eqb n 0) && negb b_stdin
               then [psz_path (acc m)] else [])
              ++ take (if i =? 0 then Nat.pred n else n)
                   (match filename with Some s => split_commas s | None => [] end))
      /\ dup_sources evs
         = (if (i =? 0) && negb (Nat.eqb n 0) && b_stdin then [0] else []).
Proof.
  induction n as [|n IH]; intros i filename b_stdin m m' Hi Hmax Hrun.
  - cbn in Hrun. inversion Hrun; subst. exists []. rewrite app_nil_r.
    rewrite andb_false_r. cbn. destruct (i =? 0); cbn; rewrite ?take_0; repeat split.
  - cbn [open_files] in Hrun.
    destruct (acquire_fd i filename b_stdin m) as [[[fd filename'] m1]| | | |] eqn:Ha;
      try discriminate.
    cbn in Hrun.
    destruct (probe_fd_spec fd m1) as (evs_p & Hacc2 & Htr2 & _ & Hprobe).
    destruct (probe_fd fd m1) as [probed m2]. cbn [fst snd] in *.
    destruct probed as [[fd' stt]|].
    2:{ destruct (Close _) as [m3| | | |]; cbn in Hrun; discriminate. }
    destruct Hprobe as (-> & Hfd & _ & ->).
    destruct (acquire_fd_names _ _ _ _ _ _ _ Ha Hfd) as (evs_a & Hacc1 & Htr1 & _ & Hnames).
    destruct (record_file i fd stt m2) as [m3| | | |] eqn:Hrec; try discriminate.
    cbn in Hrun.
    pose proof (record_file_inert _ _ _ _ _ Hrec) as Hin3.
    apply record_file_spec in Hrec as (_ & _ & Htr3 & _); [|exact Hi].
    rewrite (wrap_uint_id (i + 1)) in Hrun by (unfold in_uint; lia).
    apply IH in Hrun as (evs' & Htr' & Hin' & Hpaths' & Hdups'); [|lia|lia].
    assert (Hacc3 : loop_inert (acc m3) = loop_inert (acc m)) by congruence.
    assert (Hhome : psz_homedir (acc m3) = psz_homedir (acc m)).
    { now apply loop_inert_fields in Hacc3. }
    destruct (Z.eqb_spec (i + 1) 0) as [|_]; [lia|].
    cbn [andb app] in Hpaths', Hdups'. rewrite Hhome in Hpaths'.
    exists (evs_a ++ [EvFstat fd (Some stt)] ++ evs').
    split; [rewrite Htr', Htr3, Htr2, Htr1; now rewrite <- !app_assoc|].
    split; [congruence|].
    rewrite !opened_paths_app, !dup_sources_app, Hpaths', Hdups'.
    cbn [opened_paths dup_sources omap opened_path dup_source app Nat.eqb negb andb Nat.pred].
    rewrite andb_true_r, app_nil_r.
    destruct (Z.eqb_spec i 0) as [->|Hi0]; cbn [andb].
    + destruct Hnames as (-> & Hpa & Hda). rewrite Hpa, Hda.
      destruct b_stdin; cbn; split; reflexivity.
    + destruct Hnames as (s & -> & -> & Hpa & Hda). rewrite Hpa, Hda.
      rewrite (split_commas_step s). cbn. split; reflexivity.
Qed.

(** How a successful call of [Open] went: the allocations, then the loop
    from the first state. *)
Lemma Open_success_inv (file_cat : option string) (m m' : machine W) :
  Open file_cat m = Done (VLC_SUCCESS, m') ->
  exists c m6,
    file_cat = Some c
    /\ open_files (Z.to_nat (files_asked c)) 0 (Some c)
         (String.eqb (psz_path (acc m)) "-") m6 = Done (VLC_SUCCESS, m')
    /\ trace m6 = trace m
    /\ loop_inert (acc m6)
       = (psz_access (acc m), psz_path (acc m), psz_homedir (acc m),
          (0, 0, false),
          (0, negb (strcasecmp_eq (psz_access (acc m)) "stream")
              && strcasecmp_eq (psz_access (acc m)) "kfir",
           files_asked c, 0, standard_mode (psz_access (acc m)))).
Proof.
  unfold Open. intros Hrun.
  pose proof (do_alloc_spec m) as [Ha0 Ht0].
  destruct (do_alloc m) as [ok m0]. cbn [fst snd] in *.
  destruct ok; cbn [negb] in Hrun; [|discriminate].
  destruct file_cat as [c|]; [|discriminate].
  fold (files_asked c) in Hrun.
  set (n := files_asked c) in *.
  set (m1 := set_acc _ m0) in Hrun.
  set (m2 := set_acc (set_sys (with_filec n)) m1) in Hrun.
  pose proof (do_alloc_spec m2) as [Ha3 Ht3].
  destruct (do_alloc m2) as [ok1 m3]. cbn [fst snd] in *.
  destruct ok1; cbn [negb] in Hrun; [|discriminate].
  set (m4 := set_acc (set_sys (with_filev (replicate (Z.to_nat n) 0))) m3) in Hrun.
  pose proof (do_alloc_spec m4) as [Ha5 Ht5].
  destruct (do_alloc m4) as [ok2 m5]. cbn [fst snd] in *.
  destruct ok2; cbn [negb] in Hrun; [|discriminate].
  set (m6 := set_acc (set_sys (with_sizev (replicate (Z.to_nat n) 0))) m5) in Hrun.
  destruct (open_files (Z.to_nat n) 0 (Some c) _ m6) as [[st7 m7]| | | |] eqn:Hloop;
    try discriminate.
  cbn in Hrun.
  destruct st7; try (inversion Hrun; fail).
  - destruct (b_seekable (sys m7) && (i_size (inf m7) =? 0)).
    + destruct (Close _) as [m8| | | |]; cbn in Hrun; discriminate.
    + inversion Hrun; subst m7.
      exists c, m6. split; [reflexivity|]. split; [exact Hloop|].
      unfold m6. st_simpl. rewrite Ha5, Ht5. unfold m4. st_simpl. rewrite Ha3, Ht3.
      unfold m2, m1. st_simpl. rewrite Ha0, Ht0. split; reflexivity.
Qed.

Lemma add_sizes_sum (l : list stat) :
  forall a : Z,
    wrap_int64 (add_sizes a l) = wrap_int64 (a + sum_sizes (map st_size l)).
Proof.
  induction l as [|st l IH]; intros a.
  - cbn. now rewrite Z.add_0_r.
  - rewrite add_sizes_cons, IH.
    change (sum_sizes (map st_size (st :: l))) with (st_size st + sum_sizes (map st_size l)).
    apply wrap_int64_eq.
    rewrite (Z.add_mod (wrap_int64 _)), wrap_int64_mod, <- Z.add_mod by discriminate.
    f_equal. sums_lia.
Qed.

Lemma add_sizes_range (l : list stat) (a : Z) :
  in_int64 a -> in_int64 (add_sizes a l).
Proof.
  revert a. induction l as [|st l IH]; intros a Ha; [exact Ha|].
  rewrite add_sizes_cons. apply IH. unfold in_int64, wrap_int64.
  pose proof (Z.mod_pos_bound (a + st_size st + 2 ^ 63) (2 ^ 64) eq_refl). lia.
Qed.

(** The state a successful [Open] leaves. *)
Lemma Open_first_state (file_cat : option string) (m m' : machine W) :
  Open file_cat m = Done (VLC_SUCCESS, m') ->
  loop_inert (acc m')
  = (psz_access (acc m), psz_path (acc m), psz_homedir (acc m),
     (0, 0, false),
     (0, negb (strcasecmp_eq (psz_access (acc m)) "stream")
         && strcasecmp_eq (psz_access (acc m)) "kfir",
      filec (sys m'), 0, standard_mode (psz_access (acc m))))
  /\ 0 <= filec (sys m') < 2 ^ 32
  /\ length (filev (sys m')) = Z.to_nat (filec (sys m'))
  /\ length (sizev (sys m')) = Z.to_nat (filec (sys m'))
  /\ in_int64 (i_size (inf m'))
  /\ sizes_agree (sys m') (inf m').
Proof.
  intros Hrun.
  destruct (Open_success_inv _ _ _ Hrun) as (c & m6 & -> & Hloop & Htr6 & Hin6).
  assert (Hn : 0 <= files_asked c < 2 ^ 32).
  { unfold files_asked. destruct (String.eqb c ""); [lia|].
    unfold wrap_uint. apply Z.mod_pos_bound. lia. }
  apply open_files_names in Hloop as (_ & _ & Hin & _); [|lia|lia].
  destruct (Open_spec _ _ _ _ Hrun)
    as (evs & _ & c' & Hc & _ & _ & _ & Hl & Hfv & Hsv & Hfc & _ & Hsz & _).
  inversion Hc; subst c'.
  split; [rewrite Hin, Hin6, Hfc; reflexivity|].
  split; [rewrite Hfc; exact Hn|].
  split; [now rewrite Hfv, length_map, Hl, Hfc|].
  split; [now rewrite Hsv, length_map, Hl, Hfc|].
  split; [rewrite Hsz; apply add_sizes_range; unfold in_int64; lia|].
  unfold sizes_agree. rewrite Hsv, Hsz, add_sizes_sum, map_map. reflexivity.
Qed.

(** X10.  After a successful [Open], the descriptors of the table are
    those [Open] obtained, in order, and none of them was closed; a call
    of [Close] then closes each of them once, in that order, and nothing
    else. *)
Theorem Open_then_Close_balanced (file_cat : option string) (m m' : machine W) :
  Open file_cat m = Done (VLC_SUCCESS, m') ->
  exists evs m'',
    trace m' = trace m ++ evs
    /\ fds_closed evs = []
    /\ filev (sys m') = fds_opened evs
    /\ Close m' = Done m''
    /\ acc m'' = acc m'
    /\ trace m'' = trace m' ++ map EvClose (fds_opened evs).
Proof.
  intros Hrun.
  destruct (Open_first_state _ _ _ Hrun) as (_ & Hfc & Hlv & _).
  destruct (Open_spec _ _ _ _ Hrun)
    as (evs & Htr & c & _ & _ & Hcl & Hop & _ & Hfv & _).
  destruct (Close_spec m') as (m'' & Hclose & Hacc & Htr''); [lia|lia|].
  exists evs, m''. rewrite <- Hlv, firstn_all in Htr''.
  repeat split; try assumption; congruence.
Qed.

(** X11.  A successful [Open] leaves the stream at position 0 of its
    first file, with no end of file, no update pending and no read
    counted.  Pace control and the kfir mode follow from the access name
    alone, and [Control] reports pace control for both of its queries.
    The two tables have [filec] entries and the size of the stream is the
    sum of the size table, in 64-bit arithmetic. *)
Theorem Open_initial_state (file_cat : option string) (caching : Z) (m m' : machine W) :
  Open file_cat m = Done (VLC_SUCCESS, m') ->
  (i_pos (inf m') = 0 /\ b_eof (inf m') = false /\ i_update (inf m') = 0
   /\ filep (sys m') = 0 /\ i_nb_reads (sys m') = 0)
  /\ (b_pace_control (sys m') = standard_mode (psz_access (acc m))
      /\ b_kfir (sys m')
         = negb (strcasecmp_eq (psz_access (acc m)) "stream")
           && strcasecmp_eq (psz_access (acc m)) "kfir"
      /\ Control caching ACCESS_CAN_PAUSE m'
         = (VLC_SUCCESS, CtlBool (standard_mode (psz_access (acc m))), m')
      /\ Control caching ACCESS_CAN_CONTROL_PACE m'
         = (VLC_SUCCESS, CtlBool (standard_mode (psz_access (acc m))), m'))
  /\ (psz_access (acc m') = psz_access (acc m)
      /\ psz_path (acc m') = psz_path (acc m)
      /\ psz_homedir (acc m') = psz_homedir (acc m))
  /\ (0 <= filec (sys m') < 2 ^ 32
      /\ length (filev (sys m')) = Z.to_nat (filec (sys m'))
      /\ length (sizev (sys m')) = Z.to_nat (filec (sys m'))
      /\ sizes_agree (sys m') (inf m')).
Proof.
  intros Hrun.
  destruct (Open_first_state _ _ _ Hrun) as (Hin & Hfc & Hlv & Hls & _ & Hag).
  apply loop_inert_fields in Hin
    as (Ha & Hp & Hh & Hu & Hpos & Heof & Hnb & Hk & _ & Hfp & Hpc).
  unfold Control. fold (sys m') in *. fold (inf m') in *.
  rewrite Hpc. repeat split; first [assumption | lia].
Qed.

(** X12.  After a successful [Open] on files whose sizes the kernel gave
    as non-negative with a sum below 2^63, the tables are in order, the
    size of the stream is the sum of the size table, and [Seek] to any
    position from 0 to that size returns [VLC_SUCCESS] at that position,
    end of file cleared, with one [lseek] and no error report. *)
Theorem Open_then_Seek (file_cat : option string) (m m' : machine W) :
  (forall c, file_cat = Some c -> Z.of_nat (String.length c) + 2 < 2 ^ 32) ->
  Open file_cat m = Done (VLC_SUCCESS, m') ->
  Forall (fun z => 0 <= z) (sizev (sys m')) ->
  sum_sizes (sizev (sys m')) < 2 ^ 63 ->
  tables_ok (sys m')
  /\ sum_sizes (sizev (sys m')) = i_size (inf m')
  /\ forall t : Z,
       0 <= t <= i_size (inf m') ->
       exists m'' fd off,
         Seek t m' = Done (VLC_SUCCESS, m'')
         /\ i_pos (inf m'') = t
         /\ b_eof (inf m'') = false
         /\ trace m'' = trace m' ++ [EvLseek fd off].
Proof.
  intros Hlen Hrun Hnn Hsum.
  destruct (Open_first_state _ _ _ Hrun) as (Hin & Hfc & Hlv & Hls & Hrange & Hag).
  destruct (Open_spec _ _ _ _ Hrun) as (evs & _ & c & Hc & _ & _ & _ & _ & _ & _ & Hfc' & _).
  pose proof (files_asked_pos c (Hlen c Hc)) as Hpos.
  assert (Hok : tables_ok (sys m')).
  { unfold tables_ok. repeat split; try assumption; lia. }
  assert (Heq : sum_sizes (sizev (sys m')) = i_size (inf m')).
  { unfold sizes_agree in Hag.
    pose proof (sum_sizes_nonneg _ Hnn) as H0.
    rewrite (wrap_int64_id (sum_sizes _)) in Hag by (unfold in_int64; sums_lia).
    now rewrite (wrap_int64_id (i_size _)) in Hag by exact Hrange. }
  split; [exact Hok|]. split; [exact Heq|].
  intros t Ht.
  assert (Hp0 : i_pos (inf m') = 0).
  { now apply loop_inert_fields in Hin. }
  destruct (Seek_spec t m' Hok Heq ltac:(lia) Ht)
    as (j & off & sz & fd & _ & _ & _ & _ & _ & _ & Hseek).
  rewrite (seek_clamp_inside t m') in Hseek by (rewrite Hp0; lia).
  cbn [fst snd] in Hseek.
  eexists _, fd, off. split; [exact Hseek|]. st_simpl. repeat split.
Qed.

Lemma open_files_status :
  forall (n : nat) (i : Z) (filename : option string) (b_stdin : bool)
         (m m' : machine W) (st : vlc_status),
    open_files n i filename b_stdin m = Done (st, m') -> st <> VLC_ENOMEM.
Proof.
  induction n as [|n IH]; intros i filename b_stdin m m' st Hrun.
  - cbn in Hrun. inversion Hrun. discriminate.
  - cbn [open_files] in Hrun.
    destruct (acquire_fd i filename b_stdin m) as [[[fd filename'] m1]| | | |];
      try discriminate.
    cbn in Hrun. destruct (probe_fd fd m1) as [[[fd' stt]|] m2].
    + destruct (record_file i fd' stt m2) as [m3| | | |]; try discriminate.
      cbn in Hrun. eapply IH; exact Hrun.
    + destruct (Close _) as [m3| | | |]; try discriminate.
      cbn in Hrun. inversion Hrun. discriminate.
Qed.

(** X13.  [Open] returns [VLC_ENOMEM] exactly when "file-cat" could not
    be read or one of its three allocations failed; it has then made no
    call on a file and has reported nothing. *)
Theorem Open_out_of_memory (file_cat : option string) (m m' : machine W) (st : vlc_status) :
  Open file_cat m = Done (st, m') ->
  let a1 := sys_alloc (world m) in
  let a2 := sys_alloc (snd a1) in
  let a3 := sys_alloc (snd a2) in
  (st = VLC_ENOMEM <->
   fst a1 = false
   \/ fst a1 = true
      /\ (file_cat = None \/ fst a2 = false \/ fst a2 = true /\ fst a3 = false))
  /\ (st = VLC_ENOMEM -> trace m' = trace m).
Proof.
  intros Hrun a1 a2 a3.
  split; [|intros ->; destruct (Open_spec _ _ _ _ Hrun) as (evs & Htr & ->);
           now rewrite Htr, app_nil_r].
  unfold Open, do_alloc in Hrun. subst a1 a2 a3.
  destruct (sys_alloc (world m)) as [ok w1]. cbn [fst snd].
  destruct ok; cbn [negb] in Hrun;
    [|inversion Hrun; split; [now left|reflexivity]].
  destruct file_cat as [c|];
    [|inversion Hrun; split; [right; split; [reflexivity|now left]|reflexivity]].
  st_simpl.
  destruct (sys_alloc w1) as [ok1 w2]. cbn [fst snd].
  destruct ok1; cbn [negb] in Hrun;
    [|inversion Hrun; split; [right; split; [reflexivity|right; now left]|reflexivity]].
  st_simpl.
  destruct (sys_alloc w2) as [ok2 w3]. cbn [fst snd].
  destruct ok2; cbn [negb] in Hrun;
    [|inversion Hrun; split; [right; split; [reflexivity|right; right; now split]|reflexivity]].
  assert (Hst : st <> VLC_ENOMEM).
  { destruct (open_files _ 0 (Some c) _ _) as [[st7 m7]| | | |] eqn:Hloop; try discriminate.
    cbn in Hrun. apply open_files_status in Hloop.
    destruct st7; try (inversion Hrun; subst; exact Hloop).
    destruct (_ && _).
    - destruct (Close _) as [m8| | | |]; cbn in Hrun; inversion Hrun. discriminate.
    - inversion Hrun. discriminate. }
  split; [intros Heq; contradiction|].
  intros [Hf|(_ & [Hf|[Hf|(_ & Hf)]])]; discriminate.
Qed.

(** X14.  A successful [Open] has opened the path of the access, then
    the entries of "file-cat" in their order, each with a leading "~/"
    replaced by the home directory, and nothing else; for the path "-" it
    duplicated descriptor 0 in place of opening the path.  The number of
    files of the stream is the number of these names. *)
Theorem Open_opens_named_files (c : string) (m m' : machine W) :
  Z.of_nat (String.length c) + 2 < 2 ^ 32 ->
  Open (Some c) m = Done (VLC_SUCCESS, m') ->
  let names := file_names (psz_path (acc m)) c in
  let b_stdin := String.eqb (psz_path (acc m)) "-" in
  exists evs,
    trace m' = trace m ++ evs
    /\ filec (sys m') = Z.of_nat (length names)
    /\ opened_paths evs
       = map (expand_path (psz_homedir (acc m))) (if b_stdin then tl names else names)
    /\ dup_sources evs = (if b_stdin then [0] else []).
Proof.
  intros Hlen Hrun names b_stdin.
  destruct (Open_success_inv _ _ _ Hrun) as (c' & m6 & Hc & Hloop & Htr6 & Hin6).
  inversion Hc; subst c'. clear Hc.
  pose proof (files_asked_pos c Hlen) as Hpos.
  pose proof (files_asked_names (psz_path (acc m)) c Hlen) as Hcount.
  fold names in Hcount.
  assert (Hn : files_asked c < 2 ^ 32).
  { unfold files_asked. destruct (String.eqb c ""); [lia|].
    unfold wrap_uint. apply Z.mod_pos_bound. lia. }
  apply open_files_names in Hloop as (evs & Htr & Hin & Hpaths & Hdups); [|lia|lia].
  apply loop_inert_fields in Hin6 as (_ & Hp6 & Hh6 & _).
  destruct (Open_spec _ _ _ _ Hrun) as (evs' & _ & c' & Hc & _ & _ & _ & _ & _ & _ & Hfc & _).
  inversion Hc; subst c'. clear Hc.
  exists evs. rewrite Htr, Htr6. split; [reflexivity|].
  split; [now rewrite Hfc|].
  rewrite Hp6, Hh6 in Hpaths. fold b_stdin in Hpaths, Hdups.
  change (0 =? 0) with true in Hpaths, Hdups. cbn [andb] in Hpaths, Hdups.
  assert (Hne : Nat.eqb (Z.to_nat (files_asked c)) 0 = false) by (apply Nat.eqb_neq; lia).
  rewrite Hne in Hpaths, Hdups. cbn [negb] in Hpaths, Hdups.
  assert (Hrest : take (Nat.pred (Z.to_nat (files_asked c))) (split_commas c)
                  = tl names).
  { unfold names, file_names in *. cbn [tl length] in *.
    destruct (String.eqb c "").
    - cbn [length] in Hcount. rewrite Hcount. reflexivity.
    - apply take_ge. lia. }
  rewrite Hrest in Hpaths. rewrite Hpaths, Hdups.
  destruct b_stdin; cbn [negb app]; split; reflexivity.
Qed.

(** ** expand_path *)

Lemma substring_all (s : string) : String.substring 0 (String.length s) s = s.
Proof. induction s as [|c s IH]; [reflexivity|]. cbn. now rewrite IH. Qed.

(** X15.  [expand_path] replaces a leading "~/" with the home directory
    and a slash, and returns every other path as it is: "~" alone and
    "~user/" are not expanded. *)
Theorem expand_path_cases (homedir path : string) :
  (forall rest, path = ("~/" ++ rest)%string ->
                expand_path homedir path = (homedir ++ "/" ++ rest)%string)
  /\ ((forall rest, path <> ("~/" ++ rest)%string) ->
      expand_path homedir path = path).
Proof.
  unfold expand_path. split.
  - intros rest ->. cbn [String.append String.prefix String.length].
    destruct (Ascii.ascii_dec "~" "~") as [_|Hne]; [|now contradiction Hne].
    destruct (Ascii.ascii_dec "/" "/") as [_|Hne]; [|now contradiction Hne].
    cbn [Nat.sub String.substring]. rewrite Nat.sub_0_r, substring_all.
    destruct rest; reflexivity.
  - intros Hno.
    destruct path as [|c1 [|c2 rest]]; try reflexivity.
    + cbn [String.prefix]. destruct (Ascii.ascii_dec "~" c1); reflexivity.
    + cbn [String.prefix].
      destruct (Ascii.ascii_dec "~" c1) as [<-|]; [|reflexivity].
      destruct (Ascii.ascii_dec "/" c2) as [<-|]; [|reflexivity].
      now contradiction (Hno rest).
Qed.

(** ** Read in the polled mode: no read without a poll *)

Lemma reads_follow_polls_no_read (tr : list event) :
  existsb is_read tr = false ->
  forall prev, reads_follow_polls prev tr = true.
Proof.
  induction tr as [|e tr IH]; intros Hno prev; [reflexivity|].
  cbn in Hno. apply orb_false_iff in Hno as [He Htr].
  cbn [reads_follow_polls]. rewrite (IH Htr).
  destruct e; try reflexivity. discriminate.
Qed.

Lemma reads_follow_polls_app (a b : list event) :
  (forall prev, reads_follow_polls prev a = true) ->
  (forall prev, reads_follow_polls prev b = true) ->
  forall prev, reads_follow_polls prev (a ++ b) = true.
Proof.
  intros Ha Hb prev. specialize (Ha prev). revert prev Ha.
  induction a as [|e a IH]; intros prev Ha; [apply Hb|].
  cbn [app reads_follow_polls] in *.
  apply andb_true_iff in Ha as [He Hrest]. rewrite He. cbn [andb].
  apply IH. exact Hrest.
Qed.

Lemma poll_wait_ready (fuel : nat) (fd : Z) :
  forall (m m1 : machine W) (b : bool),
    poll_wait fuel fd m = Done (b, m1) ->
    exists evs,
      trace m1 = trace m ++ evs
      /\ existsb is_read evs = false
      /\ (b = true -> exists evs0 r, evs = evs0 ++ [EvPoll fd r] /\ 0 < r).
Proof.
  induction fuel as [|fuel IH]; intros m m1 b Hrun; simpl in Hrun; [discriminate|].
  destruct (sys_die (world m)).
  - inversion Hrun; subst. exists []. rewrite app_nil_r.
    split; [reflexivity|]. split; [reflexivity|discriminate].
  - unfold do_poll in Hrun. destruct (sys_poll fd 500 (world m)) as [r w].
    destruct (Z.leb_spec r 0) as [Hle|Hgt].
    + apply IH in Hrun as (evs & Htr & Hno & Hready).
      exists (EvPoll fd r :: evs). rewrite Htr. cbn [trace emit set_world].
      rewrite <- app_assoc. split; [reflexivity|]. split; [exact Hno|].
      intros Hb. destruct (Hready Hb) as (evs0 & r0 & -> & Hr0).
      exists (EvPoll fd r :: evs0), r0. split; [reflexivity|exact Hr0].
    + inversion Hrun; subst. exists [EvPoll fd r].
      split; [reflexivity|]. split; [reflexivity|].
      intros _. exists [], r. split; [reflexivity|exact Hgt].
Qed.

Lemma read_strategy_polled (fuel : nat) (fd len : Z) (m m1 : machine W)
    (o : option read_result) :
  b_pace_control (sys m) = false ->
  b_kfir (sys m) = false ->
  read_strategy fuel fd len m = Done (o, m1) ->
  exists evs,
    trace m1 = trace m ++ evs
    /\ forall prev, reads_follow_polls prev evs = true.
Proof.
  unfold read_strategy. intros -> -> Hrun. cbn [negb] in Hrun.
  destruct (poll_wait fuel fd m) as [[ready m0]| | | |] eqn:Hp; try discriminate.
  cbn in Hrun.
  apply poll_wait_ready in Hp as (evs & Htr0 & Hno & Hready).
  destruct ready.
  - pose proof (do_read_acc fd len m0) as [_ Htr].
    destruct (do_read fd len m0) as [r0 m2]. inversion Hrun; subst. cbn [fst snd] in *.
    destruct (Hready eq_refl) as (evs0 & r & -> & Hr).
    exists (evs0 ++ [EvPoll fd r; EvRead fd len (read_ret r0)]).
    split; [rewrite Htr, Htr0, <- !app_assoc; reflexivity|].
    apply reads_follow_polls_app.
    + apply reads_follow_polls_no_read.
      rewrite existsb_app in Hno. now apply orb_false_iff in Hno as [Hno _].
    + intros prev. cbn. rewrite Z.eqb_refl.
      destruct (Z.ltb_spec 0 r); [reflexivity|lia].
  - inversion Hrun; subst. exists evs. split; [exact Htr0|].
    now apply reads_follow_polls_no_read.
Qed.

Lemma bookkeeping_no_read (fd : Z) (r : read_result) (m1 m4 : machine W) :
  track_size fd (count_read (after_failed_read r m1)) = Done m4 ->
  exists evs, trace m4 = trace m1 ++ evs /\ existsb is_read evs = false.
Proof.
  intros Ht.
  destruct (track_size_cases _ _ _ Ht) as (_ & Htr & _).
  change (trace (count_read (after_failed_read r m1)))
    with (trace (after_failed_read r m1)) in Htr.
  rewrite after_failed_read_trace in Htr.
  assert (Hr : existsb is_read
                 match r with
                 | RdBytes _ => []
                 | RdErr e => fatal_reports e ++ [EvMsleep INPUT_ERROR_SLEEP]
                 end = false).
  { destruct r as [|e]; [reflexivity|]. destruct e; reflexivity. }
  destruct Htr as [Htr|[st Htr]]; rewrite Htr.
  - eauto.
  - rewrite <- app_assoc. eexists. split; [reflexivity|].
    rewrite existsb_app, Hr. reflexivity.
Qed.

Lemma Read_run_polled (fuel : nat) (len : Z) (m : machine W)
    (res : Z * list Byte.byte * machine W) :
  Read_run fuel len m res ->
  b_pace_control (sys m) = false ->
  b_kfir (sys m) = false ->
  exists evs,
    trace (snd res) = trace m ++ evs
    /\ forall prev, reads_follow_polls prev evs = true.
Proof.
  intros Hrun.
  induction Hrun as [m m1 fd Hfd Hs
                    |m m1 m4 fd r res Hfd Hs Ht Hr Hlt Hrun IH
                    |m m1 m4 fd r Hfd Hs Ht Hr Hge
                    |m m1 m4 fd r Hfd Hs Ht Hr];
    intros Hpace Hkfir;
    destruct (read_strategy_polled _ _ _ _ _ _ Hpace Hkfir Hs) as (evs1 & Htr1 & Hev1).
  - cbn [snd]. eauto.
  - pose proof (read_strategy_some _ _ _ _ _ _ Hs) as [Hacc _].
    destruct (bookkeeping_fields _ _ _ _ _ Hacc Ht)
      as (_ & _ & _ & _ & _ & Hpc & Hkf & _).
    destruct (bookkeeping_no_read _ _ _ _ Ht) as (evs2 & Htr2 & Hev2).
    destruct IH as (evs3 & Htr3 & Hev3); [st_simpl; congruence|st_simpl; congruence|].
    st_simpl. exists (evs1 ++ evs2 ++ evs3).
    rewrite Htr3, Htr2, Htr1, <- !app_assoc. split; [reflexivity|].
    apply reads_follow_polls_app; [exact Hev1|].
    apply reads_follow_polls_app; [|exact Hev3].
    now apply reads_follow_polls_no_read.
  - destruct (bookkeeping_no_read _ _ _ _ Ht) as (evs2 & Htr2 & Hev2).
    match goal with
    | |- context [finish_read ?r ?x] =>
        destruct (finish_read_fields r x) as (_ & _ & _ & _ & Htr)
    end.
    st_simpl. exists (evs1 ++ evs2).
    rewrite Htr, Htr2, Htr1, <- !app_assoc. split; [reflexivity|].
    apply reads_follow_polls_app; [exact Hev1|].
    now apply reads_follow_polls_no_read.
  - destruct (bookkeeping_no_read _ _ _ _ Ht) as (evs2 & Htr2 & Hev2).
    destruct (finish_read_fields r m4) as (_ & _ & _ & _ & Htr).
    exists (evs1 ++ evs2).
    rewrite Htr, Htr2, Htr1, <- !app_assoc. split; [reflexivity|].
    apply reads_follow_polls_app; [exact Hev1|].
    now apply reads_follow_polls_no_read.
Qed.

(** X19.  In the polled mode [Read] calls [read] on a descriptor only
    straight after a [poll] of that descriptor that found it ready,
    whatever the number of files it goes through. *)
Theorem Read_polled_reads_follow_polls (fuel : nat) (len ret : Z) (bs : list Byte.byte)
    (m m' : machine W) :
  b_pace_control (sys m) = false ->
  b_kfir (sys m) = false ->
  Read fuel len m = Done (ret, bs, m') ->
  exists evs,
    trace m' = trace m ++ evs
    /\ reads_follow_polls None evs = true.
Proof.
  intros Hpace Hkfir Hrun. apply Read_run_of_Read in Hrun.
  destruct (Read_run_polled _ _ _ _ Hrun Hpace Hkfir) as (evs & Htr & Hev).
  exists evs. split; [exact Htr|apply Hev].
Qed.

(** ** Read on a stream of size 0 *)

Lemma track_size_zero (fd : Z) (m : machine W) :
  i_size (inf m) = 0 -> track_size fd m = Done m.
Proof. intros Hz. unfold track_size. rewrite Hz. reflexivity. Qed.

Lemma poll_wait_no_fstat (fuel : nat) (fd : Z) :
  forall (m m1 : machine W) (b : bool),
    poll_wait fuel fd m = Done (b, m1) ->
    exists evs, trace m1 = trace m ++ evs /\ existsb is_fstat evs = false.
Proof.
  induction fuel as [|fuel IH]; intros m m1 b Hrun; simpl in Hrun; [discriminate|].
  destruct (sys_die (world m)).
  - inversion Hrun; subst. exists []. now rewrite app_nil_r.
  - unfold do_poll in Hrun. destruct (sys_poll fd 500 (world m)) as [r w].
    destruct (r <=? 0).
    + apply IH in Hrun as (evs & Htr & Hev).
      exists (EvPoll fd r :: evs). rewrite Htr. cbn. now rewrite <- app_assoc.
    + inversion Hrun; subst. exists [EvPoll fd r]. split; reflexivity.
Qed.

Lemma kfir_read_no_fstat (fuel : nat) (fd len : Z) :
  forall (m m1 : machine W) (r : read_result),
    kfir_read fuel fd len m = Done (r, m1) ->
    exists evs, trace m1 = trace m ++ evs /\ existsb is_fstat evs = false.
Proof.
  induction fuel as [|fuel IH]; intros m m1 r Hrun; simpl in Hrun; [discriminate|].
  unfold do_read in Hrun. destruct (sys_read fd len (world m)) as [r0 w].
  destruct ((read_ret r0 =? 0) && negb (sys_die _)).
  - apply IH in Hrun as (evs & Htr & Hev).
    exists ([EvRead fd len (read_ret r0); EvMsleep INPUT_ERROR_SLEEP] ++ evs).
    rewrite Htr. cbn. now rewrite <- !app_assoc.
  - inversion Hrun; subst. exists [EvRead fd len (read_ret r)]. split; reflexivity.
Qed.

Lemma read_strategy_no_fstat (fuel : nat) (fd len : Z) (m m1 : machine W)
    (o : option read_result) :
  read_strategy fuel fd len m = Done (o, m1) ->
  exists evs, trace m1 = trace m ++ evs /\ existsb is_fstat evs = false.
Proof.
  unfold read_strategy. intros Hrun.
  destruct (b_pace_control (sys m)); cbn [negb] in Hrun.
  - pose proof (do_read_acc fd len m) as [_ Htr].
    destruct (do_read fd len m) as [r0 m0]. inversion Hrun; subst.
    eexists. split; [exact Htr|reflexivity].
  - destruct (b_kfir (sys m)); cbn [negb] in Hrun.
    + destruct (kfir_read fuel fd len m) as [[r0 m0]| | | |] eqn:Hk; try discriminate.
      cbn in Hrun. inversion Hrun; subst. eapply kfir_read_no_fstat; eassumption.
    + destruct (poll_wait fuel fd m) as [[ready m0]| | | |] eqn:Hp; try discriminate.
      cbn in Hrun. apply poll_wait_no_fstat in Hp as (evs & Htr0 & Hev).
      destruct ready.
      * pose proof (do_read_acc fd len m0) as [_ Htr].
        destruct (do_read fd len m0) as [r0 m2]. inversion Hrun; subst.
        cbn [fst snd] in *.
        exists (evs ++ [EvRead fd len (read_ret r0)]).
        rewrite Htr, Htr0, <- app_assoc. split; [reflexivity|].
        rewrite existsb_app, Hev. reflexivity.
      * inversion Hrun; subst. eauto.
Qed.

Lemma bookkeeping_size_zero (fd : Z) (r : read_result) (m m1 m4 : machine W) :
  acc m1 = acc m ->
  i_size (inf m) = 0 ->
  track_size fd (count_read (after_failed_read r m1)) = Done m4 ->
  i_size (inf m4) = 0
  /\ sizev (sys m4) = sizev (sys m)
  /\ i_update (inf m4) = i_update (inf m)
  /\ exists evs, trace m4 = trace m1 ++ evs /\ existsb is_fstat evs = false.
Proof.
  intros Hacc Hz Ht.
  assert (Hinf : inf (count_read (after_failed_read r m1)) = inf m).
  { change (inf (after_failed_read r m1) = inf m).
    now rewrite (inf_of_acc _ _ (after_failed_read_acc _ _)), (inf_of_acc _ _ Hacc). }
  assert (Hsv : sizev (sys (count_read (after_failed_read r m1))) = sizev (sys m)).
  { change (sizev (sys (after_failed_read r m1)) = sizev (sys m)).
    now rewrite (sys_of_acc _ _ (after_failed_read_acc _ _)), (sys_of_acc _ _ Hacc). }
  rewrite track_size_zero in Ht by (rewrite Hinf; exact Hz).
  inversion Ht; subst m4. rewrite Hinf, Hsv.
  split; [exact Hz|]. split; [reflexivity|]. split; [reflexivity|].
  change (trace (count_read (after_failed_read r m1)))
    with (trace (after_failed_read r m1)).
  rewrite after_failed_read_trace. eexists. split; [reflexivity|].
  destruct r as [|e]; [reflexivity|destruct e; reflexivity].
Qed.

Lemma Read_run_size_zero (fuel : nat) (len : Z) (m : machine W)
    (res : Z * list Byte.byte * machine W) :
  Read_run fuel len m res ->
  i_size (inf m) = 0 ->
  i_size (inf (snd res)) = 0
  /\ sizev (sys (snd res)) = sizev (sys m)
  /\ i_update (inf (snd res)) = i_update (inf m)
  /\ exists evs, trace (snd res) = trace m ++ evs /\ existsb is_fstat evs = false.
Proof.
  intros Hrun.
  induction Hrun as [m m1 fd Hfd Hs
                    |m m1 m4 fd r res Hfd Hs Ht Hr Hlt Hrun IH
                    |m m1 m4 fd r Hfd Hs Ht Hr Hge
                    |m m1 m4 fd r Hfd Hs Ht Hr];
    intros Hz;
    destruct (read_strategy_no_fstat _ _ _ _ _ _ Hs) as (evs1 & Htr1 & Hev1).
  - apply read_strategy_none in Hs as (Hacc & _). cbn [snd].
    rewrite (inf_of_acc _ _ Hacc), (sys_of_acc _ _ Hacc).
    split; [exact Hz|]. split; [reflexivity|]. split; [reflexivity|]. eauto.
  - pose proof (read_strategy_some _ _ _ _ _ _ Hs) as [Hacc _].
    destruct (bookkeeping_size_zero _ _ _ _ _ Hacc Hz Ht)
      as (Hsz4 & Hsv4 & Hup4 & evs2 & Htr2 & Hev2).
    destruct IH as (Hsz & Hsv & Hup & evs3 & Htr3 & Hev3); [st_simpl; exact Hsz4|].
    st_simpl. rewrite Hsv4 in Hsv. rewrite Hup4 in Hup.
    split; [exact Hsz|]. split; [exact Hsv|]. split; [exact Hup|].
    exists (evs1 ++ evs2 ++ evs3).
    rewrite Htr3, Htr2, Htr1, <- !app_assoc. split; [reflexivity|].
    now rewrite !existsb_app, Hev1, Hev2, Hev3.
  - pose proof (read_strategy_some _ _ _ _ _ _ Hs) as [Hacc _].
    destruct (bookkeeping_size_zero _ _ _ _ _ Hacc Hz Ht)
      as (Hsz4 & Hsv4 & Hup4 & evs2 & Htr2 & Hev2).
    match goal with
    | |- context [finish_read ?r ?x] =>
        destruct (finish_read_fields r x) as (Hsys & Hsz & Hup & _ & Htr)
    end.
    rewrite Hsys, Hsz, Hup, Htr. st_simpl.
    split; [exact Hsz4|]. split; [exact Hsv4|]. split; [exact Hup4|].
    exists (evs1 ++ evs2).
    rewrite Htr2, Htr1, <- !app_assoc. split; [reflexivity|].
    now rewrite !existsb_app, Hev1, Hev2.
  - pose proof (read_strategy_some _ _ _ _ _ _ Hs) as [Hacc _].
    destruct (bookkeeping_size_zero _ _ _ _ _ Hacc Hz Ht)
      as (Hsz4 & Hsv4 & Hup4 & evs2 & Htr2 & Hev2).
    destruct (finish_read_fields r m4) as (Hsys & Hsz & Hup & _ & Htr).
    rewrite Hsys, Hsz, Hup, Htr.
    split; [exact Hsz4|]. split; [exact Hsv4|]. split; [exact Hup4|].
    exists (evs1 ++ evs2).
    rewrite Htr2, Htr1, <- !app_assoc. split; [reflexivity|].
    now rewrite !existsb_app, Hev1, Hev2.
Qed.

(** X20.  On a stream whose size is 0, as that of a pipe or of a file
    that was empty when it was opened as a "stream", [Read] never looks
    at the size of a file: it calls no [fstat], and the size, the size
    table and the update flags stay as they are, however much the files
    have grown. *)
Theorem Read_size_zero_never_updated (fuel : nat) (len ret : Z) (bs : list Byte.byte)
    (m m' : machine W) :
  i_size (inf m) = 0 ->
  Read fuel len m = Done (ret, bs, m') ->
  i_size (inf m') = 0
  /\ sizev (sys m') = sizev (sys m)
  /\ i_update (inf m') = i_update (inf m)
  /\ exists evs, trace m' = trace m ++ evs /\ existsb is_fstat evs = false.
Proof.
  intros Hz Hrun. apply Read_run_of_Read in Hrun.
  exact (Read_run_size_zero _ _ _ _ Hrun Hz).
Qed.

(** ** Read: a failing [read] *)

Lemma no_read_no_failed_read (l : list event) :
  existsb is_read l = false -> existsb is_failed_read l = false.
Proof.
  induction l as [|e l IH]; [reflexivity|]. cbn.
  intros Hno. apply orb_false_iff in Hno as [He Hl]. rewrite (IH Hl).
  destruct e; try reflexivity. discriminate.
Qed.

Lemma kfir_read_reads (fuel : nat) (fd len : Z) :
  forall (m m1 : machine W) (r : read_result),
    kfir_read fuel fd len m = Done (r, m1) ->
    exists evs,
      trace m1 = trace m ++ evs ++ [EvRead fd len (read_ret r)]
      /\ existsb is_failed_read evs = false.
Proof.
  induction fuel as [|fuel IH]; intros m m1 r Hrun; simpl in Hrun; [discriminate|].
  unfold do_read in Hrun. destruct (sys_read fd len (world m)) as [r0 w].
  destruct (Z.eqb_spec (read_ret r0) 0) as [Hz|Hz]; cbn [andb] in Hrun.
  - destruct (negb (sys_die _)).
    + apply IH in Hrun as (evs & Htr & Hno).
      exists ([EvRead fd len (read_ret r0); EvMsleep INPUT_ERROR_SLEEP] ++ evs).
      rewrite Htr. cbn [trace emit set_world msleep]. st_simpl.
      rewrite <- !app_assoc. split; [reflexivity|].
      cbn. rewrite Hz, Hno. reflexivity.
    + inversion Hrun; subst. exists []. split; reflexivity.
  - inversion Hrun; subst. exists []. split; reflexivity.
Qed.

(** A strategy that comes back with the result of a [read] ends with
    that [read], and no [read] before it failed. *)
Lemma read_strategy_reads (fuel : nat) (fd len : Z) (m m1 : machine W) (r : read_result) :
  read_strategy fuel fd len m = Done (Some r, m1) ->
  exists evs,
    trace m1 = trace m ++ evs ++ [EvRead fd len (read_ret r)]
    /\ existsb is_failed_read evs = false.
Proof.
  unfold read_strategy. intros Hrun.
  destruct (b_pace_control (sys m)); cbn [negb] in Hrun.
  - pose proof (do_read_acc fd len m) as [_ Htr].
    destruct (do_read fd len m) as [r0 m0]. inversion Hrun; subst.
    exists []. split; [exact Htr|reflexivity].
  - destruct (b_kfir (sys m)); cbn [negb] in Hrun.
    + destruct (kfir_read fuel fd len m) as [[r0 m0]| | | |] eqn:Hk; try discriminate.
      cbn in Hrun. inversion Hrun; subst. now apply kfir_read_reads in Hk.
    + destruct (poll_wait fuel fd m) as [[ready m0]| | | |] eqn:Hp; try discriminate.
      cbn in Hrun. destruct ready; [|discriminate].
      apply poll_wait_ready in Hp as (evs & Htr0 & Hno & _).
      pose proof (do_read_acc fd len m0) as [_ Htr].
      destruct (do_read fd len m0) as [r0 m2]. inversion Hrun; subst.
      cbn [fst snd] in *. exists evs.
      split; [rewrite Htr, Htr0, <- app_assoc; reflexivity|].
      now apply no_read_no_failed_read.
Qed.

Lemma read_strategy_stopped_reads (fuel : nat) (fd len : Z) (m m1 : machine W) :
  read_strategy fuel fd len m = Done (None, m1) ->
  exists evs, trace m1 = trace m ++ evs /\ existsb is_failed_read evs = false.
Proof.
  unfold read_strategy. intros Hrun.
  destruct (b_pace_control (sys m)); cbn [negb] in Hrun.
  - destruct (do_read fd len m). discriminate.
  - destruct (b_kfir (sys m)); cbn [negb] in Hrun.
    + destruct (kfir_read fuel fd len m) as [[r0 m0]| | | |]; discriminate.
    + destruct (poll_wait fuel fd m) as [[ready m0]| | | |] eqn:Hp; try discriminate.
      cbn in Hrun. destruct ready.
      * destruct (do_read fd len m0). discriminate.
      * inversion Hrun; subst.
        apply poll_wait_ready in Hp as (evs & Htr0 & Hno & _).
        exists evs. split; [exact Htr0|now apply no_read_no_failed_read].
Qed.

(** The events of one turn of [Read] after its strategy: the reports and
    the sleep of a failed [read], then the look at the size, if any. *)
Lemma bookkeeping_trace (fd : Z) (r : read_result) (m m1 m4 : machine W) :
  acc m1 = acc m ->
  track_size fd (count_read (after_failed_read r m1)) = Done m4 ->
  exists tail,
    trace m4
    = trace m1
      ++ match r with
         | RdBytes _ => []
         | RdErr e => fatal_reports e ++ [EvMsleep INPUT_ERROR_SLEEP]
         end
      ++ tail
    /\ (tail = [] \/ exists st, tail = [EvFstat fd st])
    /\ existsb is_failed_read
         (match r with
          | RdBytes _ => []
          | RdErr e => fatal_reports e ++ [EvMsleep INPUT_ERROR_SLEEP]
          end ++ tail) = false.
Proof.
  intros Hacc Ht.
  destruct (bookkeeping_frame _ _ _ _ _ Hacc Ht) as (_ & _ & _ & _ & _ & tail & Htr & Htail).
  exists tail. rewrite Htr, after_failed_read_trace, <- app_assoc.
  split; [reflexivity|]. split; [exact Htail|].
  rewrite existsb_app.
  assert (Ht0 : existsb is_failed_read tail = false)
    by (destruct Htail as [->|[st ->]]; reflexivity).
  rewrite Ht0, orb_false_r.
  destruct r as [|e]; [reflexivity|destruct e; reflexivity].
Qed.

Lemma read_ret_failed (r : read_result) :
  (read_ret r <? 0) = match r with RdBytes _ => false | RdErr _ => true end.
Proof.
  destruct r as [bs|e]; cbn [read_ret]; [|reflexivity].
  destruct (Z.ltb_spec (Z.of_nat (length bs)) 0); [lia|reflexivity].
Qed.

(** The events of one turn of [Read] whose strategy came back with the
    result of a [read]. *)
Lemma Read_turn_trace (fuel : nat) (fd len : Z) (r : read_result) (m m1 m4 : machine W) :
  read_strategy fuel fd len m = Done (Some r, m1) ->
  track_size fd (count_read (after_failed_read r m1)) = Done m4 ->
  exists evs1 tail,
    trace m4
    = trace m
      ++ evs1 ++ [EvRead fd len (read_ret r)]
      ++ match r with
         | RdBytes _ => []
         | RdErr e => fatal_reports e ++ [EvMsleep INPUT_ERROR_SLEEP]
         end
      ++ tail
    /\ existsb is_failed_read evs1 = false
    /\ (tail = [] \/ exists st, tail = [EvFstat fd st])
    /\ existsb is_failed_read
         (evs1 ++ [EvRead fd len (read_ret r)]
          ++ match r with
             | RdBytes _ => []
             | RdErr e => fatal_reports e ++ [EvMsleep INPUT_ERROR_SLEEP]
             end
          ++ tail)
       = match r with RdBytes _ => false | RdErr _ => true end.
Proof.
  intros Hs Ht.
  pose proof (read_strategy_some _ _ _ _ _ _ Hs) as [Hacc _].
  destruct (read_strategy_reads _ _ _ _ _ _ Hs) as (evs1 & Htr1 & Hno1).
  destruct (bookkeeping_trace _ _ _ _ _ Hacc Ht) as (tail & Htr4 & Htail & Hno4).
  exists evs1, tail.
  split; [rewrite Htr4, Htr1, <- !app_assoc; reflexivity|].
  split; [exact Hno1|]. split; [exact Htail|].
  rewrite existsb_app, Hno1. cbn [orb app existsb is_failed_read].
  rewrite Hno4, orb_false_r. apply read_ret_failed.
Qed.

Lemma Read_run_failure (fuel : nat) (len : Z) (m : machine W)
    (res : Z * list Byte.byte * machine W) :
  Read_run fuel len m res ->
  exists evs,
    trace (snd res) = trace m ++ evs
    /\ (fst (fst res) = -1 <-> existsb is_failed_read evs = true)
    /\ (fst (fst res) = -1 ->
        snd (fst res) = []
        /\ i_pos (inf (snd res)) = i_pos (inf m)
        /\ b_eof (inf (snd res)) = b_eof (inf m)
        /\ exists pre fd e tail,
             evs = pre ++ [EvRead fd len (-1)] ++ fatal_reports e
                   ++ [EvMsleep INPUT_ERROR_SLEEP] ++ tail
             /\ existsb is_failed_read pre = false
             /\ (tail = [] \/ exists st, tail = [EvFstat fd st])
             /\ filev (sys m) !! Z.to_nat (filep (sys (snd res))) = Some fd).
Proof.
  intros Hrun.
  induction Hrun as [m m1 fd Hfd Hs
                    |m m1 m4 fd r res Hfd Hs Ht Hr Hlt Hrun IH
                    |m m1 m4 fd r Hfd Hs Ht Hr Hge
                    |m m1 m4 fd r Hfd Hs Ht Hr].
  - destruct (read_strategy_stopped_reads _ _ _ _ _ Hs) as (evs & Htr & Hno).
    exists evs. cbn [fst snd]. split; [exact Htr|].
    split; [rewrite Hno; split; discriminate|discriminate].
  - pose proof (read_strategy_some _ _ _ _ _ _ Hs) as [Hacc _].
    destruct (Read_turn_trace _ _ _ _ _ _ _ Hs Ht) as (evs1 & tail & Htr4 & _ & _ & Hturn).
    destruct (bookkeeping_fields _ _ _ _ _ Hacc Ht)
      as (_ & _ & Hfv & _ & _ & _ & _ & Hpos & Heof & _).
    destruct IH as (evs3 & Htr3 & Hiff & Hfail). st_simpl.
    rewrite Hfv, Hpos, Heof in Hfail.
    assert (Hbytes : match r with RdBytes _ => false | RdErr _ => true end = false)
      by (destruct r; [reflexivity|discriminate]).
    rewrite Hbytes in Hturn.
    set (turn := evs1 ++ [EvRead fd len (read_ret r)]
                 ++ match r with
                    | RdBytes _ => []
                    | RdErr e => fatal_reports e ++ [EvMsleep INPUT_ERROR_SLEEP]
                    end ++ tail) in *.
    exists (turn ++ evs3).
    split; [rewrite Htr3, Htr4, <- app_assoc; reflexivity|].
    split; [rewrite existsb_app, Hturn; exact Hiff|].
    intros Hret.
    destruct (Hfail Hret) as (Hbs & Hp & He & pre & fd' & e & tail' & Hevs & Hnp & Ht' & Hfd').
    split; [exact Hbs|]. split; [exact Hp|]. split; [exact He|].
    exists (turn ++ pre), fd', e, tail'.
    split; [rewrite Hevs, <- !app_assoc; reflexivity|].
    split; [rewrite existsb_app, Hturn, Hnp; reflexivity|].
    split; [exact Ht'|exact Hfd'].
  - destruct (Read_turn_trace _ _ _ _ _ _ _ Hs Ht) as (evs1 & tail & Htr4 & _ & _ & Hturn).
    assert (Hbytes : match r with RdBytes _ => false | RdErr _ => true end = false)
      by (destruct r; [reflexivity|discriminate]).
    rewrite Hbytes in Hturn.
    match goal with
    | |- context [finish_read ?r ?x] =>
        destruct (finish_read_fields r x) as (_ & _ & _ & _ & Htr)
    end.
    eexists. split; [rewrite Htr; st_simpl; exact Htr4|].
    rewrite Hturn. unfold finish_read. cbn [fst snd]. rewrite Hr.
    split; [split; discriminate|discriminate].
  - pose proof (read_strategy_some _ _ _ _ _ _ Hs) as [Hacc _].
    destruct (Read_turn_trace _ _ _ _ _ _ _ Hs Ht)
      as (evs1 & tail & Htr4 & Hno1 & Htail & Hturn).
    destruct (bookkeeping_fields _ _ _ _ _ Hacc Ht)
      as (Hfp & _ & _ & _ & _ & _ & _ & Hpos & Heof & _).
    destruct (finish_read_fields r m4) as (Hsys & _ & _ & _ & Htr).
    eexists. split; [rewrite Htr; exact Htr4|]. rewrite Hturn.
    destruct r as [data|e].
    + (* bytes *)
      unfold finish_read. cbn [fst snd read_ret read_data] in *.
      split; [split; [lia|discriminate]|lia].
    + (* the [read] failed *)
      unfold finish_read. cbn [fst snd read_ret read_data Z.ltb Z.eqb Z.compare].
      split; [split; reflexivity|]. intros _.
      split; [reflexivity|]. split; [exact Hpos|]. split; [exact Heof|].
      exists evs1, fd, e, tail.
      split; [now rewrite <- !app_assoc|]. split; [exact Hno1|].
      split; [exact Htail|]. rewrite Hfp. exact Hfd.
Qed.

(** C7, amended.  A [read] that fails is not tried again and is not
    hidden from the caller.  When the [read] of a call fails, [Read]
    returns -1 whatever [errno] is, with the position, the end-of-file
    flag and the current file as they were.  And over a whole call, the
    files it went past included: [Read] returns -1 exactly when one of
    its [read] calls failed; that [read] was the last of the call;
    position and end-of-file flag are as they were before the call, and
    the current file is the file whose [read] failed.  For EINTR and
    EAGAIN nothing is reported; for any other [errno] an error is logged
    and the user is told.  In both cases [Read] sleeps after the [read],
    before it returns; the periodic look at the size of the file may
    follow the sleep. *)
Theorem Read_failing_read (fuel : nat) (len : Z) (m : machine W) :
  (forall (fd old : Z) (e : errno) (m1 : machine W),
      filev (sys m) !! Z.to_nat (filep (sys m)) = Some fd ->
      sizev (sys m) !! Z.to_nat (filep (sys m)) = Some old ->
      read_strategy fuel fd len m = Done (Some (RdErr e), m1) ->
      exists m' tail,
        Read fuel len m = Done (-1, [], m')
        /\ trace m' = trace m1 ++ fatal_reports e ++ [EvMsleep INPUT_ERROR_SLEEP] ++ tail
        /\ (tail = [] \/ exists st, tail = [EvFstat fd st])
        /\ b_eof (inf m') = b_eof (inf m)
        /\ i_pos (inf m') = i_pos (inf m)
        /\ filep (sys m') = filep (sys m))
  /\ (forall (ret : Z) (bs : list Byte.byte) (m' : machine W),
        Read fuel len m = Done (ret, bs, m') ->
        exists evs,
          trace m' = trace m ++ evs
          /\ (ret = -1 <-> existsb is_failed_read evs = true)
          /\ (ret = -1 ->
              bs = []
              /\ i_pos (inf m') = i_pos (inf m)
              /\ b_eof (inf m') = b_eof (inf m)
              /\ exists pre fd e tail,
                   evs = pre ++ [EvRead fd len (-1)] ++ fatal_reports e
                         ++ [EvMsleep INPUT_ERROR_SLEEP] ++ tail
                   /\ existsb is_failed_read pre = false
                   /\ (tail = [] \/ exists st, tail = [EvFstat fd st])
                   /\ filev (sys m) !! Z.to_nat (filep (sys m')) = Some fd))
  /\ (forall e : errno,
        fatal_reports e
        = (if transient e then []
           else [EvErr (MsgReadFailed e); EvUserFatal (MsgReadFailed e)])).
Proof.
  split; [|split].
  - intros fd old e m1 Hfd Hold Hs.
    pose proof (read_strategy_some _ _ _ _ _ _ Hs) as [Hacc _].
    destruct (track_size_done fd old (count_read (after_failed_read (RdErr e) m1))) as [m4 Ht].
    { destruct (count_read_frame (after_failed_read (RdErr e) m1)) as (_ & Hp & _ & _ & Hsz & _).
      rewrite Hp, Hsz, (sys_of_acc _ _ (after_failed_read_acc _ _)), (sys_of_acc _ _ Hacc).
      exact Hold. }
    pose proof (bookkeeping_frame _ _ _ _ _ Hacc Ht)
      as (Hpos & Heof & Hfp & _ & _ & tail & Htr & Htail).
    unfold Read. rewrite (Read_rec_step _ _ _ _ _ _ _ _ Hfd Hs Ht).
    cbn [read_ret Z.eqb]. unfold finish_read. cbn [read_ret read_data Z.ltb Z.eqb Z.compare].
    exists m4, tail. split; [reflexivity|].
    rewrite Htr, after_failed_read_trace, <- !app_assoc.
    repeat split; assumption.
  - intros ret bs m' Hrun. apply Read_run_of_Read in Hrun.
    exact (Read_run_failure _ _ _ _ Hrun).
  - intros e. destruct e; reflexivity.
Qed.

End Properties.

(** * The module on the simulated kernel *)

(** ** Descriptors of the simulated kernel *)

Lemma sim_fd_range (fd : Z) (w : sim_world) (f : sim_file) :
  sim_fd fd w = Some f -> 0 <= fd /\ (Z.to_nat fd < length (sw_fds w))%nat.
Proof.
  unfold sim_fd. destruct (Z.ltb_spec fd 0); [discriminate|].
  destruct (sw_fds w !! Z.to_nat fd) as [o|] eqn:Hl; [|discriminate].
  intros _. split; [assumption|]. eapply lookup_lt_Some. exact Hl.
Qed.

Lemma sim_fd_put_eq (fd : Z) (w : sim_world) (f f' : sim_file) :
  sim_fd fd w = Some f -> sim_fd fd (sim_put fd f' w) = Some f'.
Proof.
  intros Hf. destruct (sim_fd_range _ _ _ Hf) as [H0 Hlen].
  unfold sim_fd, sim_put. cbn.
  destruct (Z.ltb_spec fd 0); [lia|].
  now rewrite list_lookup_insert_eq.
Qed.

Lemma sim_fd_put_ne (fd fd' : Z) (w : sim_world) (f' : sim_file) :
  0 <= fd -> fd <> fd' -> sim_fd fd' (sim_put fd f' w) = sim_fd fd' w.
Proof.
  intros H0 Hne. unfold sim_fd, sim_put. cbn.
  destruct (Z.ltb_spec fd' 0); [reflexivity|].
  rewrite list_lookup_insert_ne by lia. reflexivity.
Qed.

(** [lseek] on a descriptor leaves every other descriptor as it was. *)
Lemma sim_lseek_other (fd fd' off : Z) (w : sim_world) :
  fd <> fd' -> sim_fd fd' (sim_lseek fd off w) = sim_fd fd' w.
Proof.
  intros Hne. unfold sim_lseek.
  destruct (sim_fd fd w) as [f|] eqn:Hf; [|reflexivity].
  destruct (sim_fd_range _ _ _ Hf) as [H0 _].
  destruct (sf_type f); try reflexivity;
    (destruct (off <? 0); [reflexivity|now apply sim_fd_put_ne]).
Qed.

Lemma sim_lseek_plain (fd off : Z) (w : sim_world) (f : sim_file) :
  sim_fd fd w = Some f -> plain_file f -> 0 <= off ->
  sim_fd fd (sim_lseek fd off w) = Some (sf_with_off off f).
Proof.
  intros Hf (_ & Hfifo & Hsock) Hoff. unfold sim_lseek. rewrite Hf.
  destruct (Z.ltb_spec off 0); [lia|].
  destruct (sf_type f); try contradiction; now apply (sim_fd_put_eq _ _ f).
Qed.

(** [read] on a file with nothing scripted gives the bytes at the offset
    of the descriptor. *)
Lemma sim_read_plain (fd len : Z) (w : sim_world) (f : sim_file) :
  sim_fd fd w = Some f -> sf_script f = [] ->
  sim_read fd len w
  = (RdBytes (take (Z.to_nat len) (drop (Z.to_nat (sf_off f)) (sf_data f))),
     sim_put fd
       (sf_with_off
          (sf_off f + Z.of_nat (length (take (Z.to_nat len)
                                          (drop (Z.to_nat (sf_off f)) (sf_data f))))) f) w).
Proof. intros Hf Hs. unfold sim_read. now rewrite Hf, Hs. Qed.

(** ** Bytes of several files *)

Lemma sum_sizes_lengths (ds : list sim_file) :
  sum_sizes (map (fun f => Z.of_nat (length (sf_data f))) ds)
  = Z.of_nat (length (stream_bytes ds)).
Proof.
  unfold stream_bytes.
  induction ds as [|d ds IH]; [reflexivity|].
  cbn [map concat sum_sizes foldr]. rewrite length_app.
  change (foldr Z.add 0 ?l) with (sum_sizes l). rewrite IH. lia.
Qed.

(** The bytes of the stream from an offset inside file [j] start with
    the bytes of that file from the offset. *)
Lemma stream_bytes_from (ds : list sim_file) (j off : nat) (d : sim_file) :
  ds !! j = Some d ->
  (off <= length (sf_data d))%nat ->
  drop (length (stream_bytes (take j ds)) + off) (stream_bytes ds)
  = drop off (sf_data d) ++ stream_bytes (drop (S j) ds).
Proof.
  intros Hd Hoff. unfold stream_bytes.
  rewrite <- (take_drop_middle ds j d Hd) at 2.
  rewrite map_app, concat_app. cbn [map concat].
  rewrite drop_app_add'. 2: reflexivity.
  now rewrite drop_app_le by lia.
Qed.

Lemma sum_sizes_take_le (l : list Z) (j : nat) :
  Forall (fun z => 0 <= z) l -> sum_sizes (take j l) <= sum_sizes l.
Proof.
  intros Hnn. rewrite <- (sum_sizes_take_drop j l).
  pose proof (sum_sizes_nonneg (drop j l) (Forall_drop _ _ _ Hnn)). sums_lia.
Qed.

(** In the standard mode the strategy is one [read]. *)
Lemma read_strategy_plain (fuel : nat) (fd len : Z) (m : machine sim_world) (f : sim_file) :
  b_pace_control (sys m) = true ->
  sim_fd fd (world m) = Some f ->
  sf_script f = [] ->
  let bs := take (Z.to_nat len) (drop (Z.to_nat (sf_off f)) (sf_data f)) in
  read_strategy fuel fd len m
  = Done (Some (RdBytes bs),
          emit (EvRead fd len (Z.of_nat (length bs)))
            (set_world (sim_put fd (sf_with_off (sf_off f + Z.of_nat (length bs)) f) (world m)) m)).
Proof.
  intros Hpace Hf Hs bs. unfold read_strategy, do_read. rewrite Hpace. cbn [negb].
  change (sys_read fd len (world m)) with (sim_read fd len (world m)).
  rewrite (sim_read_plain _ _ _ _ Hf Hs). reflexivity.
Qed.

(** ** Seek, then Read *)

(** X21.  On a stream in the standard mode whose descriptors are open
    on files that [lseek] works on, with the size table holding their
    sizes and the position inside the stream, whatever the offsets of the
    descriptors are: [Seek] to [p] with [0 <= p <= size] succeeds, stores
    [p] and selects a file and an offset [off] in it that add up to [p].
    When [off] is before the end of that file, one [Read] of [n > 0]
    bytes returns the smaller of [n] and the number of bytes left in that
    file, these bytes being the bytes of the stream from [p] on, and
    moves the position past them. *)
Theorem Seek_then_Read_inside_file (fuel : nat) (n p : Z)
    (m : machine sim_world) (files : list sim_file) :
  b_pace_control (sys m) = true ->
  tables_ok (sys m) ->
  stream_on m files ->
  sum_sizes (sizev (sys m)) = i_size (inf m) ->
  i_size (inf m) < 2 ^ 63 ->
  0 <= i_pos (inf m) <= i_size (inf m) ->
  0 <= p <= i_size (inf m) ->
  0 < n ->
  exists m1 off sz,
    Seek p m = Done (VLC_SUCCESS, m1)
    /\ i_pos (inf m1) = p
    /\ sizev (sys m) !! Z.to_nat (filep (sys m1)) = Some sz
    /\ 0 <= off <= sz
    /\ sum_sizes (take (Z.to_nat (filep (sys m1))) (sizev (sys m))) + off = p
    /\ (off < sz ->
        exists m2,
          Read fuel n m1
          = Done (Z.min n (sz - off),
                  take (Z.to_nat (Z.min n (sz - off)))
                    (drop (Z.to_nat p) (stream_bytes files)),
                  m2)
          /\ i_pos (inf m2) = p + Z.min n (sz - off)).
Proof.
  intros Hpace Hok [Hon Hsizes] Hsum Hmax Hpos Hp Hn.
  destruct (Seek_spec p m Hok Hsum Hmax Hp)
    as (j & off & sz & fd & Hj & Hsz & Hfd & Hoff & _ & Hsplit & Hseek).
  rewrite (seek_clamp_inside p m Hpos) in Hseek, Hsplit. cbn [fst snd] in Hseek, Hsplit.
  set (m1 := do_lseek fd off _) in Hseek.
  assert (Hm1 : filep (sys m1) = j /\ filev (sys m1) = filev (sys m)
                /\ sizev (sys m1) = sizev (sys m) /\ filec (sys m1) = filec (sys m)
                /\ b_pace_control (sys m1) = true /\ i_pos (inf m1) = p
                /\ world m1 = sim_lseek fd off (world m)).
  { unfold m1. st_simpl. repeat split. exact Hpace. }
  destruct Hm1 as (Hfp1 & Hfv1 & Hsv1 & Hfc1 & Hpace1 & Hpos1 & Hw1).
  clearbody m1.
  exists m1, off, sz. rewrite Hfp1.
  split; [exact Hseek|]. split; [exact Hpos1|]. split; [exact Hsz|].
  split; [exact Hoff|]. split; [exact Hsplit|].
  intros Hin.
  (* the file behind the descriptor *)
  destruct (Forall2_lookup_l _ _ _ _ _ Hon Hfd) as (f & Hf & Hopen & Hplain).
  assert (Hlen : sz = Z.of_nat (length (sf_data f))).
  { rewrite Hsizes, list_lookup_fmap, Hf in Hsz. cbn in Hsz. congruence. }
  pose proof (sim_lseek_plain fd off (world m) f Hopen Hplain ltac:(lia)) as Hopen1.
  rewrite <- Hw1 in Hopen1.
  (* the read *)
  pose proof (read_strategy_plain fuel fd n m1 _ Hpace1 Hopen1 (proj1 Hplain)) as Hs.
  cbn [sf_with_off sf_off sf_data] in Hs.
  set (bs := take (Z.to_nat n) (drop (Z.to_nat off) (sf_data f))) in Hs.
  assert (Hbs : Z.of_nat (length bs) = Z.min n (sz - off)).
  { unfold bs. rewrite length_take, length_drop. lia. }
  set (m1' := emit _ _) in Hs.
  assert (Hacc1 : acc m1' = acc m1) by reflexivity.
  destruct (track_size_done fd sz (count_read (after_failed_read (RdBytes bs) m1')))
    as [m4 Ht].
  { cbn [after_failed_read].
    destruct (count_read_frame m1') as (_ & -> & _ & _ & -> & _).
    rewrite (sys_of_acc _ _ Hacc1), Hfp1, Hsv1. exact Hsz. }
  pose proof (bookkeeping_frame _ _ _ _ _ Hacc1 Ht) as (Hpos4 & _).
  assert (Hfd1 : filev (sys m1) !! Z.to_nat (filep (sys m1)) = Some fd)
    by (rewrite Hfp1, Hfv1; exact Hfd).
  unfold Read. rewrite (Read_rec_step _ _ _ _ _ _ _ _ Hfd1 Hs Ht).
  cbn [read_ret]. rewrite Hbs.
  destruct (Z.eqb_spec (Z.min n (sz - off)) 0) as [|_]; [lia|].
  unfold finish_read. cbn [read_ret read_data]. rewrite Hbs.
  destruct (Z.ltb_spec 0 (Z.min n (sz - off))) as [_|]; [|lia].
  eexists. split.
  - do 2 f_equal. f_equal.
    (* the bytes are those of the stream *)
    assert (Hp' : Z.to_nat p
                  = (length (stream_bytes (take (Z.to_nat j) files)) + Z.to_nat off)%nat).
    { rewrite Hsizes, <- fmap_take, sum_sizes_lengths in Hsplit. lia. }
    rewrite Hp', (stream_bytes_from _ _ _ f Hf) by lia.
    rewrite take_app_le by (rewrite length_drop; lia).
    unfold bs.
    destruct (Z.le_ge_cases n (sz - off)) as [Hle|Hge].
    + now rewrite Z.min_l by lia.
    + rewrite Z.min_r by lia.
      rewrite take_ge by (rewrite length_drop; lia).
      rewrite take_ge by (rewrite length_drop; lia). reflexivity.
  - st_simpl. rewrite Hpos4, Hpos1.
    apply wrap_int64_id. unfold in_int64.
    pose proof (sum_sizes_take_le (sizev (sys m)) (S (Z.to_nat j)) (proj2 (proj2 (proj2 Hok)))) as Hle.
    rewrite (sum_sizes_take_S _ _ _ Hsz) in Hle. sums_lia.
Qed.

(** ** Which descriptors move *)

(** C9.  [Seek] calls [lseek] once, on the descriptor of the file it
    selects: every other descriptor keeps the offset it had.  And when
    [Read] finds the current file at its end and goes on to the next one,
    it calls no [lseek]: the bytes it returns are those of the next file
    from the offset its descriptor has, not from the start of the file. *)
Theorem Only_selected_descriptor_repositioned (fuel : nat) (n p : Z)
    (m mr : machine sim_world) (fd0 fd1 : Z) (f0 f1 : sim_file) :
  (* the stream [Seek] is called on *)
  tables_ok (sys m) ->
  sum_sizes (sizev (sys m)) = i_size (inf m) ->
  i_size (inf m) < 2 ^ 63 ->
  0 <= p <= i_size (inf m) ->
  (* the stream [Read] is called on: the current file is at its end,
     another file follows *)
  b_pace_control (sys mr) = true ->
  0 <= filep (sys mr) ->
  filep (sys mr) + 1 < filec (sys mr) < 2 ^ 32 ->
  (Z.to_nat (filep (sys mr) + 1) < length (sizev (sys mr)))%nat ->
  filev (sys mr) !! Z.to_nat (filep (sys mr)) = Some fd0 ->
  filev (sys mr) !! Z.to_nat (filep (sys mr) + 1) = Some fd1 ->
  fd0 <> fd1 ->
  sim_fd fd0 (world mr) = Some f0 -> sf_script f0 = [] ->
  Z.of_nat (length (sf_data f0)) <= sf_off f0 ->
  sim_fd fd1 (world mr) = Some f1 -> sf_script f1 = [] ->
  0 <= sf_off f1 < Z.of_nat (length (sf_data f1)) ->
  0 < n ->
  (exists m1 fd off evs,
     Seek p m = Done (VLC_SUCCESS, m1)
     /\ filev (sys m) !! Z.to_nat (filep (sys m1)) = Some fd
     /\ world m1 = sim_lseek fd off (world m)
     /\ trace m1 = trace m ++ evs ++ [EvLseek fd off]
     /\ existsb is_lseek evs = false
     /\ forall fd', fd' <> fd -> sim_fd fd' (world m1) = sim_fd fd' (world m))
  /\ (exists m2 evs,
        let bs := take (Z.to_nat n) (drop (Z.to_nat (sf_off f1)) (sf_data f1)) in
        Read fuel n mr = Done (Z.of_nat (length bs), bs, m2)
        /\ bs <> []
        /\ filep (sys m2) = filep (sys mr) + 1
        /\ trace m2 = trace mr ++ evs
        /\ existsb is_lseek evs = false).
Proof.
  intros Hok Hsum Hmax Hp Hpace Hfp0 Hfc Hlen Hfd0 Hfd1 Hne Ho0 Hs0 Hend Ho1 Hs1 Hoff1 Hn.
  split.
  - destruct (Seek_spec p m Hok Hsum Hmax Hp)
      as (j & off & sz & fd & Hj & Hsz & Hfd & Hoff & _ & _ & Hseek).
    pose proof (seek_clamp_sys p m) as Hsys.
    assert (Hcl : exists evs, trace (snd (seek_clamp p m)) = trace m ++ evs
                              /\ existsb is_lseek evs = false
                              /\ world (snd (seek_clamp p m)) = world m).
    { unfold seek_clamp.
      destruct (_ <? _); [exists [EvErr MsgSeekingTooFar]; repeat split|].
      destruct (_ <? _); [exists [EvErr MsgSeekingTooEarly]; repeat split|].
      exists []. cbn. now rewrite app_nil_r. }
    destruct Hcl as (evs & Htr & Hno & Hw).
    eexists _, fd, off, evs. split; [exact Hseek|].
    st_simpl. rewrite Htr, Hw, <- app_assoc.
    repeat split; try assumption.
    intros fd' Hfd'. now apply sim_lseek_other.
  - (* the read on the file at its end gives nothing *)
    pose proof (read_strategy_plain fuel fd0 n mr f0 Hpace Ho0 Hs0) as Hst0.
    cbn zeta in Hst0. rewrite drop_ge in Hst0 by lia.
    rewrite take_nil in Hst0. cbn [length] in Hst0.
    set (mr' := emit _ _) in Hst0.
    assert (Hacc' : acc mr' = acc mr) by reflexivity.
    assert (Hsz0 : is_Some (sizev (sys mr) !! Z.to_nat (filep (sys mr)))).
    { apply lookup_lt_is_Some_2. lia. }
    destruct Hsz0 as [old Hold].
    destruct (track_size_done fd0 old (count_read mr')) as [m4 Ht].
    { destruct (count_read_frame mr') as (_ & -> & _ & _ & -> & _).
      now rewrite (sys_of_acc _ _ Hacc'). }
    pose proof (track_size_frame _ _ _ Ht)
      as (_ & _ & Hfp4 & Hfc4 & Hfv4 & _ & Hpace4 & _ & Hlen4 & Hw4 & _).
    destruct (count_read_frame mr') as (_ & Hfpc & Hfcc & Hfvc & Hsvc & _ & Hwc).
    unfold count_read in Hpace4. st_simpl.
    rewrite Hfpc, (sys_of_acc _ _ Hacc') in Hfp4.
    rewrite Hfcc, (sys_of_acc _ _ Hacc') in Hfc4.
    rewrite Hfvc, (sys_of_acc _ _ Hacc') in Hfv4.
    rewrite Hsvc, (sys_of_acc _ _ Hacc') in Hlen4.
    rewrite (sys_of_acc _ _ Hacc'), Hpace in Hpace4.
    rewrite Hwc in Hw4.
    pose proof (Read_rec_zero (Z.to_nat (filec (sys mr) - filep (sys mr))) fuel n fd0
                  mr mr' m4 (RdBytes []) ltac:(lia) ltac:(lia) Hfd0 Hst0 eq_refl Ht) as Hstep.
    destruct (Z.ltb_spec (filep (sys mr) + 1) (filec (sys mr))) as [_|]; [|lia].
    set (m5 := set_acc (set_sys (with_filep (filep (sys mr) + 1))) m4) in Hstep.
    assert (Hm5 : filep (sys m5) = filep (sys mr) + 1
                  /\ filev (sys m5) = filev (sys mr)
                  /\ b_pace_control (sys m5) = true
                  /\ length (sizev (sys m5)) = length (sizev (sys mr))
                  /\ world m5 = world mr').
    { unfold m5. st_simpl. repeat split; assumption. }
    destruct Hm5 as (Hfp5 & Hfv5 & Hpace5 & Hlen5 & Hw5).
    clearbody m5.
    (* the next descriptor is as it was *)
    assert (Ho5 : sim_fd fd1 (world m5) = Some f1).
    { rewrite Hw5. unfold mr'. st_simpl.
      rewrite sim_fd_put_ne; [exact Ho1| |exact Hne].
      now destruct (sim_fd_range _ _ _ Ho0). }
    pose proof (read_strategy_plain fuel fd1 n m5 f1 Hpace5 Ho5 Hs1) as Hst1.
    cbn zeta in Hst1.
    set (bs := take (Z.to_nat n) (drop (Z.to_nat (sf_off f1)) (sf_data f1))) in *.
    assert (Hbs : (0 < length bs)%nat).
    { unfold bs. rewrite length_take, length_drop. lia. }
    set (m5' := emit _ _) in Hst1.
    assert (Hacc5 : acc m5' = acc m5) by reflexivity.
    assert (Hsz5 : is_Some (sizev (sys m5) !! Z.to_nat (filep (sys m5)))).
    { apply lookup_lt_is_Some_2. rewrite Hlen5, Hfp5. lia. }
    destruct Hsz5 as [old5 Hold5].
    destruct (track_size_done fd1 old5 (count_read (after_failed_read (RdBytes bs) m5')))
      as [m6 Ht6].
    { cbn [after_failed_read].
      destruct (count_read_frame m5') as (_ & -> & _ & _ & -> & _).
      now rewrite (sys_of_acc _ _ Hacc5). }
    pose proof (bookkeeping_frame _ _ _ _ _ Hacc5 Ht6) as (_ & _ & Hfp6 & _).
    assert (Hfd5 : filev (sys m5) !! Z.to_nat (filep (sys m5)) = Some fd1)
      by (rewrite Hfp5, Hfv5; exact Hfd1).
    assert (Hdepth : Z.to_nat (filec (sys mr) - filep (sys mr))
                     = S (Z.to_nat (filec (sys mr) - filep (sys mr) - 1))) by lia.
    rewrite Hdepth in Hstep.
    rewrite (Read_rec_step _ _ _ _ _ _ _ _ Hfd5 Hst1 Ht6) in Hstep.
    cbn [read_ret] in Hstep.
    destruct (Z.eqb_spec (Z.of_nat (length bs)) 0) as [|_]; [lia|].
    unfold finish_read in Hstep. cbn [read_ret read_data] in Hstep.
    destruct (Z.ltb_spec 0 (Z.of_nat (length bs))) as [_|]; [|lia].
    rewrite <- Hdepth in Hstep. fold (Read fuel n mr) in Hstep.
    pose proof Hstep as Hstep'. unfold Read in Hstep'.
    destruct (Read_rec_no_lseek fuel n _ _ _ _ _ Hstep') as (evs & Htr & Hno).
    eexists _, evs. split; [exact Hstep|].
    split; [intros Hnil; rewrite Hnil in Hbs; cbn in Hbs; lia|].
    split; [st_simpl; rewrite Hfp6, Hfp5; reflexivity|].
    split; [exact Htr|exact Hno].
Qed.

(** ** Runs on concrete streams *)

Example two_opened_run :
  Open (Some "b"%string) (boot "file" "a" two_files) = Done (VLC_SUCCESS, two_opened).
Proof. vm_compute. reflexivity. Qed.

Example standard_mode_names :
  standard_mode "file" = true
  /\ standard_mode "" = true
  /\ standard_mode "stream" = false
  /\ standard_mode "Stream" = false
  /\ standard_mode "kfir" = false.
Proof. repeat split; reflexivity. Qed.

(** One pipe among the files, or the name "stream", and the stream is
    not seekable. *)
Example Open_not_seekable :
  Open (Some "p"%string) (boot "file" "a" with_pipe) = Done (VLC_SUCCESS, with_pipe_opened)
  /\ b_seekable (sys with_pipe_opened) = false
  /\ Open (Some "b"%string) (boot "Stream" "a" two_files) = Done (VLC_SUCCESS, two_streamed)
  /\ b_seekable (sys two_streamed) = false
  /\ b_seekable (sys two_opened) = true.
Proof. repeat split; vm_compute; reflexivity. Qed.

(** Read after read, a fresh stream of "abc" and "defgh" gives "abc",
    then "defgh", then the end of the stream. *)
Example two_files_read_in_turn :
  Read 1 8 two_opened = Done (3, bytes "abc", two_after_first)
  /\ Read 1 8 two_after_first = Done (5, bytes "defgh", two_after_second)
  /\ Read 1 8 two_after_second = Done (0, [], two_read_through)
  /\ b_eof (inf two_read_through) = true.
Proof. vm_compute. repeat split; reflexivity. Qed.

(** Closed goals about concrete runs. *)
Ltac run :=
  repeat split;
  first
    [ lia
    | vm_compute;
      first [ reflexivity | discriminate | (intro; discriminate) | lia
            | (repeat constructor; first [ discriminate | (intro; discriminate) | lia ]) ] ].

(** C1 fails on the code.  The stream of "abc" and "defgh" was read to
    its end: it is seekable, of size 8, at position 8.  [Seek] to 3, the
    border of the two files, succeeds and stores position 3; its loop
    stops at the first file, whose size is not below 3, and the [lseek]
    puts the descriptor of that file at its end.  [Read] then finds no
    byte there and goes on to the second file without a call of [lseek]:
    the descriptor of that file is still at its end, and [Read] returns 0
    with the end-of-file flag, where the stream has "defgh" from position
    3 on.  One byte further, [Seek] to 4 selects the second file and the
    same calls give "efgh", the bytes of the stream from position 4. *)
Theorem Seek_to_border_then_Read_misses :
  (b_seekable (sys two_read_through) = true
   /\ i_size (inf two_read_through) = 8
   /\ i_pos (inf two_read_through) = 8)
  /\ (Seek 3 two_read_through = Done (VLC_SUCCESS, two_rewound)
      /\ i_pos (inf two_rewound) = 3
      /\ filep (sys two_rewound) = 0
      /\ trace two_rewound = trace two_read_through ++ [EvLseek 3 3]
      /\ Read 1 8 two_rewound = Done (0, [], two_rewound_read)
      /\ b_eof (inf two_rewound_read) = true
      /\ trace two_rewound_read = trace two_rewound ++ [EvRead 3 8 0; EvRead 4 8 0]
      /\ take 8 (drop 3 (stream_bytes (map snd two_files))) = bytes "defgh")
  /\ (Seek 4 two_read_through = Done (VLC_SUCCESS, two_rewound_4)
      /\ trace two_rewound_4 = trace two_read_through ++ [EvLseek 4 1]
      /\ Read 1 8 two_rewound_4 = Done (4, bytes "efgh", two_rewound_4_read)
      /\ take 8 (drop 4 (stream_bytes (map snd two_files))) = bytes "efgh").
Proof. run. Qed.

(** C3 fails on the code.  The two tests at the top of [Seek] look at the
    position the stream has, not at the target.  On the fresh stream of
    "abc" and "defgh" (size 8, position 0), [Seek] to 100 is not brought
    back to 8: the loop runs past the last file and the assertion fails;
    [Seek] to -5 returns [VLC_SUCCESS] with the position at -5, after an
    [lseek] to -5. *)
Theorem Seek_target_not_clamped :
  i_size (inf two_opened) = 8
  /\ i_pos (inf two_opened) = 0
  /\ Seek 100 two_opened = AssertFailed
  /\ Seek (-5) two_opened = Done (VLC_SUCCESS, two_seek_minus)
  /\ i_pos (inf two_seek_minus) = -5
  /\ trace two_seek_minus = trace two_opened ++ [EvLseek 3 (-5)].
Proof. run. Qed.

(** C8 fails on the code in the kfir strategy.  With [b_die] set and two
    files, the first of which has no byte to give, [Read] leaves the
    retry loop, takes the empty [read] for the end of the first file, goes
    on to the second file and returns its byte. *)
Theorem Read_kfir_goes_on_after_stop :
  b_kfir (sys kfir_dying) = true
  /\ b_pace_control (sys kfir_dying) = false
  /\ sys_die (world kfir_dying) = true
  /\ Read 5 8 kfir_dying = Done (1, bytes "x", kfir_dying_read)
  /\ trace kfir_dying_read = trace kfir_dying ++ [EvRead 3 8 0; EvRead 4 8 1].
Proof. run. Qed.

(** With one file the same call returns 0, with the end-of-file flag set. *)
Example Read_kfir_stop_one_file :
  sys_die (world kfir_dying_one) = true
  /\ Read 5 8 kfir_dying_one = Done (0, [], kfir_dying_one_read)
  /\ b_eof (inf kfir_dying_one_read) = true.
Proof. run. Qed.

(** C7 as stated fails.  A [read] that fails with EINTR is not retried
    and not hidden from the caller: [Read] returns -1, the value it
    returns when the [read] fails with EIO. *)
Lemma Read_transient_error_returned :
  returned (Read 1 8 (failing_opened EINTR)) = Some (-1, [])
  /\ returned (Read 1 8 (failing_opened EIO)) = Some (-1, []).
Proof. run. Qed.

(** C6 as stated fails.  A stream of logical size 0: the file has grown
    to 20 bytes, the tenth call of [Read] brings the counter to a
    multiple of INPUT_FSTAT_NB_READS, and neither the logical size nor the
    size table follow; the file is not even looked at. *)
Lemma Read_no_look_when_size_zero :
  i_size (inf growing_nine) = 0
  /\ Read 1 1 growing_nine = Done (1, bytes "9", growing_ten)
  /\ i_nb_reads (sys growing_ten) mod INPUT_FSTAT_NB_READS = 0
  /\ sys_fstat 3 (world growing_ten) = Some {| st_mode := S_IFREG; st_size := 20 |}
  /\ sizev (sys growing_ten) = [0]
  /\ i_size (inf growing_ten) = 0
  /\ length (fstat_oks (trace growing_ten)) = 1%nat.
Proof. run. Qed.

(** Opening a directory: the descriptor is closed again, and the kernel
    has no descriptor left open but the three standard ones. *)
Example Open_directory_closes :
  Open (Some ""%string) dir_booted = Done (VLC_EGENERIC, dir_failed)
  /\ fds_opened (trace dir_failed) = [3]
  /\ fds_closed (trace dir_failed) = [3]
  /\ sim_fd 3 (world dir_failed) = None
  /\ length (sw_fds (world dir_failed)) = 4%nat.
Proof. repeat split; vm_compute; reflexivity. Qed.

(** C5 as stated fails.  The path is opened, it is no directory, and the
    stream is not seekable, yet [Open] returns [VLC_EGENERIC]: [fstat]
    failed on the descriptor. *)
Lemma Open_fails_when_fstat_fails :
  Open (Some ""%string) unprobed_booted = Done (VLC_EGENERIC, unprobed_failed)
  /\ existsb open_refused (trace unprobed_failed) = false
  /\ existsb found_directory (trace unprobed_failed) = false
  /\ standard_mode (psz_access (acc unprobed_booted)) = false
  /\ existsb fstat_refused (trace unprobed_failed) = true.
Proof. run. Qed.

(** ** The theorems at concrete streams *)

Lemma Seek_index_in_bounds_witness :
  (tables_ok (sys two_opened)
   /\ sum_sizes (sizev (sys two_opened)) = i_size (inf two_opened)
   /\ i_size (inf two_opened) < 2 ^ 63
   /\ 0 <= 4 <= i_size (inf two_opened))
  /\ exists m' fd sz,
       Seek 4 two_opened = Done (VLC_SUCCESS, m')
       /\ 0 <= filep (sys m') < filec (sys two_opened)
       /\ filev (sys two_opened) !! Z.to_nat (filep (sys m')) = Some fd
       /\ sizev (sys two_opened) !! Z.to_nat (filep (sys m')) = Some sz.
Proof.
  assert (H1 : tables_ok (sys two_opened)) by run.
  assert (H2 : sum_sizes (sizev (sys two_opened)) = i_size (inf two_opened)) by run.
  assert (H3 : i_size (inf two_opened) < 2 ^ 63) by run.
  assert (H4 : 0 <= 4 <= i_size (inf two_opened)) by run.
  split; [auto|]. exact (Seek_index_in_bounds 4 two_opened H1 H2 H3 H4).
Defined.

Lemma Read_failing_read_witness :
  ((filev (sys (failing_opened EIO)) !! Z.to_nat (filep (sys (failing_opened EIO))) = Some 3
    /\ sizev (sys (failing_opened EIO)) !! Z.to_nat (filep (sys (failing_opened EIO))) = Some 3
    /\ read_strategy 1 3 8 (failing_opened EIO)
       = Done (Some (RdErr EIO), failing_after_read EIO))
   /\ exists m' tail,
        Read 1 8 (failing_opened EIO) = Done (-1, [], m')
        /\ trace m'
           = trace (failing_after_read EIO)
             ++ fatal_reports EIO ++ [EvMsleep INPUT_ERROR_SLEEP] ++ tail
        /\ (tail = [] \/ exists st, tail = [EvFstat 3 st])
        /\ b_eof (inf m') = b_eof (inf (failing_opened EIO))
        /\ i_pos (inf m') = i_pos (inf (failing_opened EIO))
        /\ filep (sys m') = filep (sys (failing_opened EIO)))
  /\ (Read 1 8 hollow_opened = Done (-1, [], hollow_read)
      /\ exists evs,
           trace hollow_read = trace hollow_opened ++ evs
           /\ (-1 = -1 <-> existsb is_failed_read evs = true)
           /\ (-1 = -1 ->
               @nil Byte.byte = []
               /\ i_pos (inf hollow_read) = i_pos (inf hollow_opened)
               /\ b_eof (inf hollow_read) = b_eof (inf hollow_opened)
               /\ exists pre fd e tail,
                    evs = pre ++ [EvRead fd 8 (-1)] ++ fatal_reports e
                          ++ [EvMsleep INPUT_ERROR_SLEEP] ++ tail
                    /\ existsb is_failed_read pre = false
                    /\ (tail = [] \/ exists st, tail = [EvFstat fd st])
                    /\ filev (sys hollow_opened) !! Z.to_nat (filep (sys hollow_read))
                       = Some fd))
  /\ fatal_reports EIO
     = (if transient EIO then []
        else [EvErr (MsgReadFailed EIO); EvUserFatal (MsgReadFailed EIO)]).
Proof.
  assert (H1 : filev (sys (failing_opened EIO))
                 !! Z.to_nat (filep (sys (failing_opened EIO))) = Some 3) by run.
  assert (H2 : sizev (sys (failing_opened EIO))
                 !! Z.to_nat (filep (sys (failing_opened EIO))) = Some 3) by run.
  assert (H3 : read_strategy 1 3 8 (failing_opened EIO)
               = Done (Some (RdErr EIO), failing_after_read EIO)) by run.
  assert (H4 : Read 1 8 hollow_opened = Done (-1, [], hollow_read)) by run.
  split; [split; [auto|]|split; [split; [exact H4|]|]].
  - exact (proj1 (Read_failing_read 1 8 (failing_opened EIO))
             3 3 EIO (failing_after_read EIO) H1 H2 H3).
  - exact (proj1 (proj2 (Read_failing_read 1 8 hollow_opened)) (-1) [] hollow_read H4).
  - exact (proj2 (proj2 (Read_failing_read 1 8 hollow_opened)) EIO).
Defined.

Lemma Read_eof_after_last_file_witness :
  (0 <= filep (sys two_after_second) < filec (sys two_after_second)
   /\ filec (sys two_after_second) < 2 ^ 32)
  /\ b_eof (inf two_after_second) = false
  /\ b_eof (inf two_read_through) = true
  /\ filep (sys two_read_through) = filec (sys two_after_second) - 1
  /\ exists fd,
       filev (sys two_after_second) !! Z.to_nat (filec (sys two_after_second) - 1) = Some fd
       /\ last_read (trace two_read_through) = Some (fd, 0).
Proof.
  assert (H1 : 0 <= filep (sys two_after_second) < filec (sys two_after_second)) by run.
  assert (H2 : filec (sys two_after_second) < 2 ^ 32) by run.
  assert (H3 : Read 1 8 two_after_second = Done (0, [], two_read_through)) by run.
  assert (H4 : b_eof (inf two_after_second) = false) by run.
  assert (H5 : b_eof (inf two_read_through) = true) by run.
  split; [auto|]. split; [exact H4|]. split; [exact H5|].
  exact (proj2 (proj2 (Read_eof_after_last_file 1 8 two_after_second H1 H2)
                  0 [] two_read_through H3 H4 H5)).
Defined.

Lemma Read_size_drift_witness :
  (filev (sys drift_start) !! Z.to_nat (filep (sys drift_start)) = Some 3
   /\ sizev (sys drift_start) !! Z.to_nat (filep (sys drift_start)) = Some 3
   /\ read_strategy 1 3 8 drift_start
      = Done (Some (RdBytes (bytes "abcXY")), drift_after_read))
  /\ exists m4,
       Read 1 8 drift_start
       = read_tail (Read_rec (Z.to_nat (filec (sys drift_start) - filep (sys drift_start))) 1 8)
           (RdBytes (bytes "abcXY")) m4
       /\ i_nb_reads (sys m4) = 10
       /\ i_size (inf m4) = wrap_int64 (8 + wrap_int64 (5 - 3))
       /\ (in_int64 (5 - 3) -> in_int64 (8 + (5 - 3)) -> i_size (inf m4) = 8 + (5 - 3))
       /\ sizev (sys m4) = [5; 5].
Proof.
  assert (H1 : filev (sys drift_start) !! Z.to_nat (filep (sys drift_start)) = Some 3) by run.
  assert (H2 : sizev (sys drift_start) !! Z.to_nat (filep (sys drift_start)) = Some 3) by run.
  assert (H3 : read_strategy 1 3 8 drift_start
               = Done (Some (RdBytes (bytes "abcXY")), drift_after_read)) by run.
  split; [auto|].
  destruct (Read_size_drift 1 8 3 3 (RdBytes (bytes "abcXY")) drift_start drift_after_read
              H1 H2 H3) as (m4 & Hrun & Hn & Hchanged & _).
  exists m4. split; [exact Hrun|]. split; [exact Hn|].
  apply (Hchanged ltac:(run) ltac:(run) {| st_mode := S_IFREG; st_size := 5 |});
    [reflexivity | run].
Defined.

(** In the kfir mode a call that called [read] three times counts as
    one. *)
Example Read_kfir_counts_once :
  Read 5 8 kfir_waiting = Done (1, bytes "x", kfir_waited)
  /\ i_nb_reads (sys kfir_waiting) = 0
  /\ i_nb_reads (sys kfir_waited) = 1
  /\ trace kfir_waited
     = trace kfir_waiting
       ++ [EvRead 3 8 0; EvMsleep 100000; EvRead 3 8 0; EvMsleep 100000; EvRead 3 8 1].
Proof. run. Qed.

(** A [read] that fails on the second file of a call: the first file is
    empty, the current file becomes the second. *)
Example Read_fails_on_second_file :
  Read 1 8 hollow_opened = Done (-1, [], hollow_read)
  /\ filep (sys hollow_opened) = 0
  /\ filep (sys hollow_read) = 1
  /\ trace hollow_read
     = trace hollow_opened
       ++ [EvRead 3 8 0; EvRead 4 8 (-1); EvErr (MsgReadFailed EIO);
           EvUserFatal (MsgReadFailed EIO); EvMsleep 100000].
Proof. run. Qed.

(** The call itself: five bytes, and the sizes follow the file. *)
Example Read_size_drift_run :
  Read 1 8 drift_start = Done (5, bytes "abcXY", drift_read)
  /\ i_size (inf drift_start) = 8 /\ sizev (sys drift_start) = [3; 5]
  /\ i_size (inf drift_read) = 10 /\ sizev (sys drift_read) = [5; 5].
Proof. run. Qed.

Lemma Open_seekable_flag_witness :
  Open (Some "b"%string) (boot "file" "a" two_files) = Done (VLC_SUCCESS, two_opened)
  /\ exists evs,
       trace two_opened = trace (boot "file" "a" two_files) ++ evs
       /\ map fst (fstat_oks evs) = filev (sys two_opened)
       /\ (b_seekable (sys two_opened) = true <->
           standard_mode (psz_access (acc (boot "file" "a" two_files))) = true
           /\ Forall (fun p => seekable_file (snd p) = true) (fstat_oks evs))
       /\ Control 300 ACCESS_CAN_SEEK two_opened
          = (VLC_SUCCESS, CtlBool (b_seekable (sys two_opened)), two_opened)
       /\ Control 300 ACCESS_CAN_FASTSEEK two_opened
          = (VLC_SUCCESS, CtlBool (b_seekable (sys two_opened)), two_opened).
Proof.
  assert (H1 : Open (Some "b"%string) (boot "file" "a" two_files)
               = Done (VLC_SUCCESS, two_opened)) by run.
  split; [exact H1|].
  exact (Open_seekable_flag (Some "b"%string) 300 (boot "file" "a" two_files) two_opened H1).
Defined.

Lemma Open_failure_causes_witness :
  ((forall c, Some ""%string = Some c -> Z.of_nat (String.length c) + 2 < 2 ^ 32)
   /\ Open (Some ""%string) dir_booted = Done (VLC_EGENERIC, dir_failed))
  /\ exists evs,
       trace dir_failed = trace dir_booted ++ evs
       /\ (VLC_EGENERIC = VLC_EGENERIC <->
           existsb open_refused evs = true
           \/ existsb fstat_refused evs = true
           \/ existsb found_directory evs = true
           \/ (exists c,
                 Some ""%string = Some c
                 /\ length (fstat_oks evs) = Z.to_nat (files_asked c)
                 /\ standard_mode (psz_access (acc dir_booted)) = true
                 /\ Forall (fun p => seekable_file (snd p) = true) (fstat_oks evs)
                 /\ add_sizes 0 (map snd (fstat_oks evs)) = 0))
       /\ (VLC_EGENERIC <> VLC_SUCCESS -> fds_closed evs ≡ₚ fds_opened evs).
Proof.
  assert (H1 : forall c, Some ""%string = Some c -> Z.of_nat (String.length c) + 2 < 2 ^ 32).
  { intros c Hc. injection Hc as <-. run. }
  assert (H2 : Open (Some ""%string) dir_booted = Done (VLC_EGENERIC, dir_failed)) by run.
  split; [auto|].
  exact (Open_failure_causes (Some ""%string) dir_booted dir_failed VLC_EGENERIC H1 H2).
Defined.

Lemma Seek_then_Read_inside_file_witness :
  (b_pace_control (sys two_opened) = true
   /\ tables_ok (sys two_opened)
   /\ stream_on two_opened [regular (bytes "abc"); regular (bytes "defgh")]
   /\ sum_sizes (sizev (sys two_opened)) = i_size (inf two_opened)
   /\ i_size (inf two_opened) < 2 ^ 63
   /\ 0 <= i_pos (inf two_opened) <= i_size (inf two_opened)
   /\ 0 <= 4 <= i_size (inf two_opened)
   /\ 0 < 8)
  /\ exists m1 off sz,
       Seek 4 two_opened = Done (VLC_SUCCESS, m1)
       /\ i_pos (inf m1) = 4
       /\ sizev (sys two_opened) !! Z.to_nat (filep (sys m1)) = Some sz
       /\ 0 <= off <= sz
       /\ sum_sizes (take (Z.to_nat (filep (sys m1))) (sizev (sys two_opened))) + off = 4
       /\ (off < sz ->
           exists m2,
             Read 1 8 m1
             = Done (Z.min 8 (sz - off),
                     take (Z.to_nat (Z.min 8 (sz - off)))
                       (drop (Z.to_nat 4)
                          (stream_bytes [regular (bytes "abc"); regular (bytes "defgh")])),
                     m2)
             /\ i_pos (inf m2) = 4 + Z.min 8 (sz - off)).
Proof.
  assert (H1 : b_pace_control (sys two_opened) = true) by run.
  assert (H2 : tables_ok (sys two_opened)) by run.
  assert (H3 : stream_on two_opened [regular (bytes "abc"); regular (bytes "defgh")]) by run.
  assert (H4 : sum_sizes (sizev (sys two_opened)) = i_size (inf two_opened)) by run.
  assert (H5 : i_size (inf two_opened) < 2 ^ 63) by run.
  assert (H6 : 0 <= i_pos (inf two_opened) <= i_size (inf two_opened)) by run.
  assert (H7 : 0 <= 4 <= i_size (inf two_opened)) by run.
  assert (H8 : 0 < 8) by lia.
  split; [exact (conj H1 (conj H2 (conj H3 (conj H4 (conj H5 (conj H6 (conj H7 H8)))))))|].
  exact (Seek_then_Read_inside_file 1 8 4 two_opened _ H1 H2 H3 H4 H5 H6 H7 H8).
Defined.

(** At offset 4 the call gives "efgh", the four bytes left in the second file. *)
Example Seek_4_Read_8 :
  Seek 4 two_opened = Done (VLC_SUCCESS, two_seek_4)
  /\ Read 1 8 two_seek_4 = Done (4, bytes "efgh", two_seek_4_read)
  /\ i_pos (inf two_seek_4_read) = 8.
Proof. run. Qed.

Lemma Only_selected_descriptor_repositioned_witness :
  (tables_ok (sys two_opened)
   /\ sum_sizes (sizev (sys two_opened)) = i_size (inf two_opened)
   /\ i_size (inf two_opened) < 2 ^ 63
   /\ 0 <= 4 <= i_size (inf two_opened)
   /\ b_pace_control (sys two_stale) = true
   /\ 0 <= filep (sys two_stale)
   /\ filep (sys two_stale) + 1 < filec (sys two_stale) < 2 ^ 32
   /\ (Z.to_nat (filep (sys two_stale) + 1) < length (sizev (sys two_stale)))%nat
   /\ filev (sys two_stale) !! Z.to_nat (filep (sys two_stale)) = Some 3
   /\ filev (sys two_stale) !! Z.to_nat (filep (sys two_stale) + 1) = Some 4
   /\ 3 <> 4
   /\ sim_fd 3 (world two_stale) = Some (sf_with_off 3 (regular (bytes "abc")))
   /\ sim_fd 4 (world two_stale) = Some (sf_with_off 2 (regular (bytes "defgh"))))
  /\ (exists m1 fd off evs,
        Seek 4 two_opened = Done (VLC_SUCCESS, m1)
        /\ filev (sys two_opened) !! Z.to_nat (filep (sys m1)) = Some fd
        /\ world m1 = sim_lseek fd off (world two_opened)
        /\ trace m1 = trace two_opened ++ evs ++ [EvLseek fd off]
        /\ existsb is_lseek evs = false
        /\ forall fd', fd' <> fd -> sim_fd fd' (world m1) = sim_fd fd' (world two_opened))
  /\ (exists m2 evs,
        let bs := take (Z.to_nat 8)
                    (drop (Z.to_nat (sf_off (sf_with_off 2 (regular (bytes "defgh")))))
                       (sf_data (sf_with_off 2 (regular (bytes "defgh"))))) in
        Read 1 8 two_stale = Done (Z.of_nat (length bs), bs, m2)
        /\ bs <> []
        /\ filep (sys m2) = filep (sys two_stale) + 1
        /\ trace m2 = trace two_stale ++ evs
        /\ existsb is_lseek evs = false).
Proof.
  assert (H1 : tables_ok (sys two_opened)) by run.
  assert (H2 : sum_sizes (sizev (sys two_opened)) = i_size (inf two_opened)) by run.
  assert (H3 : i_size (inf two_opened) < 2 ^ 63) by run.
  assert (H4 : 0 <= 4 <= i_size (inf two_opened)) by run.
  assert (H5 : b_pace_control (sys two_stale) = true) by run.
  assert (H6 : 0 <= filep (sys two_stale)) by run.
  assert (H7 : filep (sys two_stale) + 1 < filec (sys two_stale) < 2 ^ 32) by run.
  assert (H8 : (Z.to_nat (filep (sys two_stale) + 1) < length (sizev (sys two_stale)))%nat)
    by run.
  assert (H9 : filev (sys two_stale) !! Z.to_nat (filep (sys two_stale)) = Some 3) by run.
  assert (H10 : filev (sys two_stale) !! Z.to_nat (filep (sys two_stale) + 1) = Some 4) by run.
  assert (H11 : 3 <> 4) by lia.
  assert (H12 : sim_fd 3 (world two_stale) = Some (sf_with_off 3 (regular (bytes "abc"))))
    by run.
  assert (H13 : sim_fd 4 (world two_stale) = Some (sf_with_off 2 (regular (bytes "defgh"))))
    by run.
  split;
    [exact (conj H1 (conj H2 (conj H3 (conj H4 (conj H5 (conj H6 (conj H7 (conj H8
              (conj H9 (conj H10 (conj H11 (conj H12 H13))))))))))))|].
  exact (Only_selected_descriptor_repositioned 1 8 4 two_opened two_stale 3 4 _ _
           H1 H2 H3 H4 H5 H6 H7 H8 H9 H10 H11
           H12 eq_refl ltac:(run) H13 eq_refl ltac:(run) ltac:(lia)).
Defined.

(** On that stream the call gives "fgh", the bytes of the second file
    from offset 2 on, where the stream at its position 3 has "defgh". *)
Example Read_from_stale_offset :
  i_pos (inf two_stale) = 3
  /\ Read 1 8 two_stale = Done (3, bytes "fgh", two_stale_read)
  /\ take 8 (drop 3 (stream_bytes (map snd two_files))) = bytes "defgh".
Proof. run. Qed.

(** ** The further properties on concrete streams *)

Lemma Read_position_accounting_witness :
  Read 1 8 two_opened = Done (3, bytes "abc", two_after_first)
  /\ -1 <= 3
  /\ (0 < 3 ->
      3 = Z.of_nat (length (bytes "abc"))
      /\ i_pos (inf two_after_first) = wrap_int64 (i_pos (inf two_opened) + 3)
      /\ b_eof (inf two_after_first) = b_eof (inf two_opened))
  /\ (3 <= 0 -> bytes "abc" = [] /\ i_pos (inf two_after_first) = i_pos (inf two_opened))
  /\ (3 < 0 -> 3 = -1 /\ b_eof (inf two_after_first) = b_eof (inf two_opened)).
Proof.
  assert (H1 : Read 1 8 two_opened = Done (3, bytes "abc", two_after_first)) by run.
  split; [exact H1|].
  exact (Read_position_accounting 1 8 3 (bytes "abc") two_opened two_after_first H1).
Defined.

Lemma Read_keeps_stream_shape_witness :
  (0 <= filep (sys two_after_first) < filec (sys two_after_first)
   /\ filec (sys two_after_first) < 2 ^ 32
   /\ Read 1 8 two_after_first = Done (5, bytes "defgh", two_after_second))
  /\ filec (sys two_after_second) = filec (sys two_after_first)
  /\ filev (sys two_after_second) = filev (sys two_after_first)
  /\ length (sizev (sys two_after_second)) = length (sizev (sys two_after_first))
  /\ b_seekable (sys two_after_second) = b_seekable (sys two_after_first)
  /\ b_pace_control (sys two_after_second) = b_pace_control (sys two_after_first)
  /\ b_kfir (sys two_after_second) = b_kfir (sys two_after_first)
  /\ filep (sys two_after_first) <= filep (sys two_after_second) < filec (sys two_after_first).
Proof.
  assert (H1 : 0 <= filep (sys two_after_first) < filec (sys two_after_first)) by run.
  assert (H2 : filec (sys two_after_first) < 2 ^ 32) by run.
  assert (H3 : Read 1 8 two_after_first = Done (5, bytes "defgh", two_after_second)) by run.
  split; [exact (conj H1 (conj H2 H3))|].
  exact (Read_keeps_stream_shape 1 8 5 (bytes "defgh") two_after_first two_after_second
           H1 H2 H3).
Defined.

Lemma Read_touches_only_its_files_witness :
  Read 1 8 drift_start = Done (5, bytes "abcXY", drift_read)
  /\ exists evs,
       trace drift_read = trace drift_start ++ evs
       /\ forallb (read_event_on (filev (sys drift_start))) evs = true.
Proof.
  assert (H1 : Read 1 8 drift_start = Done (5, bytes "abcXY", drift_read)) by run.
  split; [exact H1|].
  exact (Read_touches_only_its_files 1 8 5 (bytes "abcXY") drift_start drift_read H1).
Defined.

Lemma Read_kfir_zero_only_on_stop_witness :
  (b_pace_control (sys kfir_dying_one) = false
   /\ b_kfir (sys kfir_dying_one) = true
   /\ Read 5 8 kfir_dying_one = Done (0, [], kfir_dying_one_read))
  /\ sys_die (world kfir_dying_one_read) = true.
Proof.
  assert (H1 : b_pace_control (sys kfir_dying_one) = false) by run.
  assert (H2 : b_kfir (sys kfir_dying_one) = true) by run.
  assert (H3 : Read 5 8 kfir_dying_one = Done (0, [], kfir_dying_one_read)) by run.
  split; [exact (conj H1 (conj H2 H3))|].
  exact (Read_kfir_zero_only_on_stop 5 8 [] kfir_dying_one kfir_dying_one_read H1 H2 H3).
Defined.

Lemma Read_without_read_is_stop_witness :
  (Read 5 8 polled_stopping = Done (0, [], polled_stopped)
   /\ trace polled_stopped = trace polled_stopping ++ [EvPoll 3 0; EvPoll 3 0]
   /\ existsb is_read [EvPoll 3 0; EvPoll 3 0] = false)
  /\ 0 = 0 /\ @nil Byte.byte = []
  /\ acc polled_stopped = acc polled_stopping
  /\ sys_die (world polled_stopped) = true
  /\ b_pace_control (sys polled_stopping) = false
  /\ b_kfir (sys polled_stopping) = false.
Proof.
  assert (H1 : Read 5 8 polled_stopping = Done (0, [], polled_stopped)) by run.
  assert (H2 : trace polled_stopped = trace polled_stopping ++ [EvPoll 3 0; EvPoll 3 0])
    by run.
  assert (H3 : existsb is_read [EvPoll 3 0; EvPoll 3 0] = false) by reflexivity.
  split; [exact (conj H1 (conj H2 H3))|].
  exact (Read_without_read_is_stop 5 8 0 [] polled_stopping polled_stopped
           [EvPoll 3 0; EvPoll 3 0] H1 H2 H3).
Defined.

Lemma Read_size_change_raises_flag_witness :
  Read 1 8 drift_start = Done (5, bytes "abcXY", drift_read)
  /\ (i_update (inf drift_read) = i_update (inf drift_start)
      \/ i_update (inf drift_read) = Z.lor (i_update (inf drift_start)) INPUT_UPDATE_SIZE)
  /\ (i_size (inf drift_read) <> i_size (inf drift_start)
      \/ sizev (sys drift_read) <> sizev (sys drift_start) ->
      Z.land (i_update (inf drift_read)) INPUT_UPDATE_SIZE = INPUT_UPDATE_SIZE).
Proof.
  assert (H1 : Read 1 8 drift_start = Done (5, bytes "abcXY", drift_read)) by run.
  split; [exact H1|].
  exact (Read_size_change_raises_flag 1 8 5 (bytes "abcXY") drift_start drift_read H1).
Defined.

Lemma Read_keeps_sizes_agree_witness :
  (sizes_agree (sys drift_start) (inf drift_start)
   /\ Read 1 8 drift_start = Done (5, bytes "abcXY", drift_read))
  /\ sizes_agree (sys drift_read) (inf drift_read).
Proof.
  assert (H1 : sizes_agree (sys drift_start) (inf drift_start)) by (vm_compute; reflexivity).
  assert (H2 : Read 1 8 drift_start = Done (5, bytes "abcXY", drift_read)) by run.
  split; [exact (conj H1 H2)|].
  exact (Read_keeps_sizes_agree 1 8 5 (bytes "abcXY") drift_start drift_read H1 H2).
Defined.

(** On that run the size goes from 8 to 10 and the flag
    goes up. *)
Example Read_size_change_run :
  i_size (inf drift_start) = 8 /\ i_update (inf drift_start) = 0
  /\ i_size (inf drift_read) = 10 /\ i_update (inf drift_read) = INPUT_UPDATE_SIZE.
Proof. run. Qed.

Lemma Seek_frame_witness :
  Seek 4 two_opened = Done (VLC_SUCCESS, two_seek_4)
  /\ VLC_SUCCESS = VLC_SUCCESS
  /\ b_eof (inf two_seek_4) = false
  /\ i_size (inf two_seek_4) = i_size (inf two_opened)
  /\ i_update (inf two_seek_4) = i_update (inf two_opened)
  /\ sys two_seek_4 = with_filep (filep (sys two_seek_4)) (sys two_opened)
  /\ 0 <= filep (sys two_seek_4) < filec (sys two_opened)
  /\ (i_pos (inf two_seek_4) = 4
      \/ (i_size (inf two_opened) < i_pos (inf two_opened)
          /\ i_pos (inf two_seek_4) = i_size (inf two_opened))
      \/ (i_pos (inf two_opened) < 0 /\ i_pos (inf two_seek_4) = 0))
  /\ exists fd off sz reports,
       filev (sys two_opened) !! Z.to_nat (filep (sys two_seek_4)) = Some fd
       /\ sizev (sys two_opened) !! Z.to_nat (filep (sys two_seek_4)) = Some sz
       /\ off <= sz
       /\ world two_seek_4 = sys_lseek fd off (world two_opened)
       /\ trace two_seek_4 = trace two_opened ++ reports ++ [EvLseek fd off]
       /\ ((0 <= i_pos (inf two_opened) <= i_size (inf two_opened) /\ reports = [])
           \/ (i_size (inf two_opened) < i_pos (inf two_opened)
               /\ reports = [EvErr MsgSeekingTooFar])
           \/ (i_pos (inf two_opened) < 0
               /\ i_pos (inf two_opened) <= i_size (inf two_opened)
               /\ reports = [EvErr MsgSeekingTooEarly])).
Proof.
  assert (H1 : Seek 4 two_opened = Done (VLC_SUCCESS, two_seek_4)) by run.
  split; [exact H1|].
  exact (Seek_frame 4 two_opened two_seek_4 VLC_SUCCESS H1).
Defined.

Lemma Seek_selects_first_file_reaching_target_witness :
  (tables_ok (sys two_opened)
   /\ sum_sizes (sizev (sys two_opened)) = i_size (inf two_opened)
   /\ i_size (inf two_opened) < 2 ^ 63
   /\ 0 <= i_pos (inf two_opened) <= i_size (inf two_opened)
   /\ 0 <= 3 <= i_size (inf two_opened))
  /\ exists m' fd,
       Seek 3 two_opened = Done (VLC_SUCCESS, m')
       /\ 3 <= sum_sizes (take (S (Z.to_nat (filep (sys m')))) (sizev (sys two_opened)))
       /\ (forall k : nat, (k < Z.to_nat (filep (sys m')))%nat ->
             sum_sizes (take (S k) (sizev (sys two_opened))) < 3)
       /\ filev (sys two_opened) !! Z.to_nat (filep (sys m')) = Some fd
       /\ trace m'
          = trace two_opened
            ++ [EvLseek fd
                  (3 - sum_sizes (take (Z.to_nat (filep (sys m'))) (sizev (sys two_opened))))].
Proof.
  assert (H1 : tables_ok (sys two_opened)) by run.
  assert (H2 : sum_sizes (sizev (sys two_opened)) = i_size (inf two_opened)) by run.
  assert (H3 : i_size (inf two_opened) < 2 ^ 63) by run.
  assert (H4 : 0 <= i_pos (inf two_opened) <= i_size (inf two_opened)) by run.
  assert (H5 : 0 <= 3 <= i_size (inf two_opened)) by run.
  split; [exact (conj H1 (conj H2 (conj H3 (conj H4 H5))))|].
  exact (Seek_selects_first_file_reaching_target 3 two_opened H1 H2 H3 H4 H5).
Defined.

(** [Seek] to 3, the border of "abc" and "defgh", selects "abc" at its
    end. *)
Example Seek_to_the_border :
  Seek 3 two_opened = Done (VLC_SUCCESS, two_seek_3)
  /\ filep (sys two_seek_3) = 0
  /\ trace two_seek_3 = trace two_opened ++ [EvLseek 3 3].
Proof. run. Qed.

Lemma Open_then_Close_balanced_witness :
  Open (Some "b"%string) (boot "file" "a" two_files) = Done (VLC_SUCCESS, two_opened)
  /\ exists evs m'',
       trace two_opened = trace (boot "file" "a" two_files) ++ evs
       /\ fds_closed evs = []
       /\ filev (sys two_opened) = fds_opened evs
       /\ Close two_opened = Done m''
       /\ acc m'' = acc two_opened
       /\ trace m'' = trace two_opened ++ map EvClose (fds_opened evs).
Proof.
  assert (H1 : Open (Some "b"%string) (boot "file" "a" two_files)
               = Done (VLC_SUCCESS, two_opened)) by run.
  split; [exact H1|].
  exact (Open_then_Close_balanced (Some "b"%string) (boot "file" "a" two_files) two_opened H1).
Defined.

(** On the two files: descriptors 3 and 4 are opened, then closed. *)
Example Open_then_Close_run :
  filev (sys two_opened) = [3; 4]
  /\ Close two_opened = Done two_closed
  /\ trace two_closed = trace two_opened ++ [EvClose 3; EvClose 4].
Proof. run. Qed.

Lemma Open_initial_state_witness :
  Open (Some "b"%string) (boot "Stream" "a" two_files) = Done (VLC_SUCCESS, two_streamed)
  /\ (i_pos (inf two_streamed) = 0 /\ b_eof (inf two_streamed) = false
      /\ i_update (inf two_streamed) = 0
      /\ filep (sys two_streamed) = 0 /\ i_nb_reads (sys two_streamed) = 0)
  /\ (b_pace_control (sys two_streamed)
      = standard_mode (psz_access (acc (boot "Stream" "a" two_files)))
      /\ b_kfir (sys two_streamed)
         = negb (strcasecmp_eq (psz_access (acc (boot "Stream" "a" two_files))) "stream")
           && strcasecmp_eq (psz_access (acc (boot "Stream" "a" two_files))) "kfir"
      /\ Control 300 ACCESS_CAN_PAUSE two_streamed
         = (VLC_SUCCESS,
            CtlBool (standard_mode (psz_access (acc (boot "Stream" "a" two_files)))),
            two_streamed)
      /\ Control 300 ACCESS_CAN_CONTROL_PACE two_streamed
         = (VLC_SUCCESS,
            CtlBool (standard_mode (psz_access (acc (boot "Stream" "a" two_files)))),
            two_streamed))
  /\ (psz_access (acc two_streamed) = psz_access (acc (boot "Stream" "a" two_files))
      /\ psz_path (acc two_streamed) = psz_path (acc (boot "Stream" "a" two_files))
      /\ psz_homedir (acc two_streamed) = psz_homedir (acc (boot "Stream" "a" two_files)))
  /\ (0 <= filec (sys two_streamed) < 2 ^ 32
      /\ length (filev (sys two_streamed)) = Z.to_nat (filec (sys two_streamed))
      /\ length (sizev (sys two_streamed)) = Z.to_nat (filec (sys two_streamed))
      /\ sizes_agree (sys two_streamed) (inf two_streamed)).
Proof.
  assert (H1 : Open (Some "b"%string) (boot "Stream" "a" two_files)
               = Done (VLC_SUCCESS, two_streamed)) by run.
  split; [exact H1|].
  exact (Open_initial_state (Some "b"%string) 300 (boot "Stream" "a" two_files)
           two_streamed H1).
Defined.

Lemma Open_then_Seek_witness :
  ((forall c, Some "b"%string = Some c -> Z.of_nat (String.length c) + 2 < 2 ^ 32)
   /\ Open (Some "b"%string) (boot "file" "a" two_files) = Done (VLC_SUCCESS, two_opened)
   /\ Forall (fun z => 0 <= z) (sizev (sys two_opened))
   /\ sum_sizes (sizev (sys two_opened)) < 2 ^ 63)
  /\ tables_ok (sys two_opened)
  /\ sum_sizes (sizev (sys two_opened)) = i_size (inf two_opened)
  /\ forall t : Z,
       0 <= t <= i_size (inf two_opened) ->
       exists m'' fd off,
         Seek t two_opened = Done (VLC_SUCCESS, m'')
         /\ i_pos (inf m'') = t
         /\ b_eof (inf m'') = false
         /\ trace m'' = trace two_opened ++ [EvLseek fd off].
Proof.
  assert (H1 : forall c, Some "b"%string = Some c -> Z.of_nat (String.length c) + 2 < 2 ^ 32).
  { intros c Hc. inversion Hc; subst c. vm_compute. reflexivity. }
  assert (H2 : Open (Some "b"%string) (boot "file" "a" two_files)
               = Done (VLC_SUCCESS, two_opened)) by run.
  assert (H3 : Forall (fun z => 0 <= z) (sizev (sys two_opened))).
  { vm_compute. repeat constructor; discriminate. }
  assert (H4 : sum_sizes (sizev (sys two_opened)) < 2 ^ 63) by run.
  split; [exact (conj H1 (conj H2 (conj H3 H4)))|].
  exact (Open_then_Seek (Some "b"%string) (boot "file" "a" two_files) two_opened
           H1 H2 H3 H4).
Defined.

Lemma Open_out_of_memory_witness :
  Open (Some "b"%string) starved = Done (VLC_ENOMEM, starved_failed)
  /\ (VLC_ENOMEM = VLC_ENOMEM <->
      fst (sys_alloc (world starved)) = false
      \/ fst (sys_alloc (world starved)) = true
         /\ (Some "b"%string = None
             \/ fst (sys_alloc (snd (sys_alloc (world starved)))) = false
             \/ fst (sys_alloc (snd (sys_alloc (world starved)))) = true
                /\ fst (sys_alloc (snd (sys_alloc (snd (sys_alloc (world starved))))))
                   = false))
  /\ (VLC_ENOMEM = VLC_ENOMEM -> trace starved_failed = trace starved).
Proof.
  assert (H1 : Open (Some "b"%string) starved = Done (VLC_ENOMEM, starved_failed)) by run.
  split; [exact H1|].
  exact (Open_out_of_memory (Some "b"%string) starved starved_failed VLC_ENOMEM H1).
Defined.

(** On that host the first allocation succeeds and the second fails. *)
Example Open_second_allocation_fails :
  fst (sys_alloc (world starved)) = true
  /\ fst (sys_alloc (snd (sys_alloc (world starved)))) = false
  /\ trace starved_failed = [].
Proof. run. Qed.

Lemma Open_opens_named_files_witness :
  (Z.of_nat (String.length "b,~/c") + 2 < 2 ^ 32
   /\ Open (Some "b,~/c"%string) home_booted = Done (VLC_SUCCESS, home_opened))
  /\ exists evs,
       trace home_opened = trace home_booted ++ evs
       /\ filec (sys home_opened)
          = Z.of_nat (length (file_names (psz_path (acc home_booted)) "b,~/c"))
       /\ opened_paths evs
          = map (expand_path (psz_homedir (acc home_booted)))
              (if String.eqb (psz_path (acc home_booted)) "-"
               then tl (file_names (psz_path (acc home_booted)) "b,~/c")
               else file_names (psz_path (acc home_booted)) "b,~/c")
       /\ dup_sources evs
          = (if String.eqb (psz_path (acc home_booted)) "-" then [0] else []).
Proof.
  assert (H1 : Z.of_nat (String.length "b,~/c") + 2 < 2 ^ 32) by (vm_compute; reflexivity).
  assert (H2 : Open (Some "b,~/c"%string) home_booted = Done (VLC_SUCCESS, home_opened))
    by run.
  split; [exact (conj H1 H2)|].
  exact (Open_opens_named_files "b,~/c" home_booted home_opened H1 H2).
Defined.

(** On that run three files are opened, two of them below the home
    directory. *)
Example Open_names_run :
  file_names "~/a" "b,~/c" = ["~/a"; "b"; "~/c"]%string
  /\ opened_paths (trace home_opened) = ["/home/user/a"; "b"; "/home/user/c"]%string
  /\ filev (sys home_opened) = [3; 4; 5]
  /\ sizev (sys home_opened) = [3; 2; 1]
  /\ i_size (inf home_opened) = 6.
Proof. run. Qed.

Lemma expand_path_cases_witness :
  expand_path "/home/user" "~/a.ts" = ("/home/user" ++ "/" ++ "a.ts")%string
  /\ expand_path "/home/user" "a.ts" = "a.ts"%string.
Proof.
  split.
  - exact (proj1 (expand_path_cases "/home/user" "~/a.ts") "a.ts"%string eq_refl).
  - apply (proj2 (expand_path_cases "/home/user" "a.ts")). intros rest Hrest. discriminate.
Defined.

(** A tilde that is not followed by a slash is left alone. *)
Example expand_path_run :
  expand_path "/home/user" "~/a.ts" = "/home/user/a.ts"%string
  /\ expand_path "/home/user" "~user/a.ts" = "~user/a.ts"%string
  /\ expand_path "/home/user" "~" = "~"%string
  /\ expand_path "/home/user" "a/~/b" = "a/~/b"%string.
Proof. run. Qed.

Lemma Read_polled_reads_follow_polls_witness :
  (b_pace_control (sys slow_opened) = false
   /\ b_kfir (sys slow_opened) = false
   /\ Read 5 8 slow_opened = Done (3, bytes "abc", slow_read))
  /\ exists evs,
       trace slow_read = trace slow_opened ++ evs
       /\ reads_follow_polls None evs = true.
Proof.
  assert (H1 : b_pace_control (sys slow_opened) = false) by run.
  assert (H2 : b_kfir (sys slow_opened) = false) by run.
  assert (H3 : Read 5 8 slow_opened = Done (3, bytes "abc", slow_read)) by run.
  split; [exact (conj H1 (conj H2 H3))|].
  exact (Read_polled_reads_follow_polls 5 8 3 (bytes "abc") slow_opened slow_read H1 H2 H3).
Defined.

(** On that run the descriptor is not ready twice, then it is, and the
    [read] follows. *)
Example Read_polled_run :
  trace slow_read
  = trace slow_opened ++ [EvPoll 3 0; EvPoll 3 0; EvPoll 3 1; EvRead 3 8 3].
Proof. run. Qed.

Lemma Read_size_zero_never_updated_witness :
  (i_size (inf growing_nine) = 0
   /\ Read 1 1 growing_nine = Done (1, bytes "9", growing_ten))
  /\ i_size (inf growing_ten) = 0
  /\ sizev (sys growing_ten) = sizev (sys growing_nine)
  /\ i_update (inf growing_ten) = i_update (inf growing_nine)
  /\ exists evs,
       trace growing_ten = trace growing_nine ++ evs /\ existsb is_fstat evs = false.
Proof.
  assert (H1 : i_size (inf growing_nine) = 0) by run.
  assert (H2 : Read 1 1 growing_nine = Done (1, bytes "9", growing_ten)) by run.
  split; [exact (conj H1 H2)|].
  exact (Read_size_zero_never_updated 1 1 1 (bytes "9") growing_nine growing_ten H1 H2).
Defined.

(** ** Reading a stream through *)

Lemma take_drop_length {A : Type} (n : nat) (l : list A) :
  take n l ++ drop (length (take n l)) l = l.
Proof.
  rewrite length_take. destruct (Nat.le_gt_cases n (length l)) as [Hle|Hgt].
  - rewrite Nat.min_l by exact Hle. apply take_drop.
  - rewrite Nat.min_r by lia. rewrite take_ge by lia.
    rewrite drop_all. apply app_nil_r.
Qed.

Lemma unread_from_at (j : nat) (files : list sim_file) (f : sim_file) :
  files !! j = Some f ->
  unread_from j files = unread_of f ++ unread_from (S j) files.
Proof. intros Hf. unfold unread_from. now rewrite (drop_S _ _ _ Hf). Qed.

Lemma unread_from_insert (j : nat) (files : list sim_file) (f : sim_file) :
  unread_from (S j) (<[j := f]> files) = unread_from (S j) files.
Proof. unfold unread_from. now rewrite drop_insert_lt by lia. Qed.

Lemma unread_from_end (j : nat) (files : list sim_file) :
  (length files <= j)%nat -> unread_from j files = [].
Proof. intros Hj. unfold unread_from. now rewrite drop_ge by exact Hj. Qed.

Lemma unread_of_moved (f : sim_file) (n : nat) :
  0 <= sf_off f ->
  unread_of (sf_with_off (sf_off f + Z.of_nat n) f) = drop n (unread_of f).
Proof.
  intros Hoff. unfold unread_of. cbn [sf_with_off sf_off sf_data].
  rewrite drop_drop. f_equal. lia.
Qed.

Lemma map_data_insert (j : nat) (files : list sim_file) (f : sim_file) (o : Z) :
  files !! j = Some f ->
  map sf_data (<[j := sf_with_off o f]> files) = map sf_data files.
Proof.
  intros Hf. change (sf_data <$> <[j:=sf_with_off o f]> files = sf_data <$> files).
  rewrite list_fmap_insert. apply list_insert_id.
  now rewrite list_lookup_fmap, Hf.
Qed.

(** Moving the offset of one descriptor keeps the stream in order. *)
Lemma reading_put (m m' : machine sim_world) (files : list sim_file) (j : nat)
    (fd o : Z) (f : sim_file) :
  reading m files ->
  filev (sys m) !! j = Some fd ->
  files !! j = Some f ->
  0 <= o ->
  world m' = sim_put fd (sf_with_off o f) (world m) ->
  b_pace_control (sys m') = true ->
  filec (sys m') = filec (sys m) ->
  filev (sys m') = filev (sys m) ->
  sizev (sys m') = sizev (sys m) ->
  0 <= filep (sys m') < filec (sys m) ->
  reading m' (<[j := sf_with_off o f]> files).
Proof.
  intros (Hpace & Hp & Hfc & Hmax & Hnd & (Hon & Hsizes) & Hoff)
    Hfd Hf Ho Hw Hpace' Hfc' Hfv' Hsv' Hp'.
  unfold reading, stream_on.
  rewrite Hfc', Hfv', Hsv', length_insert.
  repeat split; try assumption; try lia.
  - apply Forall2_same_length_lookup_2.
    { rewrite length_insert. eapply Forall2_length; exact Hon. }
    intros i x y Hx Hy.
    destruct (Forall2_lookup_l _ _ _ _ _ Hon Hfd) as (f0 & Hf0 & Hopen & Hplain).
    assert (f0 = f) by congruence. subst f0.
    destruct (Nat.eq_dec i j) as [->|Hne].
    + rewrite list_lookup_insert_eq in Hy by (eapply lookup_lt_Some; exact Hf).
      assert (x = fd) by congruence. inversion Hy; subst x y.
      rewrite Hw. split; [eapply sim_fd_put_eq; exact Hopen|].
      destruct Hplain as (H1 & H2 & H3). repeat split; assumption.
    + rewrite list_lookup_insert_ne in Hy by congruence.
      destruct (Forall2_lookup_lr _ _ _ _ _ _ Hon Hx Hy) as [Hopen' Hplain'].
      split; [|exact Hplain'].
      rewrite Hw, sim_fd_put_ne; [exact Hopen'| |].
      * apply (sim_fd_range _ _ _ Hopen).
      * intros ->. apply Hne. symmetry. eapply NoDup_lookup; eassumption.
  - rewrite Hsizes.
    change ((fun f1 => Z.of_nat (length (sf_data f1))) <$> files
            = (fun f1 => Z.of_nat (length (sf_data f1))) <$> <[j:=sf_with_off o f]> files).
    rewrite list_fmap_insert. symmetry. apply list_insert_id.
    now rewrite list_lookup_fmap, Hf.
  - apply Forall_insert; assumption.
Qed.

(** One turn of [Read] on such a stream: one [read] that gives the next
    bytes of the current file, and no change of the sizes. *)
Lemma read_turn (fuel : nat) (len : Z) (m : machine sim_world) (files : list sim_file) :
  reading m files ->
  exists fd f m1 m4,
    filev (sys m) !! Z.to_nat (filep (sys m)) = Some fd
    /\ files !! Z.to_nat (filep (sys m)) = Some f
    /\ 0 <= sf_off f
    /\ read_strategy fuel fd len m
       = Done (Some (RdBytes (take (Z.to_nat len) (unread_of f))), m1)
    /\ track_size fd
         (count_read (after_failed_read (RdBytes (take (Z.to_nat len) (unread_of f))) m1))
       = Done m4
    /\ acc m4 = set_sys (with_i_nb_reads (wrap_uint (i_nb_reads (sys m) + 1))) (acc m)
    /\ world m4
       = sim_put fd
           (sf_with_off (sf_off f + Z.of_nat (length (take (Z.to_nat len) (unread_of f)))) f)
           (world m).
Proof.
  intros (Hpace & Hp & Hfc & Hmax & Hnd & (Hon & Hsizes) & Hoff).
  pose proof (Forall2_length _ _ _ Hon) as Hlen.
  destruct (lookup_lt_is_Some_2 (filev (sys m)) (Z.to_nat (filep (sys m)))) as [fd Hfd];
    [lia|].
  destruct (Forall2_lookup_l _ _ _ _ _ Hon Hfd) as (f & Hf & Hopen & Hplain).
  pose proof (read_strategy_plain fuel fd len m f Hpace Hopen (proj1 Hplain)) as Hs.
  cbn zeta in Hs. fold (unread_of f) in Hs.
  set (bs := take (Z.to_nat len) (unread_of f)) in *.
  set (f' := sf_with_off (sf_off f + Z.of_nat (length bs)) f) in *.
  set (m1 := emit _ _) in Hs.
  assert (Hold : sizev (sys (count_read (after_failed_read (RdBytes bs) m1)))
                 !! Z.to_nat (filep (sys (count_read (after_failed_read (RdBytes bs) m1))))
                 = Some (Z.of_nat (length (sf_data f)))).
  { change (sizev (sys m) !! Z.to_nat (filep (sys m)) = Some (Z.of_nat (length (sf_data f)))).
    now rewrite Hsizes, list_lookup_fmap, Hf. }
  destruct (track_size_same fd _ _ Hold) as (m4 & Ht & _ & Hsv4).
  { right. right.
    change (sys_fstat fd (world (count_read (after_failed_read (RdBytes bs) m1))))
      with (sim_fstat fd (sim_put fd f' (world m))).
    unfold sim_fstat. rewrite (sim_fd_put_eq _ _ _ f' Hopen).
    change (sf_fstat_fails f') with (sf_fstat_fails f).
    destruct (sf_fstat_fails f); [now left|right].
    eexists. split; reflexivity. }
  exists fd, f, m1, m4.
  split; [exact Hfd|]. split; [exact Hf|].
  split; [exact (proj1 (Forall_lookup _ _) Hoff _ _ Hf)|].
  split; [exact Hs|]. split; [exact Ht|].
  destruct (track_size_cases _ _ _ Ht) as (Hw & _ & [Ha|(st & old & Hold' & Hne & _ & Ha)]).
  - split; [rewrite Ha; reflexivity|rewrite Hw; reflexivity].
  - exfalso. apply Hne.
    assert (Hins : sizev (sys m4)
                   = <[Z.to_nat (filep (sys m)) := st_size st]> (sizev (sys m)))
      by (unfold sys at 1; rewrite Ha; reflexivity).
    change (sizev (sys (count_read (after_failed_read (RdBytes bs) m1))))
      with (sizev (sys m)) in Hsv4, Hold'.
    change (filep (sys (count_read (after_failed_read (RdBytes bs) m1))))
      with (filep (sys m)) in Hold'.
    rewrite Hsv4 in Hins.
    apply (f_equal (fun l => l !! Z.to_nat (filep (sys m)))) in Hins.
    rewrite list_lookup_insert_eq in Hins by (eapply lookup_lt_Some; exact Hold').
    congruence.
Qed.

(** *** Streams in step with their position *)

Lemma stream_bytes_insert_off (j : nat) (files : list sim_file) (f : sim_file) (o : Z) :
  files !! j = Some f ->
  stream_bytes (<[j := sf_with_off o f]> files) = stream_bytes files.
Proof. intros Hf. unfold stream_bytes. now rewrite (map_data_insert _ _ _ _ Hf). Qed.

Lemma stream_bytes_take_S (j : nat) (files : list sim_file) (f : sim_file) :
  files !! j = Some f ->
  stream_bytes (take (S j) files) = stream_bytes (take j files) ++ sf_data f.
Proof.
  intros Hf. unfold stream_bytes.
  rewrite (take_S_r _ _ _ Hf), map_app, concat_app. cbn. now rewrite app_nil_r.
Qed.

Lemma stream_bytes_split (j : nat) (files : list sim_file) :
  stream_bytes files = stream_bytes (take j files) ++ stream_bytes (drop j files).
Proof.
  unfold stream_bytes. rewrite <- concat_app, <- map_app. now rewrite take_drop.
Qed.

Lemma stream_bytes_upto (j : nat) (files : list sim_file) (f : sim_file) :
  files !! j = Some f ->
  (length (stream_bytes (take j files)) + length (sf_data f)
   <= length (stream_bytes files))%nat.
Proof.
  intros Hf. rewrite (stream_bytes_split (S j) files), (stream_bytes_take_S _ _ _ Hf).
  rewrite !length_app. lia.
Qed.

Lemma unread_from_fresh_tail (files : list sim_file) (j : nat) :
  Forall (fun f => sf_off f = 0) (drop j files) ->
  unread_from j files = stream_bytes (drop j files).
Proof.
  intros Hfresh. unfold unread_from, stream_bytes. f_equal.
  induction Hfresh as [|f l Hf _ IH]; [reflexivity|].
  cbn [map]. rewrite IH. f_equal. unfold unread_of. now rewrite Hf.
Qed.

(** In step, the bytes the descriptors have to give are the bytes of the
    stream from the position on. *)
Lemma in_step_unread (m : machine sim_world) (files : list sim_file) :
  in_step m files ->
  unread m files = drop (Z.to_nat (i_pos (inf m))) (stream_bytes files).
Proof.
  intros (Hrd & _ & Hfresh & f & Hf & Hle & Hpos).
  destruct Hrd as (_ & _ & _ & _ & _ & _ & Hoffs).
  pose proof (proj1 (Forall_lookup _ _) Hoffs _ _ Hf) as Hoff. cbn in Hoff.
  unfold unread. rewrite (unread_from_at _ _ _ Hf), (unread_from_fresh_tail _ _ Hfresh).
  replace (Z.to_nat (i_pos (inf m)))
    with (length (stream_bytes (take (Z.to_nat (filep (sys m))) files))
          + Z.to_nat (sf_off f))%nat by lia.
  rewrite (stream_bytes_from _ _ _ f Hf) by lia. reflexivity.
Qed.

Lemma in_step_pos (m : machine sim_world) (files : list sim_file) :
  in_step m files ->
  0 <= i_pos (inf m) <= Z.of_nat (length (stream_bytes files)).
Proof.
  intros (Hrd & _ & _ & f & Hf & Hle & Hpos).
  destruct Hrd as (_ & _ & _ & _ & _ & _ & Hoffs).
  pose proof (proj1 (Forall_lookup _ _) Hoffs _ _ Hf) as Hoff. cbn in Hoff.
  pose proof (stream_bytes_upto _ _ _ Hf). lia.
Qed.

Lemma in_step_at (m : machine sim_world) (files : list sim_file) (f : sim_file) :
  in_step m files ->
  files !! Z.to_nat (filep (sys m)) = Some f ->
  0 <= sf_off f <= Z.of_nat (length (sf_data f))
  /\ i_pos (inf m)
     = Z.of_nat (length (stream_bytes (take (Z.to_nat (filep (sys m))) files))) + sf_off f
  /\ Z.of_nat (length (stream_bytes files)) < 2 ^ 63.
Proof.
  intros (Hrd & Htot & _ & f0 & Hf0 & Hle & Hpos) Hf.
  assert (f0 = f) by congruence. subst f0.
  destruct Hrd as (_ & _ & _ & _ & _ & _ & Hoffs).
  pose proof (proj1 (Forall_lookup _ _) Hoffs _ _ Hf) as Hoff. cbn in Hoff.
  repeat split; assumption.
Qed.

(** The descriptor of the current file moves with the position. *)
Lemma in_step_put (m m' : machine sim_world) (files : list sim_file) (f : sim_file) (o : Z) :
  in_step m files ->
  files !! Z.to_nat (filep (sys m)) = Some f ->
  reading m' (<[Z.to_nat (filep (sys m)) := sf_with_off o f]> files) ->
  filep (sys m') = filep (sys m) ->
  o <= Z.of_nat (length (sf_data f)) ->
  i_pos (inf m') = i_pos (inf m) - sf_off f + o ->
  in_step m' (<[Z.to_nat (filep (sys m)) := sf_with_off o f]> files).
Proof.
  intros (_ & Htot & Hfresh & f0 & Hf0 & _ & Hpos) Hf Hrd' Hfp Ho Hpos'.
  assert (f0 = f) by congruence. subst f0.
  unfold in_step. rewrite Hfp.
  split; [exact Hrd'|].
  split; [now rewrite (stream_bytes_insert_off _ _ _ _ Hf)|].
  split; [now rewrite drop_insert_lt by lia|].
  exists (sf_with_off o f).
  split; [apply list_lookup_insert_eq; eapply lookup_lt_Some; exact Hf|].
  split; [exact Ho|].
  rewrite take_insert_ge by lia. cbn [sf_with_off sf_off]. lia.
Qed.

(** From a file that has given all its bytes to the next one. *)
Lemma in_step_next (m m5 : machine sim_world) (files : list sim_file) (f : sim_file) (o : Z) :
  in_step m files ->
  files !! Z.to_nat (filep (sys m)) = Some f ->
  unread_of f = [] ->
  reading m5 (<[Z.to_nat (filep (sys m)) := sf_with_off o f]> files) ->
  filep (sys m5) = filep (sys m) + 1 ->
  i_pos (inf m5) = i_pos (inf m) ->
  in_step m5 (<[Z.to_nat (filep (sys m)) := sf_with_off o f]> files).
Proof.
  intros (Hrd & Htot & Hfresh & f0 & Hf0 & Hle & Hpos) Hf Hnone Hrd5 Hfp Hpos5.
  assert (f0 = f) by congruence. subst f0.
  destruct Hrd as (_ & Hp & _ & _ & _ & _ & Hoffs).
  pose proof (proj1 (Forall_lookup _ _) Hoffs _ _ Hf) as Hoff. cbn in Hoff.
  set (j := Z.to_nat (filep (sys m))) in *.
  assert (Hj5 : Z.to_nat (filep (sys m5)) = S j) by (unfold j; lia).
  assert (Hend : sf_off f = Z.of_nat (length (sf_data f))).
  { unfold unread_of in Hnone. apply (f_equal length) in Hnone.
    rewrite length_drop in Hnone. cbn in Hnone. lia. }
  pose proof Hrd5 as (_ & Hp5 & Hfc5 & _).
  rewrite length_insert in Hfc5.
  destruct (lookup_lt_is_Some_2 files (S j)) as [f1 Hf1]; [lia|].
  assert (Hf1off : sf_off f1 = 0).
  { apply (Forall_lookup_1 _ _ 0%nat f1 Hfresh).
    rewrite lookup_drop. now rewrite Nat.add_0_r. }
  unfold in_step. rewrite Hj5.
  split; [exact Hrd5|].
  split; [now rewrite (stream_bytes_insert_off _ _ _ _ Hf)|].
  split.
  { rewrite drop_insert_lt by lia.
    replace (S (S j)) with (S j + 1)%nat by lia. rewrite <- drop_drop.
    now apply Forall_drop. }
  exists f1.
  split; [rewrite list_lookup_insert_ne by lia; exact Hf1|].
  split; [lia|].
  rewrite Hpos5, Hpos, Hf1off, Hend.
  assert (Hsame : stream_bytes (take (S j) (<[j := sf_with_off o f]> files))
                  = stream_bytes (take (S j) files)).
  { unfold stream_bytes.
    change (concat (sf_data <$> take (S j) (<[j:=sf_with_off o f]> files))
            = concat (sf_data <$> take (S j) files)).
    rewrite !fmap_take, list_fmap_insert. f_equal. f_equal.
    apply list_insert_id. now rewrite list_lookup_fmap, Hf. }
  rewrite Hsame, (stream_bytes_take_S _ _ _ Hf), length_app. lia.
Qed.

Lemma Read_rec_next_bytes (fuel : nat) (len : Z) :
  0 < len ->
  forall (d depth : nat) (m : machine sim_world) (files : list sim_file),
    reading m files ->
    Z.to_nat (filec (sys m) - filep (sys m)) = d ->
    (d <= depth)%nat ->
    exists bs m' files',
      Read_rec depth fuel len m = Done (Z.of_nat (length bs), bs, m')
      /\ reading m' files'
      /\ map sf_data files' = map sf_data files
      /\ unread m files = bs ++ unread m' files'
      /\ (length bs <= Z.to_nat len)%nat
      /\ (bs = [] -> unread m files = [] /\ b_eof (inf m') = true)
      /\ (bs <> [] -> b_eof (inf m') = b_eof (inf m))
      /\ (in_step m files ->
          in_step m' files'
          /\ i_pos (inf m') = i_pos (inf m) + Z.of_nat (length bs)).
Proof.
  intros Hlen. induction d as [|d IH]; intros depth m files Hrd Hd Hdepth.
  { destruct Hrd as (_ & Hp & _). lia. }
  destruct depth as [|depth]; [lia|].
  destruct (read_turn fuel len m files Hrd)
    as (fd & f & m1 & m4 & Hfd & Hf & Hoff & Hs & Ht & Hacc4 & Hw4).
  pose proof Hrd as (Hpace & Hp & Hfc & Hmax & Hnd & Hon & Hoffs).
  set (bs := take (Z.to_nat len) (unread_of f)) in *.
  set (j := Z.to_nat (filep (sys m))) in *.
  assert (Hsys4 : filep (sys m4) = filep (sys m) /\ filec (sys m4) = filec (sys m)
                  /\ filev (sys m4) = filev (sys m) /\ sizev (sys m4) = sizev (sys m)
                  /\ b_pace_control (sys m4) = true /\ inf m4 = inf m).
  { unfold sys, inf. rewrite Hacc4. repeat split. exact Hpace. }
  destruct Hsys4 as (Hfp4 & Hfc4 & Hfv4 & Hsv4 & Hpace4 & Hinf4).
  assert (Hunread : unread m files = unread_of f ++ unread_from (S j) files)
    by (apply unread_from_at; exact Hf).
  rewrite (Read_rec_step depth fuel len fd m m1 m4 _ Hfd Hs Ht).
  cbn [read_ret]. rewrite Hfp4, Hfc4.
  rewrite (wrap_uint_id (filep (sys m) + 1)) by (unfold in_uint; lia).
  destruct (Z.eqb_spec (Z.of_nat (length bs)) 0) as [Hz|Hnz].
  - (* the current file has no byte left *)
    assert (Hbs : bs = []) by (apply nil_length_inv; lia).
    assert (Hnone : unread_of f = []).
    { unfold bs in Hbs. destruct (unread_of f) as [|b l]; [reflexivity|].
      destruct (Z.to_nat len) eqn:Hn; [lia|discriminate]. }
    rewrite Hbs in Hw4. cbn [length] in Hw4.
    destruct (Z.ltb_spec (filep (sys m) + 1) (filec (sys m))) as [Hnext|Hlast].
    + set (m5 := set_acc _ m4).
      assert (Hrd5 : reading m5 (<[j := sf_with_off (sf_off f + Z.of_nat 0) f]> files)).
      { apply (reading_put m m5 files j fd _ f Hrd Hfd Hf); unfold m5; st_simpl;
          try assumption; lia. }
      destruct (IH depth m5 _ Hrd5)
        as (bs' & m' & files' & Hrun & Hrd' & Hdata & Hun & Hle & Heof & Hkeep & Hstep).
      { unfold m5. st_simpl. lia. }
      { lia. }
      exists bs', m', files'. split; [exact Hrun|]. split; [exact Hrd'|].
      split; [rewrite Hdata; now apply map_data_insert|].
      assert (Hun5 : unread m5 (<[j := sf_with_off (sf_off f + Z.of_nat 0) f]> files)
                     = unread_from (S j) files).
      { unfold unread, m5. st_simpl.
        replace (Z.to_nat (filep (sys m) + 1)) with (S j) by (unfold j; lia).
        apply unread_from_insert. }
      rewrite Hun5 in Hun, Heof.
      split; [rewrite Hunread, Hnone; exact Hun|].
      split; [exact Hle|].
      split; [intros Hb; rewrite Hunread, Hnone; exact (Heof Hb)|].
      split; [intros Hb; rewrite (Hkeep Hb); unfold m5; st_simpl; now rewrite Hinf4|].
      intros Hst.
      assert (Hpos5 : i_pos (inf m5) = i_pos (inf m))
        by (unfold m5; st_simpl; now rewrite Hinf4).
      destruct Hstep as [Hst' Hpos'].
      { apply (in_step_next m m5 files f _ Hst Hf Hnone Hrd5); [reflexivity|exact Hpos5]. }
      split; [exact Hst'|]. now rewrite Hpos', Hpos5.
    + replace (filep (sys m) + 1 - 1) with (filep (sys m)) by lia.
      rewrite (wrap_uint_id (filep (sys m))) by (unfold in_uint; lia).
      set (m5 := set_acc (set_sys (with_filep (filep (sys m)))) m4).
      unfold finish_read. cbn [read_ret read_data]. rewrite Hbs. cbn [length Z.of_nat].
      cbn [Z.ltb Z.eqb Z.compare].
      set (m' := set_acc (set_info (with_b_eof true)) m5).
      assert (Hrd' : reading m' (<[j := sf_with_off (sf_off f + Z.of_nat 0) f]> files)).
      { apply (reading_put m m' files j fd _ f Hrd Hfd Hf); unfold m', m5; st_simpl;
          try assumption; lia. }
      assert (Hend : unread_from (S j) files = []).
      { apply unread_from_end. unfold j. lia. }
      exists [], m', (<[j := sf_with_off (sf_off f + Z.of_nat 0) f]> files).
      split; [reflexivity|]. split; [exact Hrd'|].
      split; [now apply map_data_insert|].
      split.
      { rewrite Hunread, Hnone, Hend. cbn [app].
        unfold unread, m', m5. st_simpl. fold j.
        rewrite (unread_from_at j _ (sf_with_off (sf_off f + Z.of_nat 0) f))
          by (apply list_lookup_insert_eq; eapply lookup_lt_Some; exact Hf).
        rewrite unread_from_insert, Hend, (unread_of_moved f 0 Hoff), Hnone. reflexivity. }
      split; [cbn; lia|].
      split; [intros _; rewrite Hunread, Hnone, Hend; split; reflexivity|].
      split; [intros Hb; now contradiction Hb|].
      intros Hst.
      destruct (in_step_at _ _ _ Hst Hf) as (Hrange & _ & _).
      assert (Hpos' : i_pos (inf m') = i_pos (inf m))
        by (unfold m', m5; st_simpl; now rewrite Hinf4).
      split; [|cbn [length Z.of_nat]; lia].
      apply (in_step_put m m' files f _ Hst Hf Hrd'); [reflexivity|lia|lia].
  - (* bytes of the current file *)
    unfold finish_read. cbn [read_ret read_data].
    destruct (Z.ltb_spec 0 (Z.of_nat (length bs))) as [_|]; [|lia].
    set (m' := set_acc _ m4).
    assert (Hrd' : reading m' (<[j := sf_with_off (sf_off f + Z.of_nat (length bs)) f]> files)).
    { apply (reading_put m m' files j fd _ f Hrd Hfd Hf); unfold m'; st_simpl;
        try assumption; try lia. }
    exists bs, m', (<[j := sf_with_off (sf_off f + Z.of_nat (length bs)) f]> files).
    split; [reflexivity|]. split; [exact Hrd'|].
    split; [now apply map_data_insert|].
    split.
    { rewrite Hunread. unfold unread, m'. st_simpl. rewrite Hfp4. fold j.
      rewrite (unread_from_at j _ (sf_with_off (sf_off f + Z.of_nat (length bs)) f))
        by (apply list_lookup_insert_eq; eapply lookup_lt_Some; exact Hf).
      rewrite unread_from_insert, (unread_of_moved f _ Hoff), app_assoc.
      unfold bs. now rewrite take_drop_length. }
    split; [unfold bs; rewrite length_take; lia|].
    split; [intros Hb; rewrite Hb in Hnz; now contradiction Hnz|].
    split; [intros _; unfold m'; st_simpl; now rewrite Hinf4|].
    intros Hst.
    destruct (in_step_at _ _ _ Hst Hf) as (Hrange & Hpos & Htot).
    pose proof (stream_bytes_upto _ _ _ Hf) as Hupto.
    assert (Hbsle : Z.of_nat (length bs) <= Z.of_nat (length (sf_data f)) - sf_off f).
    { unfold bs, unread_of. rewrite length_take, length_drop. lia. }
    assert (Hroom : 0 <= i_pos (inf m)
                    /\ i_pos (inf m) + (Z.of_nat (length (sf_data f)) - sf_off f) < 2 ^ 63).
    { fold j in Hpos. revert Hpos Hupto Htot Hrange.
      generalize (length (stream_bytes (take j files))) (length (stream_bytes files))
                 (length (sf_data f)) (i_pos (inf m)) (sf_off f).
      intros; lia. }
    assert (Hpos' : i_pos (inf m') = i_pos (inf m) + Z.of_nat (length bs)).
    { unfold m'. st_simpl. rewrite Hinf4. apply wrap_int64_id. unfold in_int64.
      pose proof (Nat2Z.is_nonneg (length bs)) as Hnn. revert Hnn Hbsle Hroom.
      generalize (Z.of_nat (length bs)) (Z.of_nat (length (sf_data f))) (i_pos (inf m))
                 (sf_off f).
      intros; lia. }
    split; [|exact Hpos'].
    apply (in_step_put m m' files f _ Hst Hf Hrd');
      [unfold m'; st_simpl; exact Hfp4|lia|lia].
Qed.

Lemma Read_next_bytes (fuel : nat) (len : Z)
    (m : machine sim_world) (files : list sim_file) :
  0 < len ->
  reading m files ->
  exists bs m' files',
    Read fuel len m = Done (Z.of_nat (length bs), bs, m')
    /\ reading m' files'
    /\ map sf_data files' = map sf_data files
    /\ unread m files = bs ++ unread m' files'
    /\ (length bs <= Z.to_nat len)%nat
    /\ (bs = [] -> unread m files = [] /\ b_eof (inf m') = true)
    /\ (bs <> [] -> b_eof (inf m') = b_eof (inf m))
    /\ (in_step m files ->
        in_step m' files'
        /\ i_pos (inf m') = i_pos (inf m) + Z.of_nat (length bs)).
Proof.
  intros Hlen Hrd. unfold Read.
  eapply (Read_rec_next_bytes fuel len Hlen); [exact Hrd|reflexivity|lia].
Qed.

(** What a call of [Read] gives on a stream in step with its position. *)
Lemma Read_in_step (fuel : nat) (len : Z)
    (m : machine sim_world) (files : list sim_file) :
  0 < len ->
  in_step m files ->
  exists bs m' files',
    Read fuel len m = Done (Z.of_nat (length bs), bs, m')
    /\ in_step m' files'
    /\ map sf_data files' = map sf_data files
    /\ drop (Z.to_nat (i_pos (inf m))) (stream_bytes files)
       = bs ++ drop (Z.to_nat (i_pos (inf m'))) (stream_bytes files)
    /\ i_pos (inf m') = i_pos (inf m) + Z.of_nat (length bs)
    /\ (length bs <= Z.to_nat len)%nat
    /\ (bs = [] ->
        i_pos (inf m) = Z.of_nat (length (stream_bytes files))
        /\ b_eof (inf m') = true)
    /\ (bs <> [] -> b_eof (inf m') = b_eof (inf m)).
Proof.
  intros Hlen Hst. pose proof Hst as (Hrd & _).
  destruct (Read_next_bytes fuel len m files Hlen Hrd)
    as (bs & m' & files' & Hrun & _ & Hdata & Hun & Hle & Heof & Hkeep & Hstep).
  destruct (Hstep Hst) as [Hst' Hpos'].
  assert (Hsame : stream_bytes files' = stream_bytes files)
    by (unfold stream_bytes; now rewrite Hdata).
  exists bs, m', files'.
  split; [exact Hrun|]. split; [exact Hst'|]. split; [exact Hdata|].
  split.
  { rewrite <- (in_step_unread m files Hst), Hun, (in_step_unread m' files' Hst'), Hsame.
    reflexivity. }
  split; [exact Hpos'|]. split; [exact Hle|].
  split; [|exact Hkeep].
  intros Hb. destruct (Heof Hb) as [Hnone Htrue]. split; [|exact Htrue].
  rewrite (in_step_unread _ _ Hst) in Hnone.
  apply (f_equal length) in Hnone. rewrite length_drop in Hnone. cbn in Hnone.
  pose proof (in_step_pos _ _ Hst). lia.
Qed.

(** X16.  On a stream in the standard mode that is in step with its
    position (the descriptor of the current file at the offset of the
    position inside that file, those of the later files at their start),
    a call of [Read] for [len > 0] bytes returns the bytes of the stream
    from the position on, [len] at most and one at least unless the
    position is the end of the stream, moves the position past them and
    leaves the stream in step, whatever the number of exhausted or empty
    files it goes through.  It returns no byte only at the end of the
    stream, and then sets the end-of-file flag. *)
Theorem Read_gives_next_bytes (fuel : nat) (len : Z)
    (m : machine sim_world) (files : list sim_file) :
  0 < len ->
  in_step m files ->
  exists bs m' files',
    Read fuel len m = Done (Z.of_nat (length bs), bs, m')
    /\ in_step m' files'
    /\ map sf_data files' = map sf_data files
    /\ drop (Z.to_nat (i_pos (inf m))) (stream_bytes files)
       = bs ++ drop (Z.to_nat (i_pos (inf m'))) (stream_bytes files)
    /\ i_pos (inf m') = i_pos (inf m) + Z.of_nat (length bs)
    /\ (length bs <= Z.to_nat len)%nat
    /\ (bs = [] ->
        i_pos (inf m) = Z.of_nat (length (stream_bytes files))
        /\ b_eof (inf m') = true)
    /\ (bs <> [] -> b_eof (inf m') = b_eof (inf m)).
Proof. apply Read_in_step. Qed.

(** X17.  Read after read, a stream in step with its position gives the
    bytes of the stream from the position to the end, in order, and then
    the end of the stream, with the position at the size of the stream:
    from position 0 these are the bytes of its files, one file after the
    other. *)
Theorem Read_through (count fuel : nat) (len : Z)
    (m : machine sim_world) (files : list sim_file) :
  0 < len ->
  in_step m files ->
  (length (drop (Z.to_nat (i_pos (inf m))) (stream_bytes files)) < count)%nat ->
  exists m',
    read_to_end count fuel len m
    = Done (drop (Z.to_nat (i_pos (inf m))) (stream_bytes files), m')
    /\ b_eof (inf m') = true
    /\ i_pos (inf m') = Z.of_nat (length (stream_bytes files)).
Proof.
  intros Hlen. revert m files.
  induction count as [|count IH]; intros m files Hst Hcount; [lia|].
  destruct (Read_in_step fuel len m files Hlen Hst)
    as (bs & m1 & files1 & Hrun & Hst1 & Hdata & Hnext & Hpos1 & _ & Heof & _).
  assert (Hsame : stream_bytes files1 = stream_bytes files)
    by (unfold stream_bytes; now rewrite Hdata).
  cbn [read_to_end]. rewrite Hrun. cbn.
  destruct bs as [|b bs].
  - cbn [length Z.of_nat] in *. cbn [Z.leb Z.compare].
    destruct (Heof eq_refl) as [Hend Htrue].
    exists m1. rewrite Hnext. cbn [app].
    replace (i_pos (inf m1)) with (i_pos (inf m)) by lia.
    rewrite Hend, Nat2Z.id, drop_all.
    split; [reflexivity|]. split; [exact Htrue|lia].
  - destruct (Z.leb_spec (Z.of_nat (length (b :: bs))) 0) as [Hle|_];
      [cbn [length] in Hle; lia|].
    rewrite Hnext in Hcount. rewrite length_app in Hcount. cbn [length] in Hcount.
    destruct (IH m1 files1 Hst1) as (m' & Hrest & Htrue & Hend);
      [rewrite Hsame; lia|].
    rewrite Hrest. cbn. rewrite Hsame in *. exists m'.
    split; [now rewrite Hnext|]. split; [exact Htrue|exact Hend].
Qed.

Lemma Read_gives_next_bytes_witness :
  (0 < 8
   /\ in_step two_seek_4 [regular (bytes "abc"); sf_with_off 1 (regular (bytes "defgh"))])
  /\ exists bs m' files',
       Read 1 8 two_seek_4 = Done (Z.of_nat (length bs), bs, m')
       /\ in_step m' files'
       /\ map sf_data files'
          = map sf_data [regular (bytes "abc"); sf_with_off 1 (regular (bytes "defgh"))]
       /\ drop (Z.to_nat (i_pos (inf two_seek_4)))
            (stream_bytes [regular (bytes "abc"); sf_with_off 1 (regular (bytes "defgh"))])
          = bs ++ drop (Z.to_nat (i_pos (inf m')))
                    (stream_bytes
                       [regular (bytes "abc"); sf_with_off 1 (regular (bytes "defgh"))])
       /\ i_pos (inf m') = i_pos (inf two_seek_4) + Z.of_nat (length bs)
       /\ (length bs <= Z.to_nat 8)%nat
       /\ (bs = [] ->
           i_pos (inf two_seek_4)
           = Z.of_nat (length (stream_bytes
                                 [regular (bytes "abc");
                                  sf_with_off 1 (regular (bytes "defgh"))]))
           /\ b_eof (inf m') = true)
       /\ (bs <> [] -> b_eof (inf m') = b_eof (inf two_seek_4)).
Proof.
  assert (H1 : 0 < 8) by lia.
  assert (H2 : in_step two_seek_4
                 [regular (bytes "abc"); sf_with_off 1 (regular (bytes "defgh"))]).
  { unfold in_step. split.
    { unfold reading. split; [run|]. split; [run|]. split; [run|]. split; [run|].
      split; [apply (bool_decide_unpack _); vm_compute; exact I|]. split; run. }
    split; [run|]. split; [vm_compute; constructor|].
    exists (sf_with_off 1 (regular (bytes "defgh"))). run. }
  split; [exact (conj H1 H2)|].
  exact (Read_gives_next_bytes 1 8 two_seek_4 _ H1 H2).
Defined.

Lemma Read_through_witness :
  (0 < 2
   /\ in_step two_opened [regular (bytes "abc"); regular (bytes "defgh")]
   /\ (length (drop (Z.to_nat (i_pos (inf two_opened)))
                 (stream_bytes [regular (bytes "abc"); regular (bytes "defgh")]))
       < 9)%nat)
  /\ exists m',
       read_to_end 9 1 2 two_opened
       = Done (drop (Z.to_nat (i_pos (inf two_opened)))
                 (stream_bytes [regular (bytes "abc"); regular (bytes "defgh")]), m')
       /\ b_eof (inf m') = true
       /\ i_pos (inf m')
          = Z.of_nat (length (stream_bytes
                                [regular (bytes "abc"); regular (bytes "defgh")])).
Proof.
  assert (H1 : 0 < 2) by lia.
  assert (H2 : in_step two_opened [regular (bytes "abc"); regular (bytes "defgh")]).
  { unfold in_step. split.
    { unfold reading. split; [run|]. split; [run|]. split; [run|]. split; [run|].
      split; [apply (bool_decide_unpack _); vm_compute; exact I|]. split; run. }
    split; [run|]. split; [vm_compute; repeat constructor|].
    exists (regular (bytes "abc")). run. }
  assert (H3 : (length (drop (Z.to_nat (i_pos (inf two_opened)))
                          (stream_bytes [regular (bytes "abc"); regular (bytes "defgh")]))
                < 9)%nat) by (vm_compute; lia).
  split; [exact (conj H1 (conj H2 H3))|].
  exact (Read_through 9 1 2 two_opened _ H1 H2 H3).
Defined.

(** Two bytes at a time, the stream of "abc" and "defgh" gives "abcdefgh":
    a call never gives bytes of two files, and none is lost.  At position
    4 one call gives "efgh". *)
Example Read_through_run :
  read_to_end 9 1 2 two_opened = Done (bytes "abcdefgh", two_drained)
  /\ drop (Z.to_nat (i_pos (inf two_opened)))
       (stream_bytes [regular (bytes "abc"); regular (bytes "defgh")]) = bytes "abcdefgh"
  /\ b_eof (inf two_drained) = true
  /\ i_pos (inf two_drained) = 8
  /\ Read 1 8 two_seek_4 = Done (4, bytes "efgh", two_seek_4_read).
Proof. run. Qed.

(** ** Seek on a stream that was not read yet *)

Lemma sim_lseek_put (fd off : Z) (w : sim_world) (f : sim_file) :
  sim_fd fd w = Some f -> plain_file f -> 0 <= off ->
  sim_lseek fd off w = sim_put fd (sf_with_off off f) w.
Proof.
  intros Hf (_ & Hfifo & Hsock) Hoff. unfold sim_lseek. rewrite Hf.
  destruct (Z.ltb_spec off 0); [lia|].
  destruct (sf_type f); try contradiction; reflexivity.
Qed.

Lemma unread_from_fresh (files : list sim_file) (j : nat) :
  Forall (fun f => sf_off f = 0) files ->
  unread_from j files = stream_bytes (drop j files).
Proof.
  intros Hfresh. unfold unread_from, stream_bytes. f_equal.
  apply (Forall_drop _ j) in Hfresh.
  induction Hfresh as [|f l Hf _ IH]; [reflexivity|].
  cbn [map]. rewrite IH. f_equal. unfold unread_of. now rewrite Hf.
Qed.

(** X18.  On a stream in the standard mode none of whose descriptors has
    moved yet, [Seek] to a position [p] of the stream leaves it ready to
    be read, and the bytes it has then to give are the bytes of the
    stream from [p] on. *)
Theorem Seek_on_fresh_stream (p : Z) (m : machine sim_world) (files : list sim_file) :
  reading m files ->
  Forall (fun f => sf_off f = 0) files ->
  sum_sizes (sizev (sys m)) = i_size (inf m) ->
  i_size (inf m) < 2 ^ 63 ->
  0 <= i_pos (inf m) <= i_size (inf m) ->
  0 <= p <= i_size (inf m) ->
  exists m1 files1,
    Seek p m = Done (VLC_SUCCESS, m1)
    /\ reading m1 files1
    /\ map sf_data files1 = map sf_data files
    /\ unread m1 files1 = drop (Z.to_nat p) (stream_bytes files).
Proof.
  intros Hrd Hfresh Hsum Hmax Hpos Hp.
  pose proof Hrd as (Hpace & Hfp & Hfc & Hc & Hnd & (Hon & Hsizes) & Hoffs).
  pose proof (Forall2_length _ _ _ Hon) as Hlen.
  assert (Hok : tables_ok (sys m)).
  { unfold tables_ok. split; [lia|]. split; [rewrite Hsizes, length_map; lia|].
    split; [lia|]. rewrite Hsizes. apply Forall_forall. intros z Hz.
    apply list_elem_of_fmap in Hz as (f & -> & _). lia. }
  destruct (Seek_spec p m Hok Hsum Hmax Hp)
    as (j & off & sz & fd & Hj & Hsz & Hfd & Hoff & _ & Hsplit & Hseek).
  rewrite (seek_clamp_inside p m Hpos) in Hseek, Hsplit. cbn [fst snd] in Hseek, Hsplit.
  destruct (Forall2_lookup_l _ _ _ _ _ Hon Hfd) as (f & Hf & Hopen & Hplain).
  assert (Hszf : sz = Z.of_nat (length (sf_data f))).
  { rewrite Hsizes, list_lookup_fmap, Hf in Hsz. cbn in Hsz. congruence. }
  set (m1 := do_lseek fd off _) in Hseek.
  assert (Hrd1 : reading m1 (<[Z.to_nat j := sf_with_off off f]> files)).
  { apply (reading_put m m1 files (Z.to_nat j) fd off f Hrd Hfd Hf); unfold m1; st_simpl;
      try assumption; try lia; try reflexivity.
    change (sys_lseek fd off (world m)) with (sim_lseek fd off (world m)).
    apply sim_lseek_put; [exact Hopen|exact Hplain|lia]. }
  exists m1, (<[Z.to_nat j := sf_with_off off f]> files).
  split; [exact Hseek|]. split; [exact Hrd1|].
  split; [now apply map_data_insert|].
  unfold unread. replace (filep (sys m1)) with j by (unfold m1; st_simpl; reflexivity).
  rewrite (unread_from_at _ _ (sf_with_off off f))
    by (apply list_lookup_insert_eq; eapply lookup_lt_Some; exact Hf).
  rewrite unread_from_insert, (unread_from_fresh files _ Hfresh).
  assert (Hp' : Z.to_nat p
                = (length (stream_bytes (take (Z.to_nat j) files)) + Z.to_nat off)%nat).
  { rewrite Hsizes, <- fmap_take, sum_sizes_lengths in Hsplit. lia. }
  rewrite Hp', (stream_bytes_from _ _ _ f Hf) by lia.
  reflexivity.
Qed.

Lemma Seek_on_fresh_stream_witness :
  (reading two_opened [regular (bytes "abc"); regular (bytes "defgh")]
   /\ Forall (fun f => sf_off f = 0) [regular (bytes "abc"); regular (bytes "defgh")]
   /\ sum_sizes (sizev (sys two_opened)) = i_size (inf two_opened)
   /\ i_size (inf two_opened) < 2 ^ 63
   /\ 0 <= i_pos (inf two_opened) <= i_size (inf two_opened)
   /\ 0 <= 4 <= i_size (inf two_opened))
  /\ exists m1 files1,
       Seek 4 two_opened = Done (VLC_SUCCESS, m1)
       /\ reading m1 files1
       /\ map sf_data files1 = map sf_data [regular (bytes "abc"); regular (bytes "defgh")]
       /\ unread m1 files1
          = drop (Z.to_nat 4) (stream_bytes [regular (bytes "abc"); regular (bytes "defgh")]).
Proof.
  assert (H1 : reading two_opened [regular (bytes "abc"); regular (bytes "defgh")]).
  { unfold reading. split; [run|]. split; [run|]. split; [run|]. split; [run|].
    split; [apply (bool_decide_unpack _); vm_compute; exact I|]. split; run. }
  assert (H2 : Forall (fun f => sf_off f = 0)
                 [regular (bytes "abc"); regular (bytes "defgh")])
    by (repeat constructor).
  assert (H3 : sum_sizes (sizev (sys two_opened)) = i_size (inf two_opened)) by run.
  assert (H4 : i_size (inf two_opened) < 2 ^ 63) by run.
  assert (H5 : 0 <= i_pos (inf two_opened) <= i_size (inf two_opened)) by run.
  assert (H6 : 0 <= 4 <= i_size (inf two_opened)) by run.
  split; [exact (conj H1 (conj H2 (conj H3 (conj H4 (conj H5 H6)))))|].
  exact (Seek_on_fresh_stream 4 two_opened _ H1 H2 H3 H4 H5 H6).
Defined.

(** From position 4 the stream of "abc" and "defgh" gives "efgh". *)
Example Seek_4_read_to_end :
  returned (read_to_end 9 1 2 two_seek_4) = Some (bytes "efgh")
  /\ drop 4 (stream_bytes [regular (bytes "abc"); regular (bytes "defgh")]) = bytes "efgh".
Proof. run. Qed.
